(** * Vertex: container lifecycle engine and reverse-proxy store

    A shallow embedding of the parts of the Vertex service manager that the
    specification's testable properties talk about:

    - [Env]       repository/instance.go       SaveEnv, LoadEnv
    - [Registry]  repository/instance.go       Set, Delete, Exists, Load, reload
    - [Proxy]     apps/reverseproxy/adapter/proxy_fs.go
    - [Docker]    repository/runner_docker.go  Start, Delete, getID
    - [Native]    services/instance/instance.go startManually
    - [Manifest]  ContainerServiceService      Update, Save
    - [Settings]  apps/instances/service/instance_settings.go Load

    and, beyond those, of the rest of the same files:

    - [Listeners]       repository/instance.go  AddListener, RemoveListener, GetAll
    - [ProxyDisk]       the file behind the redirect store
    - [Runner]          repository/runner_docker.go  Stop, the layout of a run of Start
    - [Service]         services/instance/instance.go  Start, startWithDocker, Stop, Delete
    - [Installer]       services/instance/instance.go  Install, download, symlink, Instantiate
    - [ManifestCheck]   ContainerServiceService  CheckForUpdate
    - [SettingsSetters] apps/instances/service/instance_settings.go  Save and the setters

    Go strings are byte strings and are modelled by [string]; Go maps are
    [gmap]s, and wherever the code ranges over a map the iteration order is
    an explicit list, since Go leaves it unspecified.  Calls that leave the
    process (file system, Docker daemon, process spawning) are answered by
    explicit arguments or by records of answers. *)

From Stdlib Require Import String Ascii NArith ZArith Lia.
From stdpp Require Import base option list gmap strings fin_maps.


(** [uuid.UUID] is a 16-byte array; only its identity matters here. *)
Definition UUID : Type := N.
Bind Scope N_scope with UUID.

(** ** Byte-string helpers shared by the modules *)

Definition LF : ascii := "010"%char.
Definition CR : ascii := "013"%char.
Definition EQS : ascii := "="%char.

(** [has c s]: the byte [c] occurs in [s]. *)
Fixpoint has (c : ascii) (s : string) : bool :=
  match s with
  | EmptyString => false
  | String a s' => if Ascii.eqb a c then true else has c s'
  end.

(** [s[n:]] for [n <= len(s)]; the empty string beyond the end. *)
Fixpoint skip (n : nat) (s : string) : string :=
  match n, s with
  | O, _ => s
  | S _, EmptyString => EmptyString
  | S n', String _ s' => skip n' s'
  end.

(** Last byte of a string, if any. *)
Fixpoint last_byte (s : string) : option ascii :=
  match s with
  | EmptyString => None
  | String a EmptyString => Some a
  | String _ s' => last_byte s'
  end.

(** [strings.Split(s, sep)] for a one-byte separator: always at least one
    field, one more than the number of separators. *)
Fixpoint Split (sep : ascii) (s : string) : list string :=
  match s with
  | EmptyString => [EmptyString]
  | String a s' =>
      if Ascii.eqb a sep then EmptyString :: Split sep s'
      else match Split sep s' with
           | h :: t => String a h :: t
           | [] => [String a EmptyString]
           end
  end.

(** A [path.Join] for the sample hosts below: the parts with a slash
    between them. *)
Definition slash_join (parts : list string) : string :=
  match parts with
  | [] => ""
  | p :: rest => foldl (fun acc q => acc +:+ "/" +:+ q) p rest
  end.

(** ** bufio.Scanner with the default split function (ScanLines) *)
Module Scanner.

(** [bufio.MaxScanTokenSize]: the buffer never grows beyond this, so a
    line together with its terminator has to fit in it. *)
Definition MaxScanTokenSize : N := 65536.

(** [dropCR]: one trailing carriage return is removed from a token. *)
Fixpoint dropCR (s : string) : string :=
  match s with
  | EmptyString => EmptyString
  | String a s' =>
      match s' with
      | EmptyString => if Ascii.eqb a CR then EmptyString else s
      | String _ _ => String a (dropCR s')
      end
  end.

(** The input cut at every line feed; a final piece without line feed is
    a line only when it is not empty. *)
Fixpoint raw_lines (data : string) : list string :=
  match data with
  | EmptyString => []
  | String a rest =>
      if Ascii.eqb a LF then EmptyString :: raw_lines rest
      else match raw_lines rest with
           | l :: ls => String a l :: ls
           | [] => [String a EmptyString]
           end
  end.

Definition fits (l : string) : bool :=
  (N.of_nat (String.length l) <? MaxScanTokenSize)%N.

(** Tokens handed out by successive [Scan()] calls until it returns
    false: at end of input, or at the first line that does not fit the
    buffer (ErrTooLong, which only [scanner.Err()] would reveal). *)
Fixpoint tokens_of (ls : list string) : list string :=
  match ls with
  | [] => []
  | l :: ls' => if fits l then dropCR l :: tokens_of ls' else []
  end.

Definition Scan (data : string) : list string := tokens_of (raw_lines data).

End Scanner.

(** ** Env store: SaveEnv / LoadEnv (repository/instance.go) *)
Module Env.

Inductive Error := ErrOpen | ErrFailedToReadEnv.

(** What the path [<uuid>/.env] holds. *)
Inductive File :=
| NotExist
| Denied
| Data (content : string).

(** The part of [types.Instance] the two functions touch. *)
Record Instance := mkInstance {
  InstanceUUID : UUID;
  Entries : gmap string string   (* i.EnvVariables.Entries *)
}.

(** An open file: the bytes before the write offset and those after. *)
Record Handle := mkHandle { before : string; after : string }.

Definition content (h : Handle) : string := before h +:+ after h.

(** [os.OpenFile(path, O_WRONLY|O_CREATE, perm)]: the file is created
    when missing and opened at offset 0; nothing in the flags empties an
    existing file. *)
Definition OpenFile (f : File) : option Handle :=
  match f with
  | NotExist => Some (mkHandle "" "")
  | Denied => None
  | Data c => Some (mkHandle "" c)
  end.

(** [file.WriteString(s)] at the current offset; the write itself is
    taken to succeed. *)
Definition WriteString (h : Handle) (s : string) : Handle :=
  mkHandle (before h +:+ s) (skip (String.length s) (after h)).

(** [strings.Join([]string{key, value}, "=") + "\n"] *)
Definition env_line (kv : string * string) : string :=
  kv.1 +:+ String EQS (kv.2 +:+ String LF "").

(** [SaveEnv]; [order] is the order in which [range variables] yields
    the entries. *)
Definition SaveEnv (order : list (string * string)) (i : Instance)
    (variables : gmap string string) (f : File)
  : Instance * File * option Error :=
  match OpenFile f with
  | None => (i, f, Some ErrOpen)
  | Some h =>
      let h' := foldl (fun h kv => WriteString h (env_line kv)) h order in
      (mkInstance (InstanceUUID i) variables, Data (content h'), None)
  end.

(** The scanning loop of [LoadEnv]. *)
Fixpoint load_lines (tokens : list string) (entries : gmap string string)
  : gmap string string * option Error :=
  match tokens with
  | [] => (entries, None)
  | t :: ts =>
      match Split EQS t with
      | k :: v :: _ => load_lines ts (<[k:=v]> entries)
      | _ => (entries, Some ErrFailedToReadEnv)
      end
  end.

(** [LoadEnv]: every line read is assigned into the entries the instance
    already has (the map is taken to be allocated). *)
Definition LoadEnv (i : Instance) (f : File) : Instance * option Error :=
  match f with
  | NotExist => (i, None)
  | Denied => (i, Some ErrOpen)
  | Data c =>
      let '(e, err) := load_lines (Scanner.Scan c) (Entries i) in
      (mkInstance (InstanceUUID i) e, err)
  end.

(** A key or value the spec allows: no ['='] and no line feed. *)
Definition plain (s : string) : bool := negb (has EQS s) && negb (has LF s).

(** What the scanner needs on top: the value does not end in a carriage
    return and the whole line fits the scanner's buffer. *)
Definition scannable (kv : string * string) : bool :=
  negb (bool_decide (last_byte kv.2 = Some CR))
  && Scanner.fits (kv.1 +:+ String EQS kv.2).

Definition well_formed (kv : string * string) : Prop :=
  plain kv.1 = true ∧ plain kv.2 = true ∧ scannable kv = true.

(** The bytes [SaveEnv] writes for the entries in iteration order. *)
Fixpoint written (order : list (string * string)) : string :=
  match order with
  | [] => ""
  | kv :: rest => env_line kv +:+ written rest
  end.

(** A line of the file as the scanner hands it out. *)
Definition line_text (kv : string * string) : string :=
  kv.1 +:+ String EQS kv.2.

(** The entries after one [entries[k] = v] per pair. *)
Definition assign (entries : gmap string string) (order : list (string * string))
  : gmap string string :=
  foldl (fun e kv => <[kv.1 := kv.2]> e) entries order.

(** A value of 65534 bytes: with the key K and the ['='] its line is one
    byte too long for the scanner. *)
Fixpoint repeat_byte (a : ascii) (n : nat) : string :=
  match n with
  | O => ""
  | S n' => String a (repeat_byte a n')
  end.

Definition long_value : string := repeat_byte "x" (N.to_nat 65534).

(** Sample file contents. *)
Definition nl : string := String LF "".
Definition stale : string := "A=0" +:+ nl +:+ "B=2" +:+ nl.
Definition mixed : string := "A=1" +:+ nl +:+ "B=2" +:+ nl.

End Env.

(** ** Container registry (repository/instance.go) *)
Module Registry.

Inductive Error :=
| ErrAlreadyExists (u : UUID)      (* "the instance '%s' already exists" *)
| ErrDelete (u : UUID)             (* "failed to delete server uuid=%s" *)
| ErrReadDir
| ErrInfo
| ErrParse (name : string)
| ErrUnmarshal
| ErrNewInstance
| ErrReadFile.

(** Channels are shared objects: the maps hold references to them and
    [queues] holds what has been sent on each one. *)
Definition Chan : Type := N.

Record InstanceEvent := mkEvent { EventName : string }.
Definition EventChange : string := "change".

(** The part of [types.Instance] that the repository reads or writes;
    [Registered] are the channels given to [instance.Register]. *)
Record Instance := mkInstance {
  InstanceUUID : UUID;
  Service : string;
  InstanceMetadata : string;
  Registered : list Chan
}.

Definition Register (c : Chan) (i : Instance) : Instance :=
  mkInstance (InstanceUUID i) (Service i) (InstanceMetadata i)
             (Registered i ++ [c]).

Record InstanceFSRepository := mkRepo {
  instances : gmap UUID Instance;
  listeners : gmap UUID Chan;
  observer : Chan;
  queues : gmap Chan (list InstanceEvent)
}.

Definition queue (c : Chan) (q : gmap Chan (list InstanceEvent))
  : list InstanceEvent := default [] (q !! c).

(** [listener <- event] *)
Definition send (ev : InstanceEvent) (q : gmap Chan (list InstanceEvent))
    (c : Chan) : gmap Chan (list InstanceEvent) :=
  <[c := queue c q ++ [ev]]> q.

Definition set_queues (r : InstanceFSRepository) q : InstanceFSRepository :=
  mkRepo (instances r) (listeners r) (observer r) q.

Definition set_instances (r : InstanceFSRepository) m : InstanceFSRepository :=
  mkRepo m (listeners r) (observer r) (queues r).

(** The channels [range r.listeners] visits, one per registration; every
    send carries the same event, so the order of the visits does not show
    in the queues. *)
Definition subscribers (r : InstanceFSRepository) : list Chan :=
  (map_to_list (listeners r)).*2.

Definition notifyListeners (ev : InstanceEvent) (r : InstanceFSRepository)
  : InstanceFSRepository :=
  set_queues r (foldl (send ev) (queues r) (subscribers r)).

(** [r.instances[uuid] != nil]; only [Set] stores pointers and it never
    stores nil, so a key is present exactly when its pointer is not nil. *)
Definition Exists (u : UUID) (r : InstanceFSRepository) : bool :=
  bool_decide (is_Some (instances r !! u)).

Definition Get (u : UUID) (r : InstanceFSRepository) : option Instance :=
  instances r !! u.

Definition Set_ (u : UUID) (instance : Instance) (r : InstanceFSRepository)
  : InstanceFSRepository * option Error :=
  if Exists u r then (r, Some (ErrAlreadyExists u))
  else
    let r1 := set_instances r (<[u := instance]> (instances r)) in
    let r2 := notifyListeners (mkEvent EventChange) r1 in
    (* instance.Register(r.observer) acts on the stored object *)
    let r3 := set_instances r2 (<[u := Register (observer r2) instance]> (instances r2)) in
    (r3, None).

(** Answers of the file system and of the libraries the repository
    calls. *)
Record DirEntry := mkEntry {
  EntryName : string;
  IsDir : bool;
  Info : option bool       (* entry.Info(): None on error, else Mode()&ModeSymlink != 0 *)
}.

Inductive ReadResult :=
| FileMissing
| FileError
| FileBytes (data : string).

Record World := mkWorld {
  ReadDir : option (list DirEntry);          (* os.ReadDir(storage.PathInstances) *)
  uuid_Parse : string -> option UUID;        (* uuid.Parse *)
  RemoveAll : UUID -> bool;                  (* os.RemoveAll(r.GetPath(uuid)) succeeds *)
  ReadFile_service : UUID -> ReadResult;     (* <path>/.vertex/service.json *)
  Unmarshal_service : string -> option string;
  NewInstance : UUID -> string -> option Instance;
  ReadFile_metadata : UUID -> ReadResult;    (* <path>/.vertex/instance_metadata.json *)
  Unmarshal_metadata : string -> option string
}.

Definition Delete (w : World) (u : UUID) (r : InstanceFSRepository)
  : InstanceFSRepository * option Error :=
  if RemoveAll w u then
    let r1 := set_instances r (delete u (instances r)) in
    (notifyListeners (mkEvent EventChange) r1, None)
  else (r, Some (ErrDelete u)).

(** [ReadService]: a failed read is only logged, and the decoder then
    runs on the empty data. *)
Definition ReadService (w : World) (u : UUID) : Error + string :=
  let data := match ReadFile_service w u with
              | FileBytes d => d
              | _ => ""
              end in
  match Unmarshal_service w data with
  | Some s => inr s
  | None => inl ErrUnmarshal
  end.

Definition LoadMetadata (w : World) (i : Instance) : Error + Instance :=
  match ReadFile_metadata w (InstanceUUID i) with
  | FileMissing => inr i
  | FileError => inl ErrReadFile
  | FileBytes d =>
      match Unmarshal_metadata w d with
      | Some m => inr (mkInstance (InstanceUUID i) (Service i) m (Registered i))
      | None => inl ErrUnmarshal
      end
  end.

Definition Load (w : World) (u : UUID) (r : InstanceFSRepository)
  : InstanceFSRepository * (Error + Instance) :=
  match ReadService w u with
  | inl e => (r, inl e)
  | inr service =>
      match NewInstance w u service with
      | None => (r, inl ErrNewInstance)
      | Some instance =>
          match LoadMetadata w instance with
          | inl e => (r, inl e)
          | inr instance' =>
              match Set_ u instance' r with
              | (r', Some e) => (r', inl e)
              | (r', None) => (r', inr instance')
              end
          end
      end
  end.

(** [log.Fatal] ends the process; [Fatal] keeps the catalog as it was at
    that moment. *)
Inductive Outcome :=
| Fatal (e : Error) (r : InstanceFSRepository)
| Done (r : InstanceFSRepository).

Definition isInstance (entry : DirEntry) (symlink : bool) : bool :=
  IsDir entry || symlink.

(** The body of the [for _, entry := range entries] loop. *)
Definition scan_entry (w : World) (entry : DirEntry) (r : InstanceFSRepository)
  : Outcome :=
  match Info entry with
  | None => Fatal ErrInfo r
  | Some symlink =>
      if isInstance entry symlink then
        match uuid_Parse w (EntryName entry) with
        | None => Fatal (ErrParse (EntryName entry)) r
        | Some id =>
            match Load w id r with
            | (r', inl e) => Fatal e r'
            | (r', inr _) => Done r'
            end
        end
      else Done r
  end.

Fixpoint scan (w : World) (entries : list DirEntry) (r : InstanceFSRepository)
  : Outcome :=
  match entries with
  | [] => Done r
  | entry :: rest =>
      match scan_entry w entry r with
      | Fatal e r' => Fatal e r'
      | Done r' => scan w rest r'
      end
  end.

(** [reload]; the [r.Close()] it starts with closes log files and uptime
    storages and leaves the catalog alone. *)
Definition reload (w : World) (r : InstanceFSRepository) : Outcome :=
  match ReadDir w with
  | None => Fatal ErrReadDir r
  | Some entries => scan w entries r
  end.

(** How often [notifyListeners] sends on the channel [c]: once for each
    identifier it is registered under. *)
Definition registrations (c : Chan) (r : InstanceFSRepository) : nat :=
  length (filter (fun x => x = c) (subscribers r)).

(** From [r] to [r'] every subscribed channel has received the change
    event, and nothing else. *)
Definition published (r r' : InstanceFSRepository) : Prop :=
  listeners r' = listeners r ∧
  ∀ id c, listeners r !! id = Some c →
    0 < registrations c r ∧
    queue c (queues r') =
      queue c (queues r) ++ replicate (registrations c r) (mkEvent EventChange).

(** An entry at which the scan stops, and the error it stops with. *)
Definition entry_fails (w : World) (entry : DirEntry) (r : InstanceFSRepository)
    (e : Error) : Prop :=
  (Info entry = None ∧ e = ErrInfo)
  ∨ ∃ symlink, Info entry = Some symlink ∧ isInstance entry symlink = true ∧
      ((uuid_Parse w (EntryName entry) = None ∧ e = ErrParse (EntryName entry))
       ∨ ∃ id, uuid_Parse w (EntryName entry) = Some id ∧ (Load w id r).2 = inl e).

(** [os.ReadDir] answers the entries sorted by file name, so these are
    the listings [reload] can meet. *)
Fixpoint sorted_by_name (entries : list DirEntry) : bool :=
  match entries with
  | e1 :: rest =>
      match rest with
      | e2 :: _ => String.ltb (EntryName e1) (EntryName e2) && sorted_by_name rest
      | [] => true
      end
  | [] => true
  end.

(** A storage root with one container, every file of it in place, and
    two directories that are no containers: one that sorts before every
    UUID and one that sorts after. *)
Definition sample_name : string := "00000000-0000-0000-0000-000000000001".

Definition hidden : DirEntry := mkEntry ".cache" true (Some false).
Definition stray : DirEntry := mkEntry "lost+found" true (Some false).
Definition good : DirEntry := mkEntry sample_name true (Some false).

Definition sample_world (entries : list DirEntry) : World :=
  mkWorld (Some entries)
          (fun name => if String.eqb name sample_name then Some 1%N else None)
          (fun _ => true)
          (fun _ => FileBytes "{}")
          (fun data => if String.eqb data "" then None else Some data)
          (fun u service => Some (mkInstance u service "" []))
          (fun _ => FileMissing)
          (fun _ => None).

Definition empty_repo : InstanceFSRepository := mkRepo ∅ ∅ 0%N ∅.

End Registry.

(** ** Reverse-proxy redirect store (apps/reverseproxy/adapter/proxy_fs.go) *)
Module Proxy.

Inductive Error := ErrWrite.

Record ProxyRedirect := mkRedirect { Source : string; Target : string }.

#[global] Instance ProxyRedirect_eq_dec : EqDecision ProxyRedirect.
Proof. solve_decision. Defined.

(** What redirects.json holds. *)
Inductive FileState :=
| Absent                                  (* the file does not exist *)
| Holds (m : gmap UUID ProxyRedirect)     (* the JSON text of [m] *)
| Torn.                                   (* what a failed write left: the
                                             file was emptied, and holds
                                             none, part or all of the new
                                             text *)

(** [redirects] is the in-memory map, [disk] the file. *)
Record ProxyFSAdapter := mkAdapter {
  redirects : gmap UUID ProxyRedirect;
  disk : FileState
}.

(** How [os.WriteFile] ends.  It opens the file with O_TRUNC, so once the
    file is open its old content is gone, whatever happens next. *)
Inductive WriteResult :=
| Written                 (* no error *)
| NotOpened               (* the open failed: the file is as it was *)
| Interrupted.            (* the write or the close failed *)

(** [write]; [json.MarshalIndent] of a map of string pairs does not
    fail. *)
Definition write (res : WriteResult) (a : ProxyFSAdapter)
  : ProxyFSAdapter * option Error :=
  match res with
  | Written => (mkAdapter (redirects a) (Holds (redirects a)), None)
  | NotOpened => (a, Some ErrWrite)
  | Interrupted => (mkAdapter (redirects a) Torn, Some ErrWrite)
  end.

Definition AddRedirect (res : WriteResult) (id : UUID) (redirect : ProxyRedirect)
    (a : ProxyFSAdapter) : ProxyFSAdapter * option Error :=
  write res (mkAdapter (<[id := redirect]> (redirects a)) (disk a)).

Definition RemoveRedirect (res : WriteResult) (id : UUID) (a : ProxyFSAdapter)
  : ProxyFSAdapter * option Error :=
  write res (mkAdapter (delete id (redirects a)) (disk a)).

Definition GetRedirects (a : ProxyFSAdapter) : gmap UUID ProxyRedirect :=
  redirects a.

(** [GetRedirectByHost]: the first redirect with that source in the order
    [order] in which [range a.redirects] yields the entries. *)
Fixpoint GetRedirectByHost (order : list (UUID * ProxyRedirect))
    (host : string) : option ProxyRedirect :=
  match order with
  | [] => None
  | (_, redirect) :: rest =>
      if String.eqb (Source redirect) host then Some redirect
      else GetRedirectByHost rest host
  end.

(** A run of the store: a sequence of mutations, each with the result of
    its disk write. *)
Inductive Op :=
| Add (res : WriteResult) (id : UUID) (redirect : ProxyRedirect)
| Remove (res : WriteResult) (id : UUID).

Definition step (a : ProxyFSAdapter) (op : Op) : ProxyFSAdapter :=
  match op with
  | Add res id r => (AddRedirect res id r a).1
  | Remove res id => (RemoveRedirect res id a).1
  end.

Definition run (ops : list Op) (a : ProxyFSAdapter) : ProxyFSAdapter :=
  foldl step a ops.

(** The redirects stored under two different identifiers never have the
    same source host. *)
Definition sources_unique (m : gmap UUID ProxyRedirect) : Prop :=
  forall i j ri rj,
    m !! i = Some ri -> m !! j = Some rj -> Source ri = Source rj -> i = j.

(** No identifier other than [id] holds a redirect from the source of
    [redirect]: what a caller would have to check before adding. *)
Definition source_free (m : gmap UUID ProxyRedirect) (id : UUID)
    (redirect : ProxyRedirect) : Prop :=
  forall j rj, m !! j = Some rj -> Source rj = Source redirect -> j = id.

(** A run in which every [Add] meets that condition when it happens. *)
Fixpoint guarded (a : ProxyFSAdapter) (ops : list Op) : Prop :=
  match ops with
  | [] => True
  | op :: rest =>
      match op with
      | Add _ id redirect => source_free (redirects a) id redirect
      | Remove _ _ => True
      end ∧ guarded (step a op) rest
  end.

Definition empty_adapter : ProxyFSAdapter := mkAdapter ∅ Absent.

End Proxy.

(** ** [uuid.UUID.String]: 32 lower-case hexadecimal digits, grouped 8-4-4-4-12 *)
Definition hex_digit (n : N) : ascii :=
  match n with
  | 0 => "0" | 1 => "1" | 2 => "2" | 3 => "3" | 4 => "4" | 5 => "5"
  | 6 => "6" | 7 => "7" | 8 => "8" | 9 => "9" | 10 => "a" | 11 => "b"
  | 12 => "c" | 13 => "d" | 14 => "e" | _ => "f"
  end%N%char.

(** The [w] low hexadecimal digits of [n], most significant first. *)
Fixpoint hex (w : nat) (n : N) : string :=
  match w with
  | O => ""
  | S w' => hex w' (n / 16)%N +:+ String (hex_digit (n mod 16)%N) ""
  end.

Definition uuid_String (u : UUID) : string :=
  hex 8 (N.shiftr u 96) +:+ "-" +:+ hex 4 (N.shiftr u 80) +:+ "-" +:+
  hex 4 (N.shiftr u 64) +:+ "-" +:+ hex 4 (N.shiftr u 48) +:+ "-" +:+ hex 12 u.

(** ** Docker runner (repository/runner_docker.go) *)
Module Docker.

Inductive Error :=
| ErrContainerNotFound            (* the package's sentinel error *)
| ErrNoDockerMethods              (* "no Docker methods found" *)
| ErrOther (msg : string)         (* an error of the daemon or of a library *)
| PanicIndex.                     (* c.Names[0] on an empty slice: the
                                     run-time panic unwinds like an error
                                     nobody handles *)

#[global] Instance Error_eq_dec : EqDecision Error.
Proof. solve_decision. Defined.

Definition Error_msg (e : Error) : string :=
  match e with
  | ErrContainerNotFound => "container not found"
  | ErrNoDockerMethods => "no Docker methods found"
  | ErrOther msg => msg
  | PanicIndex => "index out of range"
  end.

(** Modelled from the spec: [types.InstanceStatusBuilding]; the types
    package is not part of the sources at hand, and the specification
    lists the statuses off, building, starting, running, stopping, error. *)
Definition InstanceStatusBuilding : string := "building".

(** Modelled from the spec: [types.InstanceStatusRunning]. *)
Definition InstanceStatusRunning : string := "running".

(** Modelled from the spec: [types.InstanceStatusError]. *)
Definition InstanceStatusError : string := "error".

Definition PortSet : Type := list string.
Definition PortMap : Type := list (string * string).

(** [dockertypes.Container], as far as [getID] looks at it. *)
Record Container := mkContainer { Names : list string; ID : string }.

Record EnvDefinition := mkEnvDef {
  Type_ : string;
  Name : string;
  Default : string
}.

(** [instance.Methods.Docker]; nil pointers are [None], and the volume
    map comes in the order [range] yields it. *)
Record ServiceMethodDocker := mkDocker {
  Dockerfile : option string;
  Image : option string;
  Ports : option (list string);
  Volumes : option (list (string * string))
}.

Record Instance := mkInstance {
  InstanceUUID : UUID;
  Methods_Docker : ServiceMethodDocker;
  EnvDefinitions : list EnvDefinition;
  EnvVariables : gmap string string
}.

(** Modelled from the spec: the method [DockerImageName] of
    [types.Instance], which is not part of the sources at hand.  The
    specification names the image vertex_image_<uuid>, as [dockerImageName]
    of services/instance/instance.go does. *)
Definition DockerImageName (i : Instance) : string :=
  "vertex_image_" +:+ uuid_String (InstanceUUID i).

(** Modelled from the spec: the method [DockerContainerName] of
    [types.Instance]; the specification names the container
    VERTEX_CONTAINER_<uuid>, as [dockerContainerName] of
    services/instance/instance.go does. *)
Definition DockerContainerName (i : Instance) : string :=
  "VERTEX_CONTAINER_" +:+ uuid_String (InstanceUUID i).

(** A response body as the read loops meet it.  [Scan] hands out the
    lines of [data] while [Err] answers nil.  Then either the input is at
    its end and [Scan] answers false ([broken] is [None]; the loops look at
    no error after that), or a read failed with input still pending and
    [Scan] hands out one more token while [Err] answers that error. *)
Record Body := mkBody {
  data : string;
  broken : option Error
}.

(** The Docker daemon behind [r.cli]. *)
Record Client := mkClient {
  ContainerList : Error + list Container;
  ImageBuild : string -> string -> Error + Body;     (* context, tag: response body *)
  ImagePull : string -> Error + Body;
  ContainerCreate :
    string -> string -> PortSet -> PortMap -> list string ->
    string * list string * option Error;             (* res.ID, res.Warnings, err *)
  ContainerStart : string -> option Error;
  ContainerStop : string -> option Error;
  ContainerRemove : string -> option Error
}.

(** Library functions and constants outside the repository. *)
Record Sys := mkSys {
  PathInstances : string;                             (* storage.PathInstances *)
  Join : list string -> string;                       (* path.Join *)
  Abs : string -> Error + string;                     (* filepath.Abs *)
  TarWithOptions : string -> option Error;            (* archive.TarWithOptions *)
  Unmarshal_stream : string -> option string;         (* json.Unmarshal into dockerMessage *)
  ParsePortSpecs : list string -> Error + (PortSet * PortMap)  (* nat.ParsePortSpecs *)
}.

(** What a run does that can be seen from outside, in order. *)
Inductive Event :=
| SetStatus (status : string)
| OnLog (msg : string)
| OnErr (msg : string)
| Log (msg : string)
| Warn (msg : string)
| DoImageBuild (tag : string)
| DoImagePull (image : string)
| DoContainerCreate (image name : string) (exposed : PortSet)
                    (bindings : PortMap) (binds : list string)
| DoContainerStart (id : string)
| DoContainerRemove (id : string).

#[global] Instance Event_eq_dec : EqDecision Event.
Proof. solve_decision. Defined.

(** Runs that log what they do and may stop with an error. *)
Definition M (A : Type) : Type := list Event -> list Event * (Error + A).

#[global] Instance M_ret : MRet M := fun A a tr => (tr, inr a).
#[global] Instance M_bind : MBind M := fun A B f m tr =>
  match m tr with
  | (tr', inl e) => (tr', inl e)
  | (tr', inr a) => f a tr'
  end.

Definition emit (ev : Event) : M unit := fun tr => (tr ++ [ev], inr tt).
Definition fail {A} (e : Error) : M A := fun tr => (tr, inl e).
Definition lift {A} (r : Error + A) : M A := fun tr => (tr, r).
Definition check (r : option Error) : M unit :=
  match r with
  | Some e => fail e
  | None => mret tt
  end.

(** [m], and when it fails the handler before the error goes on. *)
Definition on_error {A} (m : M A) (h : Error -> M unit) : M A := fun tr =>
  match m tr with
  | (tr', inl e) => ((h e tr').1, inl e)
  | r => r
  end.

Fixpoint for_each {A} (f : A -> M unit) (l : list A) : M unit :=
  match l with
  | [] => mret tt
  | a :: l' => f a ;; for_each f l'
  end.

Definition run {A} (m : M A) : list Event * (Error + A) := m [].

(** The loop of [getID]: the ID of the first container whose first name
    is ["/" + name], the empty string when there is none. *)
Fixpoint find_container (name : string) (containers : list Container)
  : Error + string :=
  match containers with
  | [] => inr ""
  | c :: rest =>
      match Names c with
      | [] => inl PanicIndex
      | n :: _ =>
          if String.eqb n ("/" +:+ name) then inr (ID c)
          else find_container name rest
      end
  end.

Definition getID (cli : Client) (instance : Instance) : Error + string :=
  match ContainerList cli with
  | inl e => inl e
  | inr containers =>
      match find_container (DockerContainerName instance) containers with
      | inl e => inl e
      | inr containerID =>
          if String.eqb containerID "" then inl ErrContainerNotFound
          else inr containerID
      end
  end.

Definition Delete (cli : Client) (instance : Instance) : M unit :=
  id ← lift (getID cli instance);
  emit (DoContainerRemove id) ;;
  check (ContainerRemove cli id).

(** The two build functions read the daemon's answer line by line, and
    return the error of the scanner when a line comes with one. *)
Definition buildImageFromName (cli : Client) (imageName : string) : M unit :=
  emit (DoImagePull imageName) ;;
  res ← lift (ImagePull cli imageName);
  for_each (fun line => emit (OnLog line)) (Scanner.Scan (data res)) ;;
  check (broken res).

Definition buildImageFromDockerfile (cli : Client) (sys : Sys)
    (instancePath imageName : string) : M unit :=
  check (TarWithOptions sys instancePath) ;;
  emit (DoImageBuild imageName) ;;
  res ← lift (ImageBuild cli instancePath imageName);
  for_each (fun line =>
              match Unmarshal_stream sys line with
              | None => emit (Warn "Failed to parse message:")
              | Some stream =>
                  if String.eqb stream "" then mret tt else emit (OnLog stream)
              end) (Scanner.Scan (data res)) ;;
  check (broken res) ;;
  emit (Log "Docker build: success.").

(** The inner loop of the port pairing: the first definition of type
    "port" whose default is [out] appends one spec and ends the loop. *)
Fixpoint pair_port (instance : Instance) (out : string)
    (defs : list EnvDefinition) (all : list string) : list string :=
  match defs with
  | [] => all
  | e :: defs' =>
      if String.eqb (Type_ e) "port" && String.eqb (Default e) out then
        let in_ := default "" (EnvVariables instance !! Name e) in
        all ++ [in_ +:+ ":" +:+ out]
      else pair_port instance out defs' all
  end.

(** The outer loop: [all] after ranging over the advertised ports. *)
Definition port_specs (instance : Instance) (ports : list string) : list string :=
  foldl (fun all out => pair_port instance out (EnvDefinitions instance) all)
        [] ports.

(** The volume loop: the binds, or the first error of [filepath.Abs]. *)
Fixpoint volume_binds (sys : Sys) (instancePath : string)
    (volumes : list (string * string)) (binds : list string)
  : Error + list string :=
  match volumes with
  | [] => inr binds
  | (source, target) :: rest =>
      match Abs sys (Join sys [instancePath; "volumes"; source]) with
      | inl e => inl e
      | inr source' =>
          volume_binds sys instancePath rest (binds ++ [source' +:+ ":" +:+ target])
      end
  end.

Definition createContainer (cli : Client) (imageName containerName : string)
    (exposedPorts : PortSet) (portBindings : PortMap) (binds : list string)
  : M string :=
  emit (DoContainerCreate imageName containerName exposedPorts portBindings binds) ;;
  let '(id, warnings, err) :=
    ContainerCreate cli imageName containerName exposedPorts portBindings binds in
  for_each (fun _ => emit (Warn "warning while creating container")) warnings ;;
  check err ;;
  mret id.

(** The branch of [Start] taken when [getID] answers
    [ErrContainerNotFound]. *)
Definition create (cli : Client) (sys : Sys) (instance : Instance)
    (instancePath : string) : M string :=
  let docker := Methods_Docker instance in
  emit (Log "container doesn't exists, create it.") ;;
  '(exposedPorts, portBindings) ←
    match Ports docker with
    | Some ports => lift (ParsePortSpecs sys (port_specs instance ports))
    | None => mret ([], [])
    end;
  binds ←
    match Volumes docker with
    | Some volumes => lift (volume_binds sys instancePath volumes [])
    | None => mret []
    end;
  match Dockerfile docker, Image docker with
  | Some _, _ =>
      createContainer cli (DockerImageName instance) (DockerContainerName instance)
                      exposedPorts portBindings binds
  | None, Some image =>
      createContainer cli image (DockerContainerName instance)
                      exposedPorts portBindings binds
  | None, None =>
      (* no call: [id] is still empty and [err] is what the volume loop
         left in it, the sentinel unless [filepath.Abs] overwrote it *)
      match Volumes docker with
      | Some (_ :: _) => mret ""
      | _ => fail ErrContainerNotFound
      end
  end.

Definition Start (cli : Client) (sys : Sys) (instance : Instance) : M unit :=
  let docker := Methods_Docker instance in
  let imageName := DockerImageName instance in
  emit (SetStatus InstanceStatusBuilding) ;;
  let instancePath := Join sys [PathInstances sys; uuid_String (InstanceUUID instance)] in
  (* Build *)
  on_error
    match Dockerfile docker, Image docker with
    | Some _, _ => buildImageFromDockerfile cli sys instancePath imageName
    | None, Some image => buildImageFromName cli image
    | None, None => fail ErrNoDockerMethods
    end
    (fun err => emit (OnErr (Error_msg err))) ;;
  (* Create *)
  id ← match getID cli instance with
       | inl ErrContainerNotFound => create cli sys instance instancePath
       | inl err => fail err
       | inr id => mret id
       end;
  (* Start *)
  emit (DoContainerStart id) ;;
  on_error (check (ContainerStart cli id))
           (fun _ => emit (SetStatus InstanceStatusError)) ;;
  emit (SetStatus InstanceStatusRunning).

(** The statuses handed to [setStatus], in order. *)
Definition statuses (tr : list Event) : list string :=
  omap (fun ev => match ev with SetStatus s => Some s | _ => None end) tr.

(** The build step of [Start] with its error handler, and the create
    step, named so that [Start] can be read as a sequence of five. *)
Definition build_step (cli : Client) (sys : Sys) (instance : Instance) : M unit :=
  on_error
    match Dockerfile (Methods_Docker instance), Image (Methods_Docker instance) with
    | Some _, _ =>
        buildImageFromDockerfile cli sys
          (Join sys [PathInstances sys; uuid_String (InstanceUUID instance)])
          (DockerImageName instance)
    | None, Some image => buildImageFromName cli image
    | None, None => fail ErrNoDockerMethods
    end
    (fun err => emit (OnErr (Error_msg err))).

Definition create_step (cli : Client) (sys : Sys) (instance : Instance) : M string :=
  match getID cli instance with
  | inl ErrContainerNotFound =>
      create cli sys instance
        (Join sys [PathInstances sys; uuid_String (InstanceUUID instance)])
  | inl err => fail err
  | inr id => mret id
  end.

(** A run that never calls [setStatus]. *)
Definition quiet {A} (m : M A) : Prop :=
  ∀ tr, statuses (m tr).1 = statuses tr.

(** The test of the pairing loop, [e.Type == "port" && e.Default == out]:
    the default is compared with the advertised entry as a whole. *)
Definition pairs_with (out : string) (e : EnvDefinition) : Prop :=
  Type_ e = "port" ∧ Default e = out.

#[global] Instance pairs_with_dec out e : Decision (pairs_with out e).
Proof. unfold pairs_with. apply _. Defined.

Definition port_definition (instance : Instance) (out : string)
  : option EnvDefinition :=
  head (filter (pairs_with out) (EnvDefinitions instance)).

(** The spec handed to [nat.ParsePortSpecs] for one advertised port:
    ["<current env value>:<port>"], or nothing without a pairing. *)
Definition binding_of (instance : Instance) (out : string) : list string :=
  match port_definition instance out with
  | Some e => [default "" (EnvVariables instance !! Name e) +:+ ":" +:+ out]
  | None => []
  end.

Definition paired (instance : Instance) (out : string) : Prop :=
  is_Some (port_definition instance out).

(** The container-side port [P] of an advertised entry ["P/proto"]: the
    text before the first slash. *)
Fixpoint container_port (out : string) : string :=
  match out with
  | EmptyString => EmptyString
  | String a rest =>
      if Ascii.eqb a "/" then EmptyString else String a (container_port rest)
  end.

(** The pairing in the words of the specification: an env-definition of
    type "port" whose default equals the container-side port, as in its
    scenario where the entry 80/tcp is paired with the default 80. *)
Definition spec_pairs_with (out : string) (e : EnvDefinition) : Prop :=
  Type_ e = "port" ∧ Default e = container_port out.

#[global] Instance spec_pairs_with_dec out e : Decision (spec_pairs_with out e).
Proof. unfold spec_pairs_with. apply _. Defined.

(** The binding the specification asks for: the host port is the current
    env value of the first definition it pairs the entry with. *)
Definition spec_binding_of (instance : Instance) (out : string) : list string :=
  match head (filter (spec_pairs_with out) (EnvDefinitions instance)) with
  | Some e => [default "" (EnvVariables instance !! Name e) +:+ ":" +:+ out]
  | None => []
  end.

(** The image [Start] creates the container from. *)
Definition image_of (instance : Instance) : option string :=
  match Dockerfile (Methods_Docker instance), Image (Methods_Docker instance) with
  | Some _, _ => Some (DockerImageName instance)
  | None, Some image => Some image
  | None, None => None
  end.

(** What the volume loop of [Start] leaves in [binds]. *)
Definition volumes_of (sys : Sys) (instance : Instance) : Error + list string :=
  match Volumes (Methods_Docker instance) with
  | Some volumes =>
      volume_binds sys
        (Join sys [PathInstances sys; uuid_String (InstanceUUID instance)])
        volumes []
  | None => inr []
  end.

#[global] Instance paired_dec instance out : Decision (paired instance out).
Proof. unfold paired. apply _. Defined.

Definition with_ports (i : Instance) (ports : list string) : Instance :=
  let d := Methods_Docker i in
  mkInstance (InstanceUUID i)
             (mkDocker (Dockerfile d) (Image d) (Some ports) (Volumes d))
             (EnvDefinitions i) (EnvVariables i).

(** [c] is listed under the name of the container of [instance]. *)
Definition named (instance : Instance) (c : Container) : Prop :=
  head (Names c) = Some ("/" +:+ DockerContainerName instance).

Definition other (instance : Instance) (c : Container) : Prop :=
  Names c ≠ [] ∧ ¬ named instance c.

Definition result_of (r : option Error) : Error + unit :=
  match r with
  | Some e => inl e
  | None => inr tt
  end.

(** A daemon that runs one unrelated container and accepts every
    request, with an nginx service bound as in the manifest. *)
Definition listing (containers : list Container) : Client :=
  mkClient (inr containers)
           (fun _ _ => inr (mkBody "" None))
           (fun _ => inr (mkBody "" None))
           (fun _ _ _ _ _ => ("9a7e", [], None))
           (fun _ => None) (fun _ => None) (fun _ => None).

Definition registry_container : Container := mkContainer ["/registry"] "4f1c".

Definition sample_container : Container :=
  mkContainer ["/VERTEX_CONTAINER_00000000-0000-0000-0000-000000000001"] "9a7e".

Definition sample_client : Client := listing [registry_container].

(** A daemon that refuses every pull. *)
Definition refusing_client : Client :=
  mkClient (inr [])
           (fun _ _ => inr (mkBody "" None))
           (fun _ => inl (ErrOther "pull access denied"))
           (fun _ _ _ _ _ => ("9a7e", [], None))
           (fun _ => None) (fun _ => None) (fun _ => None).

Definition sample_sys : Sys :=
  mkSys "live/instances"
        slash_join
        (fun p => inr ("/" +:+ p))
        (fun _ => None)
        (fun line => Some line)
        (fun specs => inr (specs, (fun s => (s, s)) <$> specs)).

Definition sample_instance : Instance :=
  mkInstance 1%N
    (mkDocker None (Some "nginx:latest") (Some ["80/tcp"; "443/tcp"]) None)
    [mkEnvDef "string" "HOST" "80/tcp"; mkEnvDef "port" "PORT" "80/tcp";
     mkEnvDef "port" "ALT" "80/tcp"]
    {[ "PORT" := "8080"; "ALT" := "9090" ]}.

(** The manifest of the specification's second scenario: the image
    nginx:latest, the port 80/tcp, and the env definition PORT of type
    "port" with the default 80 and the value 8080. *)
Definition scenario_instance : Instance :=
  mkInstance 1%N
    (mkDocker None (Some "nginx:latest") (Some ["80/tcp"]) None)
    [mkEnvDef "port" "PORT" "80"]
    {[ "PORT" := "8080" ]}.

End Docker.

(** ** Native runner (services/instance/instance.go) *)
Module Native.

Inductive Error :=
| ErrExecutableNotFound (id : string)  (* "the executable %s (or %s.sh) was not found at path" *)
| ErrOther (msg : string).

(** [err.Error()] *)
Definition Error_msg (e : Error) : string :=
  match e with
  | ErrExecutableNotFound id =>
      "the executable " +:+ id +:+ " (or " +:+ id +:+ ".sh) was not found at path"
  | ErrOther msg => msg
  end.

Definition StatusOff : string := "off".
Definition StatusRunning : string := "running".
Definition StatusError : string := "error".

(** [exec.Cmd], as far as the runner sets it up; [Process] tells whether
    [cmd.Process] is set, which [cmd.Start] does when it succeeds. *)
Record Cmd := mkCmd { Path : string; Dir : string; Process : bool }.

Definition started (c : Cmd) : Cmd := mkCmd (Path c) (Dir c) true.

#[global] Instance Cmd_eq_dec : EqDecision Cmd.
Proof. solve_decision. Defined.

Record Instance := mkInstance {
  InstanceUUID : UUID;
  ID : string;                 (* the embedded Service.ID *)
  Name : string;               (* the embedded Service.Name *)
  Status : string;
  cmd : option Cmd             (* nil when no process handle is held *)
}.

Inductive StatResult :=
| StatOk
| StatNotExist
| StatError (e : Error).

(** The operating system, as the runner asks it. *)
Record Host := mkHost {
  PathInstances : string;
  Join : list string -> string;
  Stat : string -> StatResult;
  StdoutPipe : Cmd -> option Error;
  StderrPipe : Cmd -> option Error;
  cmd_Start : Cmd -> option Error;     (* i.cmd.Start() *)
  cmd_Wait : Cmd -> option Error       (* i.cmd.Wait(), once the process has ended *)
}.

Inductive Event :=
| StatusChange (status : string)   (* what setStatus sends to every listener *)
| LogError (msg : string)
| GoScanner (kind : string)        (* a pump goroutine for one pipe *)
| Spawned (c : Cmd)                (* the child process runs *)
| GoReaper.                        (* the goroutine that waits for the child *)

#[global] Instance Event_eq_dec : EqDecision Event.
Proof. solve_decision. Defined.

Definition State : Type := Instance * list Event.

Definition set_status (i : Instance) (s : string) : Instance :=
  mkInstance (InstanceUUID i) (ID i) (Name i) s (cmd i).

Definition set_cmd (i : Instance) (c : option Cmd) : Instance :=
  mkInstance (InstanceUUID i) (ID i) (Name i) (Status i) c.

Definition setStatus (status : string) (st : State) : State :=
  (set_status st.1 status, st.2 ++ [StatusChange status]).

Definition log (ev : Event) (st : State) : State := (st.1, st.2 ++ [ev]).

(** The search for the executable: [<id>], else [<id>.sh]. *)
Definition find_command (h : Host) (dir id : string) : Error + string :=
  match Stat h (Join h [dir; id]) with
  | StatNotExist =>
      match Stat h (Join h [dir; id +:+ ".sh"]) with
      | StatNotExist => inl (ErrExecutableNotFound id)
      | StatError e => inl e
      | StatOk => inr ("./" +:+ id +:+ ".sh")
      end
  | StatError e => inl e
  | StatOk => inr ("./" +:+ id)
  end.

Definition startManually (h : Host) (i : Instance) : State * option Error :=
  let st0 : State :=
    match cmd i with
    | Some _ => log (LogError ("runner " +:+ Name i +:+ " already started")) (i, [])
    | None => (i, [])
    end in
  let dir := Join h [PathInstances h; uuid_String (InstanceUUID i)] in
  match find_command h dir (ID i) with
  | inl e => (st0, Some e)
  | inr command =>
      let c := mkCmd command dir false in
      let st1 : State := (set_cmd st0.1 (Some c), st0.2) in
      match StdoutPipe h c with
      | Some e => (st1, Some e)
      | None =>
          match StderrPipe h c with
          | Some e => (st1, Some e)
          | None =>
              let st2 := log (GoScanner "stderr") (log (GoScanner "stdout") st1) in
              let st3 := setStatus StatusRunning st2 in
              match cmd_Start h c with
              | Some e => (st3, Some e)
              | None =>
                  let st4 : State := (set_cmd st3.1 (Some (started c)), st3.2) in
                  (log GoReaper (log (Spawned c) st4), None)
              end
          end
      end
  end.

(** The body of the reaper goroutine, run when the child has ended. *)
Definition reaper (h : Host) (st : State) : State :=
  match cmd st.1 with
  | None => st             (* i.cmd.Wait() on a nil handle: not reached from startManually *)
  | Some c =>
      let st1 := match cmd_Wait h c with
                 | Some e => log (LogError (Name st.1 +:+ ": " +:+ Error_msg e)) st
                 | None => st
                 end in
      setStatus StatusOff st1
  end.

Definition statuses (tr : list Event) : list string :=
  omap (fun ev => match ev with StatusChange s => Some s | _ => None end) tr.

(** The command [startManually] builds once the executable is found. *)
Definition command_of (h : Host) (i : Instance) (command : string) : Cmd :=
  mkCmd command (Join h [PathInstances h; uuid_String (InstanceUUID i)]) false.

(** A host on which the executable exists and cannot be run. *)
Definition sample_host : Host :=
  mkHost "live/instances"
         slash_join
         (fun _ => StatOk)
         (fun _ => None) (fun _ => None)
         (fun _ => Some (ErrOther "permission denied"))
         (fun _ => None).

Definition sample_instance : Instance :=
  mkInstance 1%N "hello" "Hello" StatusOff None.

End Native.

(** ** Service manifest upgrade (ContainerServiceService) *)
Module Manifest.

Inductive Error := ErrAdapter (msg : string).

Record Service := mkService {
  ID : string;
  Name : string;
  Version : Z
}.

Record Container := mkContainer {
  ContainerUUID : UUID;
  Service_ : Service
}.

(** [port.ContainerServiceAdapter], the interface behind [s.adapter]. *)
Record ContainerServiceAdapter := mkAdapter {
  adapter_Save : UUID -> Service -> option Error;
  adapter_Load : UUID -> Error + Service
}.

Inductive Event :=
| LogInfo (msg : string)
| Saved (u : UUID) (service : Service).   (* s.adapter.Save was called *)

Definition Save (adapter : ContainerServiceAdapter) (inst : Container)
    (service : Service) : Container * list Event * option Error :=
  (mkContainer (ContainerUUID inst) service,
   [Saved (ContainerUUID inst) service],
   adapter_Save adapter (ContainerUUID inst) service).

(** [MaxSupportedVersion] is a constant of the types package. *)
Definition Update (MaxSupportedVersion : Z) (adapter : ContainerServiceAdapter)
    (inst : Container) (service : Service)
  : Container * list Event * option Error :=
  if (Version service <=? MaxSupportedVersion)%Z then
    let '(inst', tr, err) := Save adapter inst service in
    (inst', LogInfo "service version is outdated, upgrading." :: tr, err)
  else
    (inst, [LogInfo "service version is not supported, skipping."], None).

(** An adapter whose disk is full. *)
Definition failing_adapter : ContainerServiceAdapter :=
  mkAdapter (fun _ _ => Some (ErrAdapter "no space left on device"))
            (fun _ => inl (ErrAdapter "file not found")).

End Manifest.

(** ** Instance settings service (apps/instances/service/instance_settings.go) *)
Module Settings.

Inductive Error := ErrAdapter (msg : string).

Record InstanceSettings := mkSettings {
  DisplayName : string;
  LaunchOnStartup : option bool;
  Version : option string;
  Tags : list string
}.

Record Instance := mkInstance {
  InstanceUUID : UUID;
  Service_Name : string;                 (* inst.Service.Name *)
  InstanceSettings_ : InstanceSettings
}.

(** [types.InstanceSettingsAdapterPort], the interface behind
    [s.adapter]. *)
Record InstanceSettingsAdapterPort := mkAdapter {
  adapter_Save : UUID -> InstanceSettings -> option Error;
  adapter_Load : UUID -> Error + InstanceSettings
}.

Definition set_DisplayName (s : InstanceSettings) (n : string) : InstanceSettings :=
  mkSettings n (LaunchOnStartup s) (Version s) (Tags s).

Definition Load (adapter : InstanceSettingsAdapterPort) (inst : Instance)
  : Instance * option Error :=
  match adapter_Load adapter (InstanceUUID inst) with
  | inl err => (inst, Some err)
  | inr settings =>
      let settings' :=
        if String.eqb (DisplayName settings) ""
        then set_DisplayName settings (Service_Name inst)
        else settings in
      (mkInstance (InstanceUUID inst) (Service_Name inst) settings', None)
  end.

(** The settings an adapter answers with when the file is missing. *)
Definition default_settings : InstanceSettings := mkSettings "" None None [].

Definition missing_file_adapter : InstanceSettingsAdapterPort :=
  mkAdapter (fun _ _ => None) (fun _ => inr default_settings).

End Settings.

(** ** Registry listeners and accessors (repository/instance.go) *)
Module Listeners.

Definition set_listeners (r : Registry.InstanceFSRepository)
    (l : gmap UUID Registry.Chan) : Registry.InstanceFSRepository :=
  Registry.mkRepo (Registry.instances r) l (Registry.observer r) (Registry.queues r).

(** [AddListener]; [id] is the identifier [uuid.New()] draws. *)
Definition AddListener (id : UUID) (channel : Registry.Chan)
    (r : Registry.InstanceFSRepository) : Registry.InstanceFSRepository * UUID :=
  (set_listeners r (<[id := channel]> (Registry.listeners r)), id).

Definition RemoveListener (id : UUID) (r : Registry.InstanceFSRepository)
  : Registry.InstanceFSRepository :=
  set_listeners r (delete id (Registry.listeners r)).

Definition GetAll (r : Registry.InstanceFSRepository) : gmap UUID Registry.Instance :=
  Registry.instances r.

(** The catalog a scan ends with, whether it ran to its end or stopped the
    process. *)
Definition final (o : Registry.Outcome) : Registry.InstanceFSRepository :=
  match o with
  | Registry.Fatal _ r => r
  | Registry.Done r => r
  end.

End Listeners.

(** ** The redirect store and its file *)
Module ProxyDisk.

(** How the disk write of an operation ends. *)
Definition outcome (op : Proxy.Op) : Proxy.WriteResult :=
  match op with
  | Proxy.Add res _ _ => res
  | Proxy.Remove res _ => res
  end.

End ProxyDisk.

(** ** Docker runner: Stop, and how a run of Start is laid out *)
Module Runner.

(** [Stop]: the id by name, then [ContainerStop]. *)
Definition Stop (cli : Docker.Client) (instance : Docker.Instance)
  : Docker.Error + unit :=
  match Docker.getID cli instance with
  | inl err => inl err
  | inr id => Docker.result_of (Docker.ContainerStop cli id)
  end.

(** Events of the build step before its error handler: requests to build
    or pull, and lines passed on or logged. *)
Definition is_output (ev : Docker.Event) : bool :=
  match ev with
  | Docker.OnLog _ | Docker.Log _ | Docker.Warn _
  | Docker.DoImageBuild _ | Docker.DoImagePull _ => true
  | _ => false
  end.

(** Events of the create step. *)
Definition is_create (ev : Docker.Event) : bool :=
  match ev with
  | Docker.Log _ | Docker.Warn _ | Docker.DoContainerCreate _ _ _ _ _ => true
  | _ => false
  end.


Definition is_OnErr (ev : Docker.Event) : bool :=
  match ev with Docker.OnErr _ => true | _ => false end.

Definition is_DoContainerCreate (ev : Docker.Event) : bool :=
  match ev with Docker.DoContainerCreate _ _ _ _ _ => true | _ => false end.

(** A run only appends to the log, and what it appends satisfies [Q]. *)
Definition appends {A} (Q : Docker.Event -> bool) (m : Docker.M A) : Prop :=
  ∀ tr, ∃ new, (m tr).1 = tr ++ new ∧ forallb Q new = true.

(** The build of [Start] before its error handler. *)
Definition build_of (cli : Docker.Client) (sys : Docker.Sys)
    (instance : Docker.Instance) : Docker.M unit :=
  match Docker.Dockerfile (Docker.Methods_Docker instance),
        Docker.Image (Docker.Methods_Docker instance) with
  | Some _, _ =>
      Docker.buildImageFromDockerfile cli sys
        (Docker.Join sys [Docker.PathInstances sys;
                          uuid_String (Docker.InstanceUUID instance)])
        (Docker.DockerImageName instance)
  | None, Some image => Docker.buildImageFromName cli image
  | None, None => Docker.fail Docker.ErrNoDockerMethods
  end.

(** What one line of the build response adds to the log. *)
Definition stream_events (sys : Docker.Sys) (line : string) : list Docker.Event :=
  match Docker.Unmarshal_stream sys line with
  | None => [Docker.Warn "Failed to parse message:"]
  | Some stream => if String.eqb stream "" then [] else [Docker.OnLog stream]
  end.

(** The instance with other ports and volumes in its manifest. *)
Definition with_bindings (i : Docker.Instance) (ports : option (list string))
    (volumes : option (list (string * string))) : Docker.Instance :=
  let d := Docker.Methods_Docker i in
  Docker.mkInstance (Docker.InstanceUUID i)
    (Docker.mkDocker (Docker.Dockerfile d) (Docker.Image d) ports volumes)
    (Docker.EnvDefinitions i) (Docker.EnvVariables i).

(** A daemon whose answers break off: one line comes through, then a
    read fails with input pending. *)
Definition cut_body : Docker.Body :=
  Docker.mkBody ("Step 1/2" +:+ String LF "") (Some (Docker.ErrOther "unexpected EOF")).

Definition cut_client : Docker.Client :=
  Docker.mkClient (inr [])
                  (fun _ _ => inr cut_body)
                  (fun _ => inr cut_body)
                  (fun _ _ _ _ _ => ("9a7e", [], None))
                  (fun _ => None) (fun _ => None) (fun _ => None).

(** The bind of one volume, when [filepath.Abs] succeeds on its source. *)
Definition volume_bind (sys : Docker.Sys) (instancePath : string)
    (volume : string * string) : Docker.Error + string :=
  match Docker.Abs sys (Docker.Join sys [instancePath; "volumes"; volume.1]) with
  | inl e => inl e
  | inr source => inr (source +:+ ":" +:+ volume.2)
  end.

End Runner.

(** ** Instance life cycle (services/instance/instance.go): Start, Stop,
    Delete and the Docker start of the same file *)
Module Service.

Inductive Error :=
| FromNative (e : Native.Error)
| FromDocker (e : Docker.Error)
| ErrClient                       (* client.NewClientWithOpts failed *)
| ErrDeleteDir (u : UUID).        (* "failed to delete server uuid=%s: %v" *)

(** [Instance] embeds the service and the metadata; the fields the native
    runner uses are those of [Native.Instance]. *)
Record Instance := mkInstance {
  native : Native.Instance;
  UseDocker : bool;
  UseReleases : bool
}.

(** What a run does, in order: what the native runner does, plain log
    lines, and the requests to the daemon and to the operating system. *)
Inductive Event :=
| Run (ev : Native.Event)
| Log (msg : string)
| DoSignal (c : Native.Cmd)                 (* i.cmd.Process.Signal(os.Interrupt) *)
| DoImageBuild (tag : string)
| DoContainerCreate (image name : string)
| DoContainerStart (id : string)
| DoContainerStop (id : string)
| DoContainerRemove (id : string)
| DoRemoveAll (path : string).

Definition State : Type := Instance * list Event.

(** A nil pointer dereference ends the call with a panic. *)
Inductive Result (A : Type) :=
| Panic
| Return (a : A).
Arguments Panic {A}.
Arguments Return {A} a.

Record World := mkWorld {
  host : Native.Host;
  NewClient : option Docker.Client;            (* client.NewClientWithOpts *)
  TarWithOptions : string -> option Docker.Error;
  Signal : Native.Cmd -> option Native.Error;
  RemoveAll : string -> bool                   (* os.RemoveAll succeeds *)
}.

Definition with_native (i : Instance) (n : Native.Instance) : Instance :=
  mkInstance n (UseDocker i) (UseReleases i).

Definition log (ev : Event) (st : State) : State := (st.1, st.2 ++ [ev]).

Definition setStatus (status : string) (st : State) : State :=
  (with_native st.1 (Native.set_status (native st.1) status),
   st.2 ++ [Run (Native.StatusChange status)]).

Definition statuses (tr : list Event) : list string :=
  omap (fun ev => match ev with Run (Native.StatusChange s) => Some s | _ => None end) tr.

Definition IsRunning (i : Instance) : bool :=
  String.eqb (Native.Status (native i)) Native.StatusRunning.

Definition dockerImageName (i : Instance) : string :=
  "vertex_image_" +:+ uuid_String (Native.InstanceUUID (native i)).

Definition dockerContainerName (i : Instance) : string :=
  "VERTEX_CONTAINER_" +:+ uuid_String (Native.InstanceUUID (native i)).

Definition instance_path (w : World) (i : Instance) : string :=
  Native.Join (host w)
    [Native.PathInstances (host w); uuid_String (Native.InstanceUUID (native i))].

(** [dockerContainerID]: the loop is the one of the runner's [getID];
    [c.Names[0]] on a container without names panics. *)
Definition dockerContainerID (cli : Docker.Client) (i : Instance)
  : Result (Docker.Error + string) :=
  match Docker.ContainerList cli with
  | inl e => Return (inl e)
  | inr containers =>
      match Docker.find_container (dockerContainerName i) containers with
      | inl _ => Panic
      | inr containerID =>
          if String.eqb containerID "" then Return (inl Docker.ErrContainerNotFound)
          else Return (inr containerID)
      end
  end.

Definition dockerDeleteContainer (cli : Docker.Client) (st : State)
  : Result (State * option Error) :=
  match dockerContainerID cli st.1 with
  | Panic => Panic
  | Return (inl e) => Return (st, Some (FromDocker e))
  | Return (inr id) =>
      Return (log (DoContainerRemove id) st, FromDocker <$> Docker.ContainerRemove cli id)
  end.

(** [Start]: the native start logs onto the instance's own state. *)
Definition startNative (w : World) (st : State) : State * option Error :=
  let '((n, tr), err) := Native.startManually (host w) (native st.1) in
  ((with_native st.1 n, st.2 ++ (Run <$> tr)), FromNative <$> err).

(** A failure after the status was set: back to off, then the error. *)
Definition fail_off (e : Error) (st : State) : State * option Error :=
  (setStatus Native.StatusOff st, Some e).

Definition start_container (cli : Docker.Client) (id : string) (st : State)
  : State * option Error :=
  let st1 := log (DoContainerStart id) (log (Log "starting container...") st) in
  match Docker.ContainerStart cli id with
  | Some e => fail_off (FromDocker e) st1
  | None => (st1, None)
  end.

Definition startWithDocker (w : World) (st : State) : Result (State * option Error) :=
  match NewClient w with
  | None => Return (st, Some ErrClient)
  | Some cli =>
      let imageName := dockerImageName st.1 in
      let containerName := dockerContainerName st.1 in
      match TarWithOptions w (instance_path w st.1) with
      | Some e => Return (st, Some (FromDocker e))
      | None =>
          let st1 := log (DoImageBuild imageName) (setStatus Native.StatusRunning st) in
          match Docker.ImageBuild cli (instance_path w st.1) imageName with
          | inl e => Return (fail_off (FromDocker e) st1)
          | inr body =>
              let st2 := foldl (fun s line => log (Log line) s) st1
                               (Scanner.Scan (Docker.data body)) in
              let st3 := log (Log "Docker build: success.") st2 in
              match Docker.broken body with
              | Some e => Return (fail_off (FromDocker e) st2)
              | None =>
              match dockerContainerID cli st.1 with
              | Panic => Panic
              | Return (inl Docker.ErrContainerNotFound) =>
                  let st4 :=
                    log (DoContainerCreate imageName containerName)
                        (log (Log ("container " +:+ containerName
                                   +:+ " doesn't exists, create it.")) st3) in
                  match Docker.ContainerCreate cli imageName containerName [] [] [] with
                  | (_, _, Some e) => Return (fail_off (FromDocker e) st4)
                  | (id, _, None) => Return (start_container cli id st4)
                  end
              | Return (inl e) => Return (fail_off (FromDocker e) st3)
              | Return (inr id) => Return (start_container cli id st3)
              end
              end
          end
      end
  end.

Definition Start (w : World) (st : State) : Result (State * option Error) :=
  if UseDocker st.1 then startWithDocker w st else Return (startNative w st).

Definition stopWithDocker (w : World) (st : State) : Result (State * option Error) :=
  match NewClient w with
  | None => Return (st, Some ErrClient)
  | Some cli =>
      match dockerContainerID cli st.1 with
      | Panic => Panic
      | Return (inl e) => Return (st, Some (FromDocker e))
      | Return (inr id) =>
          Return (log (DoContainerStop id) st, FromDocker <$> Docker.ContainerStop cli id)
      end
  end.

(** [stopManually]: [i.cmd.Process.Signal] panics on a nil [i.cmd], and
    on a handle whose [Process] is nil, which is what a start leaves that
    failed after the command was built. *)
Definition stopManually (w : World) (st : State) : Result (State * option Error) :=
  match Native.cmd (native st.1) with
  | None => Panic
  | Some c =>
      if Native.Process c then
        let st1 := log (DoSignal c) st in
        match Signal w c with
        | Some e => Return (st1, Some (FromNative e))
        | None =>
            Return ((with_native st1.1 (Native.set_cmd (native st1.1) None), st1.2), None)
        end
      else Panic
  end.

Definition Stop (w : World) (st : State) : Result (State * option Error) :=
  match (if UseDocker st.1 then stopWithDocker w st else stopManually w st) with
  | Panic => Panic
  | Return (st', err) => Return (setStatus Native.StatusOff st', err)
  end.

(** [Delete]; [w] answers the removal of the container, [w'] what comes
    after it (the daemon need not list the same containers any more). *)
Definition Delete (w w' : World) (st : State) : Result (State * option Error) :=
  let removed : Result (State * option Error) :=
    if UseDocker st.1 then
      match NewClient w with
      | None => Return (st, Some ErrClient)
      | Some cli => dockerDeleteContainer cli st
      end
    else Return (st, None) in
  match removed with
  | Panic => Panic
  | Return (st1, Some e) => Return (st1, Some e)
  | Return (st1, None) =>
      match (if IsRunning st1.1 then Stop w' st1 else Return (st1, None)) with
      | Panic => Panic
      | Return (st2, Some e) => Return (st2, Some e)
      | Return (st2, None) =>
          let st3 := log (DoRemoveAll (instance_path w' st2.1)) st2 in
          if RemoveAll w' (instance_path w' st2.1) then Return (st3, None)
          else Return (st3, Some (ErrDeleteDir (Native.InstanceUUID (native st2.1))))
      end
  end.

Definition is_DoRemoveAll (ev : Event) : bool :=
  match ev with DoRemoveAll _ => true | _ => false end.

(** Sample: the host of the native runner, no Docker daemon, a process
    that cannot be signalled. *)
Definition sample_world : World :=
  mkWorld Native.sample_host None (fun _ => None)
          (fun _ => Some (Native.ErrOther "os: process already finished"))
          (fun _ => true).

(** A host on which the executable exists and runs. *)
Definition working_host : Native.Host :=
  Native.mkHost "live/instances" slash_join
    (fun _ => Native.StatOk) (fun _ => None) (fun _ => None)
    (fun _ => None) (fun _ => None).



Definition stopped_instance : Instance :=
  mkInstance Native.sample_instance false false.

Definition running_instance : Instance :=
  mkInstance
    (Native.mkInstance 1%N "hello" "Hello" Native.StatusRunning
       (Some (Native.mkCmd "./hello" "live/instances/x" true)))
    false false.

End Service.

(** ** Installing a service (services/instance/instance.go): Install,
    download, downloadFromReleases, downloadFromGit, symlink, Instantiate *)
Module Installer.

Definition COLON : ascii := ":"%char.
Definition SLASH : ascii := "/"%char.

(** [strings.SplitN(s, sep, 2)] for a one-byte separator: cut at the first
    separator only. *)
Fixpoint SplitN2 (sep : ascii) (s : string) : list string :=
  match s with
  | EmptyString => [EmptyString]
  | String a s' =>
      if Ascii.eqb a sep then [EmptyString; s']
      else match SplitN2 sep s' with
           | h :: t => String a h :: t
           | [] => [String a EmptyString]
           end
  end.

Inductive Error :=
| ErrProtocol                     (* "this protocol is not supported" *)
| ErrNotCompatible (repo : string)  (* "%s is not a compatible Vertex service" *)
| ErrNoReleasesPublished          (* storage.ErrNoReleasesPublished *)
| ErrAlreadyRunning (u : UUID)    (* "the service '%s' is already running" *)
| ErrOther (msg : string).

Inductive Event :=
| Log (msg : string)
| DoRelease (owner repository dest : string)  (* storage.DownloadLatestGithubRelease *)
| DoClone (path url : string)                 (* git.PlainClone *)
| DoSymlink (target link : string)            (* os.Symlink *)
| Notify                                      (* EventChange to the listeners of instances *)
| DoWriteMetadata (i : Service.Instance).

(** What lies outside the process. *)
Record World := mkWorld {
  PathInstances : string;
  Join : list string -> string;
  DownloadLatestGithubRelease : string -> string -> string -> option Error;
  PlainClone : string -> string -> option Error;
  ReadFromDisk : string -> bool;               (* services.ReadFromDisk succeeds *)
  Symlink : string -> string -> option Error;
  CreateFromDisk : UUID -> Error + Service.Instance;
  WriteMetadata : Service.Instance -> option Error
}.

(** A call ends with a panic (an index out of range) or returns what it
    did and its result. *)
Definition Out (A : Type) : Type := Service.Result (list Event * A).

Definition downloadFromReleases (w : World) (dest repo : string) : Out (option Error) :=
  let split := Split SLASH repo in
  match split !! 1%nat, split !! 2%nat with
  | Some owner, Some repository =>
      Service.Return ([DoRelease owner repository dest],
                      DownloadLatestGithubRelease w owner repository dest)
  | _, _ => Service.Panic
  end.

Definition downloadFromGit (w : World) (path repo : string) : Out (option Error) :=
  match SplitN2 COLON repo !! 1%nat with
  | Some url => Service.Return ([DoClone path url], PlainClone w path url)
  | None => Service.Panic
  end.

(** [errors.Is(err, storage.ErrNoReleasesPublished)] *)
Definition is_no_releases (err : option Error) : bool :=
  match err with Some ErrNoReleasesPublished => true | _ => false end.

Definition download (w : World) (dest repo : string) (forceClone : bool)
  : Out (option Error) :=
  let first : Out (option Error) :=
    if forceClone then Service.Return ([Log "force-clone enabled."], None)
    else
      match downloadFromReleases w dest repo with
      | Service.Panic => Service.Panic
      | Service.Return (tr, err) =>
          Service.Return
            (Log "force-clone disabled. try to download the releases first" :: tr, err)
      end in
  match first with
  | Service.Panic => Service.Panic
  | Service.Return (tr, err) =>
      if forceClone || is_no_releases err then
        match Split COLON repo !! 1%nat with
        | None => Service.Panic
        | Some x =>
            match downloadFromGit w dest ("git:https://" +:+ x) with
            | Service.Panic => Service.Panic
            | Service.Return (tr', err') => Service.Return (tr ++ tr', err')
            end
        end
      else Service.Return (tr, err)
  end.

Definition symlink (w : World) (path repo : string) : Out (option Error) :=
  match Split COLON repo !! 1%nat with
  | None => Service.Panic
  | Some p =>
      if ReadFromDisk w p then Service.Return ([DoSymlink p path], Symlink w p path)
      else Service.Return ([], Some (ErrNotCompatible repo))
  end.

(** The catalog [instances.all]. *)
Definition Catalog : Type := gmap UUID Service.Instance.

Definition Exists (all : Catalog) (u : UUID) : bool := bool_decide (is_Some (all !! u)).

(** [Instantiate]: [Add] stores the instance and tells the listeners; the
    observer registered on the new instance is not part of this model. *)
Definition Instantiate (w : World) (all : Catalog) (u : UUID)
  : Catalog * list Event * (Error + Service.Instance) :=
  if Exists all u then (all, [], inl (ErrAlreadyRunning u))
  else
    match CreateFromDisk w u with
    | inl e => (all, [], inl e)
    | inr i => (<[u := i]> all, [Notify], inr i)
    end.

Definition forceClone (useDocker useReleases : option bool) : bool :=
  match useDocker with Some b => b | None => false end
  || match useReleases with None => true | Some b => negb b end.

(** [Install]; [serviceUUID] is the identifier drawn by [uuid.New].  The
    catalog holds pointers, so the flags set after [Instantiate] are those
    of the stored instance too. *)
Definition Install (w : World) (all : Catalog) (serviceUUID : UUID) (repo : string)
    (useDocker useReleases : option bool)
  : Service.Result (Catalog * list Event * (Error + Service.Instance)) :=
  let basePath := Join w [PathInstances w; uuid_String serviceUUID] in
  let force := forceClone useDocker useReleases in
  let fetched : option (Out (option Error)) :=
    if String.prefix "marketplace:" repo then Some (download w basePath repo force)
    else if String.prefix "localstorage:" repo then Some (symlink w basePath repo)
    else if String.prefix "git:" repo then Some (download w basePath repo force)
    else None in
  match fetched with
  | None => Service.Return (all, [], inl ErrProtocol)
  | Some Service.Panic => Service.Panic
  | Some (Service.Return (tr, Some e)) => Service.Return (all, tr, inl e)
  | Some (Service.Return (tr, None)) =>
      match Instantiate w all serviceUUID with
      | (all1, tr1, inl e) => Service.Return (all1, tr ++ tr1, inl e)
      | (all1, tr1, inr i) =>
          let i' :=
            Service.mkInstance (Service.native i)
              (default (Service.UseDocker i) useDocker)
              (default (Service.UseReleases i) useReleases) in
          Service.Return
            (<[serviceUUID := i']> all1, tr ++ tr1 ++ [DoWriteMetadata i'],
             match WriteMetadata w i' with
             | Some e => inl e
             | None => inr i'
             end)
      end
  end.

Definition is_DoRelease (ev : Event) : bool :=
  match ev with DoRelease _ _ _ => true | _ => false end.

Definition is_DoClone (ev : Event) : bool :=
  match ev with DoClone _ _ => true | _ => false end.

(** Sample: releases are not published, cloning works, the disk holds a
    service, the metadata cannot be written. *)
Definition sample_world : World :=
  mkWorld "live/instances" slash_join
          (fun _ _ _ => Some ErrNoReleasesPublished)
          (fun _ _ => None)
          (fun _ => true)
          (fun _ _ => None)
          (fun u => inr (Service.mkInstance
                           (Native.mkInstance u "redis" "Redis" Native.StatusOff None)
                           false false))
          (fun _ => Some (ErrOther "read-only file system")).

End Installer.

(** ** ContainerServiceService.CheckForUpdate *)
Module ManifestCheck.

#[global] Instance Service_eq_dec : EqDecision Manifest.Service.
Proof. solve_decision. Defined.

(** [CheckForUpdate] stores its answer in [inst.ServiceUpdate.Available],
    which is what this function returns; [reflect.DeepEqual] compares the
    two documents field by field. *)
Definition CheckForUpdate (inst : Manifest.Container) (latest : Manifest.Service) : bool :=
  let current := Manifest.Service_ inst in
  let upToDate := bool_decide (latest = current) in
  negb upToDate.

End ManifestCheck.

(** ** The setters of the instance settings service
    (apps/instances/service/instance_settings.go) *)
Module SettingsSetters.

Inductive Event :=
| Saved (u : UUID) (settings : Settings.InstanceSettings).  (* s.adapter.Save was called *)

Definition with_settings (inst : Settings.Instance) (s : Settings.InstanceSettings)
  : Settings.Instance :=
  Settings.mkInstance (Settings.InstanceUUID inst) (Settings.Service_Name inst) s.

(** [s.adapter.Save(inst.UUID, inst.InstanceSettings)], the last line of
    every setter. *)
Definition save (adapter : Settings.InstanceSettingsAdapterPort) (inst : Settings.Instance)
  : Settings.Instance * list Event * option Settings.Error :=
  (inst,
   [Saved (Settings.InstanceUUID inst) (Settings.InstanceSettings_ inst)],
   Settings.adapter_Save adapter (Settings.InstanceUUID inst) (Settings.InstanceSettings_ inst)).

Definition Save (adapter : Settings.InstanceSettingsAdapterPort) (inst : Settings.Instance)
    (settings : Settings.InstanceSettings) :=
  save adapter (with_settings inst settings).

Definition SetLaunchOnStartup (adapter : Settings.InstanceSettingsAdapterPort)
    (inst : Settings.Instance) (value : bool) :=
  let s := Settings.InstanceSettings_ inst in
  save adapter
    (with_settings inst
       (Settings.mkSettings (Settings.DisplayName s) (Some value)
          (Settings.Version s) (Settings.Tags s))).

Definition SetDisplayName (adapter : Settings.InstanceSettingsAdapterPort)
    (inst : Settings.Instance) (value : string) :=
  save adapter
    (with_settings inst (Settings.set_DisplayName (Settings.InstanceSettings_ inst) value)).

Definition SetVersion (adapter : Settings.InstanceSettingsAdapterPort)
    (inst : Settings.Instance) (value : string) :=
  let s := Settings.InstanceSettings_ inst in
  save adapter
    (with_settings inst
       (Settings.mkSettings (Settings.DisplayName s) (Settings.LaunchOnStartup s)
          (Some value) (Settings.Tags s))).

Definition SetTags (adapter : Settings.InstanceSettingsAdapterPort)
    (inst : Settings.Instance) (tags : list string) :=
  let s := Settings.InstanceSettings_ inst in
  save adapter
    (with_settings inst
       (Settings.mkSettings (Settings.DisplayName s) (Settings.LaunchOnStartup s)
          (Settings.Version s) tags)).

(** The setters, as one type of requests. *)
Inductive Setter :=
| LaunchOnStartup (value : bool)
| DisplayName (value : string)
| Version (value : string)
| Tags (tags : list string).

Definition apply (adapter : Settings.InstanceSettingsAdapterPort)
    (inst : Settings.Instance) (op : Setter) :=
  match op with
  | LaunchOnStartup v => SetLaunchOnStartup adapter inst v
  | DisplayName v => SetDisplayName adapter inst v
  | Version v => SetVersion adapter inst v
  | Tags v => SetTags adapter inst v
  end.


End SettingsSetters.

(** * Proofs *)

(** * Facts about byte strings *)

Lemma append_nil (b : string) : "" +:+ b = b.
Proof. reflexivity. Qed.

Lemma append_cons x (a b : string) : String x a +:+ b = String x (a +:+ b).
Proof. reflexivity. Qed.

Ltac sapp := rewrite ?append_cons, ?append_nil.

Lemma append_assoc_s (a b c : string) : (a +:+ b) +:+ c = a +:+ (b +:+ c).
Proof. induction a as [|x a IH]; sapp; [done | by rewrite IH]. Qed.

Lemma append_empty_r (a : string) : a +:+ "" = a.
Proof. induction a as [|x a IH]; sapp; [done | by rewrite IH]. Qed.

Lemma length_append_s (a b : string) :
  String.length (a +:+ b) = String.length a + String.length b.
Proof. induction a as [|x a IH]; sapp; simpl; [done | by rewrite IH]. Qed.

Lemma skip_empty n : skip n "" = "".
Proof. by destruct n. Qed.

Lemma skip_add n m s : skip (n + m) s = skip m (skip n s).
Proof.
  revert s; induction n as [|n IH]; intros s; simpl; [done|].
  destruct s; [by rewrite skip_empty | apply IH].
Qed.

Lemma skip_beyond n s : String.length s ≤ n → skip n s = "".
Proof.
  revert s; induction n as [|n IH]; intros [|a s] Hn; simpl in *; try done; try lia.
  apply IH; lia.
Qed.

Lemma has_append c a b : has c (a +:+ b) = has c a || has c b.
Proof.
  induction a as [|x a IH]; sapp; simpl; [done | by destruct (Ascii.eqb x c)].
Qed.

Lemma last_byte_cons x s :
  last_byte (String x s) = Some (default x (last_byte s)).
Proof.
  revert x; induction s as [|y s IH]; intros x; [done|].
  change (last_byte (String x (String y s))) with (last_byte (String y s)).
  by rewrite IH.
Qed.

Lemma last_byte_append a x b :
  last_byte (a +:+ String x b) = Some (default x (last_byte b)).
Proof.
  induction a as [|y a IH]; sapp; [apply last_byte_cons|].
  rewrite last_byte_cons, IH. done.
Qed.

Lemma Split_plain s : has EQS s = false → Split EQS s = [s].
Proof.
  induction s as [|x s IH]; simpl; [done|].
  destruct (Ascii.eqb x EQS); [done|]. intros H. by rewrite IH.
Qed.

Lemma Split_key_value k v :
  has EQS k = false → has EQS v = false →
  Split EQS (k +:+ String EQS v) = [k; v].
Proof.
  intros Hk Hv. induction k as [|x k IH]; sapp; simpl in *.
  - by rewrite Split_plain.
  - destruct (Ascii.eqb x EQS); [done|]. by rewrite IH.
Qed.

(** * The scanner on well-formed lines *)

Lemma dropCR_id s : last_byte s ≠ Some CR → Scanner.dropCR s = s.
Proof.
  induction s as [|x s IH]; [done|].
  destruct s as [|y s].
  - simpl. destruct (Ascii.eqb_spec x CR); [by intros []; subst | done].
  - intros H. change (Scanner.dropCR (String x (String y s)))
      with (String x (Scanner.dropCR (String y s))).
    rewrite IH; [done|]. exact H.
Qed.

Lemma raw_lines_line l rest :
  has LF l = false →
  Scanner.raw_lines (l +:+ String LF rest) = l :: Scanner.raw_lines rest.
Proof.
  induction l as [|x l IH]; sapp; simpl.
  - done.
  - destruct (Ascii.eqb x LF); [done|]. intros H. by rewrite IH.
Qed.

(** * SaveEnv then LoadEnv *)
Section EnvRoundTrip.
Import Env.

Lemma env_line_text kv rest :
  env_line kv +:+ rest = line_text kv +:+ String LF rest.
Proof.
  unfold env_line, line_text.
  rewrite !append_assoc_s. sapp. rewrite !append_assoc_s. by sapp.
Qed.

Lemma write_all order h :
  foldl (fun h kv => WriteString h (env_line kv)) h order
  = mkHandle (before h +:+ written order)
             (skip (String.length (written order)) (after h)).
Proof.
  revert h; induction order as [|kv rest IH]; intros [b a]; simpl.
  - by rewrite append_empty_r.
  - rewrite IH. simpl. unfold WriteString; simpl.
    by rewrite append_assoc_s, length_append_s, skip_add.
Qed.

(** The file after [SaveEnv]: the new lines, then whatever the old
    content held beyond them. *)
Lemma SaveEnv_file order i m f h :
  OpenFile f = Some h →
  SaveEnv order i m f
  = (mkInstance (InstanceUUID i) m,
     Data (written order +:+ skip (String.length (written order)) (after h)),
     None).
Proof.
  intros Hopen. unfold SaveEnv. rewrite Hopen, write_all.
  destruct f; simplify_eq/=; done.
Qed.

Lemma plain_inv s : plain s = true → has EQS s = false ∧ has LF s = false.
Proof.
  unfold plain. intros [H1 H2]%andb_prop.
  by apply negb_true_iff in H1, H2.
Qed.

Lemma line_text_no_LF kv : well_formed kv → has LF (line_text kv) = false.
Proof.
  intros (H1 & H2 & _). apply plain_inv in H1 as [_ H1], H2 as [_ H2].
  unfold line_text. rewrite has_append. simpl. by rewrite H1, H2.
Qed.

Lemma raw_lines_written order :
  Forall well_formed order →
  Scanner.raw_lines (written order) = line_text <$> order.
Proof.
  induction 1 as [|kv rest Hkv _ IH]; [done|].
  simpl. rewrite env_line_text, raw_lines_line by by apply line_text_no_LF.
  by rewrite IH.
Qed.

Lemma token_line_text kv :
  well_formed kv →
  Scanner.fits (line_text kv) = true ∧ Scanner.dropCR (line_text kv) = line_text kv.
Proof.
  intros (_ & _ & [Hcr Hfit]%andb_prop). split; [exact Hfit|].
  apply dropCR_id. unfold line_text. rewrite last_byte_append.
  apply negb_true_iff, bool_decide_eq_false in Hcr.
  destruct (last_byte kv.2) as [c|]; [exact Hcr|]. simpl. by intros [= ?].
Qed.

Lemma Scan_written order :
  Forall well_formed order →
  Scanner.Scan (written order) = line_text <$> order.
Proof.
  intros Hwf. unfold Scanner.Scan. rewrite raw_lines_written by done.
  induction Hwf as [|kv rest Hkv _ IH]; [done|].
  destruct (token_line_text kv Hkv) as [Hfit Hcr].
  rewrite fmap_cons. cbn [Scanner.tokens_of]. by rewrite Hfit, Hcr, IH.
Qed.

Lemma load_lines_written order entries :
  Forall well_formed order →
  load_lines (line_text <$> order) entries = (assign entries order, None).
Proof.
  intros Hwf; revert entries.
  induction Hwf as [|kv rest (Hk & Hv & _) _ IH]; intros entries; [done|].
  apply plain_inv in Hk as [Hk _], Hv as [Hv _].
  rewrite fmap_cons. cbn [load_lines]. unfold line_text at 1.
  rewrite Split_key_value by done. apply IH.
Qed.

Lemma assign_within (m entries : gmap string string) order :
  entries ⊆ m →
  (∀ kv, kv ∈ order → m !! kv.1 = Some kv.2) →
  assign entries order ⊆ m
  ∧ ∀ k, (k ∈ order.*1 ∨ is_Some (entries !! k)) → is_Some (assign entries order !! k).
Proof.
  revert entries; induction order as [|[k v] rest IH]; intros entries Hsub Hm.
  - split; [done|]. intros k [H|H]; [by apply elem_of_nil in H | done].
  - simpl. destruct (IH (<[k:=v]> entries)) as [IH1 IH2].
    + apply insert_subseteq_l; [|done]. apply (Hm (k, v)). left.
    + intros kv Hkv. apply Hm. by right.
    + split; [done|]. intros k' Hk'. apply IH2.
      destruct (decide (k' = k)) as [->|Hne].
      * right. rewrite lookup_insert_eq. eauto.
      * destruct Hk' as [Hk'|Hk'].
        -- left. simpl in Hk'. apply elem_of_cons in Hk' as [?|?]; done.
        -- right. by rewrite lookup_insert_ne.
Qed.

Lemma assign_all (m entries : gmap string string) order :
  order ≡ₚ map_to_list m → entries ⊆ m → assign entries order = m.
Proof.
  intros Hperm Hsub.
  destruct (assign_within m entries order Hsub) as [H1 H2].
  { intros [k v] Hkv. rewrite Hperm in Hkv. by apply elem_of_map_to_list in Hkv. }
  apply map_eq. intros k.
  destruct (m !! k) as [v|] eqn:Hk.
  - destruct (H2 k) as [v' Hv'].
    + left. apply list_elem_of_fmap. exists (k, v). split; [done|].
      rewrite Hperm. by apply elem_of_map_to_list.
    + rewrite Hv'. eapply lookup_weaken in Hv'; [|exact H1]. congruence.
  - eapply lookup_weaken_None; [exact Hk | exact H1].
Qed.

End EnvRoundTrip.

Section EnvStore.
Import Env.

(** A file that held A=0 and B=2 still holds the line B=2 after [SaveEnv]
    of the map with the single entry A=1, and [LoadEnv] reads both entries
    back, into the same instance as into a fresh one: the file is opened
    without being emptied. *)
Lemma Env_roundtrip_fails_on_old_content :
  let m : gmap string string := {["A" := "1"]} in
  let fresh := mkInstance 0 ∅ in
  (plain "A" && plain "1" = true)
  ∧ SaveEnv [("A", "1")] fresh m (Data stale) = (mkInstance 0 m, Data mixed, None)
  ∧ LoadEnv (mkInstance 0 m) (Data mixed) = (mkInstance 0 (<["B" := "2"]> m), None)
  ∧ LoadEnv fresh (Data mixed) = (mkInstance 0 (<["B" := "2"]> m), None)
  ∧ <["B" := "2"]> m ≠ m.
Proof.
  cbv zeta. split_and!; try (vm_compute; reflexivity).
  intros H. apply (f_equal (fun x : gmap string string => x !! "B")) in H.
  vm_compute in H. discriminate.
Qed.

(** C2 (amended). For a map whose keys and values hold no ['='] and no
    line feed, whose values do not end in a carriage return and whose lines
    fit the scanner's buffer, [SaveEnv] into an absent or empty file
    followed by [LoadEnv] yields exactly that map: on the instance that was
    saved, and on any instance whose entries are among the map's (a fresh
    one in particular), whatever order the map was ranged over in. *)
Theorem Env_roundtrip_on_new_file (m : gmap string string) order (i j : Instance) f :
  order ≡ₚ map_to_list m →
  (∀ k v, m !! k = Some v → well_formed (k, v)) →
  f = NotExist ∨ f = Data "" →
  Entries j ⊆ m →
  ∃ f',
    SaveEnv order i m f = (mkInstance (InstanceUUID i) m, f', None)
    ∧ LoadEnv (mkInstance (InstanceUUID i) m) f' = (mkInstance (InstanceUUID i) m, None)
    ∧ LoadEnv j f' = (mkInstance (InstanceUUID j) m, None).
Proof.
  intros Hperm Hwf Hf Hj.
  assert (Forall well_formed order) as Hall.
  { apply Forall_forall. intros [k v] Hkv. apply Hwf.
    rewrite Hperm in Hkv. by apply elem_of_map_to_list in Hkv. }
  assert (∃ h, OpenFile f = Some h ∧ after h = "") as (h & Hopen & Hafter).
  { destruct Hf as [-> | ->]; eexists; split; reflexivity. }
  exists (Data (written order)). split_and!.
  - rewrite (SaveEnv_file _ _ _ _ h Hopen), Hafter, skip_empty.
    by rewrite append_empty_r.
  - unfold LoadEnv. rewrite Scan_written, load_lines_written by done.
    simpl. by rewrite (assign_all m).
  - unfold LoadEnv. rewrite Scan_written, load_lines_written by done.
    by rewrite (assign_all m).
Qed.

Lemma Env_roundtrip_on_new_file_witness :
  let m : gmap string string := {["PORT" := "8080"]} in
  ∃ f',
    SaveEnv [("PORT", "8080")] (mkInstance 7 ∅) m NotExist = (mkInstance 7 m, f', None)
    ∧ LoadEnv (mkInstance 7 m) f' = (mkInstance 7 m, None)
    ∧ LoadEnv (mkInstance 7 ∅) f' = (mkInstance 7 m, None).
Proof.
  apply (Env_roundtrip_on_new_file {["PORT" := "8080"]} [("PORT", "8080")]
           (mkInstance 7 ∅) (mkInstance 7 ∅) NotExist).
  - by rewrite map_to_list_singleton.
  - intros k v [<- <-]%lookup_singleton_Some. vm_compute. done.
  - by left.
  - apply map_empty_subseteq.
Defined.

(** The round trip fails on a map the specification allows, into a file that did
    not exist, by the way [LoadEnv] reads lines: a value of 65534 bytes
    under the key K makes a line of 65536 bytes, the scan ends there
    without an error, and the entry is not read back. *)
Lemma Env_long_line_is_not_read_back :
  let m : gmap string string := {["K" := long_value]} in
  plain "K" && plain long_value = true
  ∧ ∃ f', SaveEnv [("K", long_value)] (mkInstance 0 ∅) m NotExist
          = (mkInstance 0 m, f', None)
        ∧ LoadEnv (mkInstance 0 ∅) f' = (mkInstance 0 ∅, None)
        ∧ (∅ : gmap string string) ≠ m.
Proof.
  cbv zeta. split; [vm_compute; reflexivity|].
  eexists. split; [reflexivity|]. split; [vm_compute; reflexivity|].
  intros H. apply (f_equal (fun x : gmap string string => x !! "K")) in H.
  rewrite lookup_empty, lookup_singleton_eq in H. discriminate.
Qed.

(** A value that ends in a carriage return comes back without it. *)
Example Env_value_loses_trailing_CR :
  let m : gmap string string := {["K" := String "v" (String CR "")]} in
  ∃ f', SaveEnv (map_to_list m) (mkInstance 0 ∅) m NotExist
          = (mkInstance 0 m, f', None)
        ∧ LoadEnv (mkInstance 0 ∅) f' = (mkInstance 0 {["K" := "v"]}, None).
Proof. eexists. split; vm_compute; reflexivity. Qed.

End EnvStore.

(** * The registry *)
Section RegistryFacts.
Import Registry.
Implicit Types (r : InstanceFSRepository) (q : gmap Chan (list InstanceEvent)).

Lemma queue_send_eq ev q c : queue c (send ev q c) = queue c q ++ [ev].
Proof. unfold send, queue at 1. by rewrite lookup_insert_eq. Qed.

Lemma queue_send_ne ev q c c' : c ≠ c' → queue c' (send ev q c) = queue c' q.
Proof. intros H. unfold send, queue at 1. by rewrite lookup_insert_ne. Qed.

Lemma queue_send_all ev cs : ∀ q c,
  queue c (foldl (send ev) q cs)
  = queue c q ++ replicate (length (filter (fun x => x = c) cs)) ev.
Proof.
  induction cs as [|c0 cs IH]; intros q c; simpl.
  - by rewrite app_nil_r.
  - rewrite IH. destruct (decide (c0 = c)) as [->|Hne].
    + rewrite filter_cons_True by done. simpl.
      by rewrite queue_send_eq, <- app_assoc.
    + rewrite filter_cons_False by done. by rewrite queue_send_ne.
Qed.

Lemma subscribed_registered r id c :
  listeners r !! id = Some c → 0 < registrations c r.
Proof.
  intros H. unfold registrations, subscribers.
  assert (c ∈ filter (fun x => x = c) (map_to_list (listeners r)).*2) as Hin.
  { apply list_elem_of_filter. split; [done|].
    apply list_elem_of_fmap. exists (id, c). split; [done|].
    by apply elem_of_map_to_list. }
  destruct (filter _ _); [by apply elem_of_nil in Hin | simpl; lia].
Qed.

Lemma notify_published r m :
  published r (notifyListeners (mkEvent EventChange) (set_instances r m)).
Proof.
  split; [done|]. intros id c Hc. split; [by eapply subscribed_registered|].
  simpl. apply queue_send_all.
Qed.

Lemma Exists_spec u r : Exists u r = true ↔ is_Some (instances r !! u).
Proof. unfold Exists. apply bool_decide_eq_true. Qed.

Lemma Set_present u instance r :
  is_Some (instances r !! u) → Set_ u instance r = (r, Some (ErrAlreadyExists u)).
Proof. intros H%Exists_spec. unfold Set_. by rewrite H. Qed.

Lemma Set_absent u instance r :
  instances r !! u = None →
  ∃ r', Set_ u instance r = (r', None)
        ∧ instances r' = <[u := Register (observer r) instance]> (instances r)
        ∧ published r r'.
Proof.
  intros H. unfold Set_.
  destruct (Exists u r) eqn:E.
  { apply Exists_spec in E as [? E]. congruence. }
  eexists; split; [reflexivity|]. split.
  - simpl. by rewrite insert_insert_eq.
  - apply (notify_published r (<[u:=instance]> (instances r))).
Qed.

Lemma Set_ok_inv u instance r r' :
  Set_ u instance r = (r', None) → instances r !! u = None.
Proof.
  unfold Set_. destruct (Exists u r) eqn:E; [done|]. intros _.
  destruct (instances r !! u) eqn:Hu; [|done].
  assert (Exists u r = true) by (apply Exists_spec; eauto). congruence.
Qed.

Lemma Set_fail_same u instance r r' e :
  Set_ u instance r = (r', Some e) → r' = r.
Proof. unfold Set_. destruct (Exists u r); congruence. Qed.

Lemma Load_fail_same w u r : ∀ e, (Load w u r).2 = inl e → (Load w u r).1 = r.
Proof.
  intros e. unfold Load.
  destruct (ReadService w u); [done|].
  destruct (NewInstance w u _); [|done].
  destruct (LoadMetadata w _) as [|i']; [done|].
  destruct (Set_ u i' r) as [r' [e'|]] eqn:HS; [|done].
  intros _. simpl. by eapply Set_fail_same.
Qed.

Lemma scan_app w pre post r r1 :
  scan w pre r = Done r1 → scan w (pre ++ post) r = scan w post r1.
Proof.
  revert r; induction pre as [|entry pre IH]; intros r; simpl.
  - by intros [= ->].
  - destruct (scan_entry w entry r); [done|]. apply IH.
Qed.

Lemma scan_entry_fails w entry r e :
  entry_fails w entry r e → scan_entry w entry r = Fatal e r.
Proof.
  unfold scan_entry.
  intros [[-> ->] | (symlink & -> & -> & [[-> ->] | (id & -> & HL)])]; try done.
  pose proof (Load_fail_same w id r e HL) as Hr.
  destruct (Load w id r) as [r' [e'|i]]; simpl in *; congruence.
Qed.

End RegistryFacts.

(** C9. [Set] on an identifier that is present answers "already exists"
    and changes nothing; on an absent one it stores the instance; and every
    [Set] or [Delete] that succeeds sends the change event on every
    subscribed channel. *)
Theorem Registry_Set_rejects_duplicates_and_changes_are_published
    (w : Registry.World) (u : UUID) (instance : Registry.Instance)
    (r : Registry.InstanceFSRepository) :
  (is_Some (Registry.instances r !! u) →
     Registry.Set_ u instance r = (r, Some (Registry.ErrAlreadyExists u)))
  ∧ (Registry.instances r !! u = None →
     ∃ r', Registry.Set_ u instance r = (r', None))
  ∧ (∀ r', Registry.Set_ u instance r = (r', None) →
       Registry.instances r' !! u
         = Some (Registry.Register (Registry.observer r) instance)
       ∧ Registry.published r r')
  ∧ (∀ r', Registry.Delete w u r = (r', None) →
       Registry.instances r' = delete u (Registry.instances r)
       ∧ Registry.published r r').
Proof.
  split_and!.
  - apply Set_present.
  - intros H. destruct (Set_absent u instance r H) as (r' & Hr' & _). eauto.
  - intros r' HS. pose proof (Set_ok_inv _ _ _ _ HS) as Hu.
    destruct (Set_absent u instance r Hu) as (r'' & Hr'' & Hi & Hp).
    rewrite HS in Hr''. injection Hr'' as <-. split; [|done].
    by rewrite Hi, lookup_insert_eq.
  - intros r'. unfold Registry.Delete.
    destruct (Registry.RemoveAll w u); [|done]. intros [= <-].
    split; [done|]. apply notify_published.
Qed.

Lemma Registry_Set_rejects_duplicates_and_changes_are_published_witness :
  let r := Registry.mkRepo {[ 1%N := Registry.mkInstance 1 "svc" "" [] ]}
                           {[ 5%N := 9%N ]} 0%N ∅ in
  let w := Registry.sample_world [] in
  Registry.Set_ 1 (Registry.mkInstance 1 "new" "" []) r
    = (r, Some (Registry.ErrAlreadyExists 1))
  ∧ (∃ r', Registry.Set_ 2 (Registry.mkInstance 2 "new" "" []) r = (r', None)
           ∧ Registry.published r r')
  ∧ (∃ r', Registry.Delete w 1 r = (r', None) ∧ Registry.published r r').
Proof.
  cbv zeta.
  pose proof (Registry_Set_rejects_duplicates_and_changes_are_published
    (Registry.sample_world []) 1%N (Registry.mkInstance 1 "new" "" [])
    (Registry.mkRepo {[ 1%N := Registry.mkInstance 1 "svc" "" [] ]}
                     {[ 5%N := 9%N ]} 0%N ∅)) as (H1 & _ & _ & H4).
  pose proof (Registry_Set_rejects_duplicates_and_changes_are_published
    (Registry.sample_world []) 2%N (Registry.mkInstance 2 "new" "" [])
    (Registry.mkRepo {[ 1%N := Registry.mkInstance 1 "svc" "" [] ]}
                     {[ 5%N := 9%N ]} 0%N ∅)) as (_ & H2 & H3 & _).
  split_and!.
  - apply H1. vm_compute. eauto.
  - destruct H2 as [r' Hr']; [vm_compute; reflexivity|].
    exists r'. split; [exact Hr'|]. apply (H3 r' Hr').
  - eexists. split; [reflexivity|]. apply H4. reflexivity.
Defined.

(** The startup scan stops at a directory whose name is not a UUID, and
    the container after it is never loaded, although the scan of that
    container alone succeeds.  The listing is one [os.ReadDir] can
    answer: .cache sorts before the container's name. *)
Lemma Registry_reload_does_not_skip_bad_entry :
  Registry.sorted_by_name [Registry.hidden; Registry.good] = true
  ∧ Registry.reload (Registry.sample_world [Registry.hidden; Registry.good])
                    Registry.empty_repo
    = Registry.Fatal (Registry.ErrParse ".cache") Registry.empty_repo
  ∧ ∃ r', Registry.reload (Registry.sample_world [Registry.good])
                          Registry.empty_repo = Registry.Done r'
          ∧ Registry.Exists 1 r' = true.
Proof.
  split; [reflexivity|]. split; [reflexivity|]. eexists. split; reflexivity.
Qed.

(** C3 (amended). The scan ends the process when the storage root cannot
    be read, and also at the first entry whose [Info] fails, or which is a
    directory or symlink whose name is not a UUID or whose [Load] fails:
    the entries after it are not visited and the catalog stays as the
    entries before it left it.  Only entries that are neither directories
    nor symlinks are passed over. *)
Theorem Registry_reload_stops_at_first_failure
    (w : Registry.World) (r r1 : Registry.InstanceFSRepository)
    (pre post : list Registry.DirEntry) (entry : Registry.DirEntry)
    (e : Registry.Error) :
  (Registry.ReadDir w = None →
     Registry.reload w r = Registry.Fatal Registry.ErrReadDir r)
  ∧ (Registry.ReadDir w = Some (pre ++ entry :: post) →
     Registry.scan w pre r = Registry.Done r1 →
     Registry.entry_fails w entry r1 e →
     Registry.reload w r = Registry.Fatal e r1)
  ∧ (Registry.ReadDir w = Some (pre ++ entry :: post) →
     Registry.scan w pre r = Registry.Done r1 →
     Registry.Info entry = Some false → Registry.IsDir entry = false →
     Registry.reload w r = Registry.scan w post r1).
Proof.
  unfold Registry.reload. split_and!.
  - by intros ->.
  - intros -> Hpre Hfail. rewrite (scan_app _ _ _ _ _ Hpre). simpl.
    by rewrite (scan_entry_fails _ _ _ _ Hfail).
  - intros -> Hpre Hinfo Hdir. rewrite (scan_app _ _ _ _ _ Hpre). simpl.
    unfold Registry.scan_entry, Registry.isInstance. by rewrite Hinfo, Hdir.
Qed.

Lemma Registry_reload_stops_at_first_failure_witness :
  Registry.sorted_by_name [Registry.hidden; Registry.good; Registry.stray] = true
  ∧ Registry.reload (Registry.sample_world [Registry.good; Registry.stray])
                    Registry.empty_repo
    = Registry.Fatal (Registry.ErrParse "lost+found")
        (Registry.set_instances
           (Registry.empty_repo)
           {[ 1%N := Registry.mkInstance 1 "{}" "" [0%N] ]}).
Proof.
  split; [reflexivity|].
  refine (proj1 (proj2 (Registry_reload_stops_at_first_failure
    (Registry.sample_world [Registry.good; Registry.stray])
    Registry.empty_repo _ [Registry.good] [] Registry.stray _)) _ _ _).
  - reflexivity.
  - reflexivity.
  - right. exists false. split; [reflexivity|]. split; [reflexivity|].
    left. split; reflexivity.
Defined.

(** * The redirect store *)
Section ProxyFacts.
Import Proxy.
Implicit Types (a : ProxyFSAdapter) (m : gmap UUID ProxyRedirect).

Lemma write_redirects res a : redirects (write res a).1 = redirects a.
Proof. by destruct res. Qed.

Lemma AddRedirect_redirects ok id redirect a :
  redirects (AddRedirect ok id redirect a).1 = <[id := redirect]> (redirects a).
Proof. unfold AddRedirect. by rewrite write_redirects. Qed.

Lemma RemoveRedirect_redirects ok id a :
  redirects (RemoveRedirect ok id a).1 = delete id (redirects a).
Proof. unfold RemoveRedirect. by rewrite write_redirects. Qed.

Lemma insert_keeps_unique m id redirect :
  sources_unique m → source_free m id redirect →
  sources_unique (<[id := redirect]> m).
Proof.
  intros Hu Hfree i j ri rj Hi Hj Hs.
  destruct (decide (i = id)) as [->|Hi'], (decide (j = id)) as [->|Hj'];
    simplify_map_eq; eauto.
  symmetry. eauto.
Qed.

Lemma delete_keeps_unique m id : sources_unique m → sources_unique (delete id m).
Proof.
  intros Hu i j ri rj Hi Hj Hs.
  apply lookup_delete_Some in Hi as [_ Hi], Hj as [_ Hj]. eauto.
Qed.

Lemma insert_unique_free m id redirect :
  sources_unique (<[id := redirect]> m) → source_free m id redirect.
Proof.
  intros Hu j rj Hj Hs. destruct (decide (j = id)) as [|Hne]; [done|].
  apply (Hu j id rj redirect); [|apply lookup_insert_eq|done].
  by rewrite lookup_insert_ne.
Qed.

Lemma step_keeps_unique a op :
  sources_unique (redirects a) → guarded a [op] →
  sources_unique (redirects (step a op)).
Proof.
  intros Hu [Hg _]. destruct op as [ok id r|ok id]; simpl.
  - rewrite AddRedirect_redirects. by apply insert_keeps_unique.
  - rewrite RemoveRedirect_redirects. by apply delete_keeps_unique.
Qed.

Lemma step_snoc_one op a :
  redirects (run [op] a) = redirects (step a op).
Proof. reflexivity. Qed.

Lemma run_keeps_unique ops : ∀ a,
  sources_unique (redirects a) → guarded a ops →
  sources_unique (redirects (run ops a)).
Proof.
  induction ops as [|op ops IH]; intros a Hu Hg; [done|].
  destruct Hg as [Hop Hrest]. apply IH; [|done].
  apply step_keeps_unique; [done|]. by split.
Qed.

End ProxyFacts.

(** Two redirects added under different identifiers with the same source
    host are both kept. *)
Lemma Proxy_two_redirects_share_a_source :
  let a := Proxy.run [Proxy.Add Proxy.Written 1
                        (Proxy.mkRedirect "app.local" "http://127.0.0.1:8080");
                      Proxy.Add Proxy.Written 2
                        (Proxy.mkRedirect "app.local" "http://127.0.0.1:9090")]
                     Proxy.empty_adapter in
  Proxy.redirects a !! 1%N = Some (Proxy.mkRedirect "app.local" "http://127.0.0.1:8080")
  ∧ Proxy.redirects a !! 2%N = Some (Proxy.mkRedirect "app.local" "http://127.0.0.1:9090")
  ∧ Proxy.disk a = Proxy.Holds (Proxy.redirects a)
  ∧ ¬ Proxy.sources_unique (Proxy.redirects a).
Proof.
  cbv zeta. split_and!; try reflexivity.
  intros H.
  specialize (H 1%N 2%N _ _ eq_refl eq_refl eq_refl). discriminate.
Qed.

(** C4 (amended). The store keeps one redirect per identifier:
    [AddRedirect] puts the redirect under its identifier, replacing what
    that identifier held, and leaves every other identifier alone whatever
    its source.  On a store whose sources are pairwise distinct,
    [AddRedirect] keeps them distinct exactly when no other identifier
    holds the source of the new redirect, and [RemoveRedirect] always
    keeps them distinct; so the sources stay distinct over a run in which
    each added source is held by no other identifier when it is added. *)
Theorem Proxy_redirects_unique_per_identifier
    (res : Proxy.WriteResult) (id : UUID) (redirect : Proxy.ProxyRedirect)
    (a : Proxy.ProxyFSAdapter) (ops : list Proxy.Op) :
  let a' := (Proxy.AddRedirect res id redirect a).1 in
  Proxy.redirects a' !! id = Some redirect
  ∧ (∀ j, j ≠ id → Proxy.redirects a' !! j = Proxy.redirects a !! j)
  ∧ (Proxy.sources_unique (Proxy.redirects a) →
     (Proxy.sources_unique (Proxy.redirects a')
      ↔ Proxy.source_free (Proxy.redirects a) id redirect))
  ∧ (Proxy.sources_unique (Proxy.redirects a) →
     Proxy.sources_unique (Proxy.redirects (Proxy.RemoveRedirect res id a).1))
  ∧ (Proxy.sources_unique (Proxy.redirects a) → Proxy.guarded a ops →
     Proxy.sources_unique (Proxy.redirects (Proxy.run ops a))).
Proof.
  cbv zeta. rewrite AddRedirect_redirects, RemoveRedirect_redirects. split_and!.
  - apply lookup_insert_eq.
  - intros j Hj. by apply lookup_insert_ne.
  - intros Hu. split; [apply insert_unique_free | by apply insert_keeps_unique].
  - apply delete_keeps_unique.
  - apply run_keeps_unique.
Qed.

Lemma Proxy_redirects_unique_per_identifier_witness :
  let first := Proxy.mkRedirect "a.local" "http://127.0.0.1:1" in
  let a := Proxy.run [Proxy.Add Proxy.Written 1 first] Proxy.empty_adapter in
  Proxy.sources_unique (Proxy.redirects a)
  ∧ Proxy.sources_unique
      (Proxy.redirects
         (Proxy.AddRedirect Proxy.NotOpened 1
            (Proxy.mkRedirect "b.local" "http://127.0.0.1:2") a).1)
  ∧ ¬ Proxy.sources_unique
        (Proxy.redirects
           (Proxy.AddRedirect Proxy.Written 2
              (Proxy.mkRedirect "a.local" "http://127.0.0.1:2") a).1).
Proof.
  intros first a.
  assert (Proxy.sources_unique (Proxy.redirects a)) as Hu.
  { refine (proj2 (proj2 (proj2 (proj2 (Proxy_redirects_unique_per_identifier
      Proxy.Written 1%N first Proxy.empty_adapter [Proxy.Add Proxy.Written 1%N first]))))
      _ _).
    - intros i j ri rj Hi. vm_compute in Hi. discriminate.
    - split; [|exact I]. intros j rj Hj. vm_compute in Hj. discriminate. }
  split; [exact Hu|]. split.
  - apply (proj1 (proj2 (proj2 (Proxy_redirects_unique_per_identifier
      Proxy.NotOpened 1%N (Proxy.mkRedirect "b.local" "http://127.0.0.1:2") a [])))
      Hu).
    intros j rj Hj _. subst a. rewrite step_snoc_one in Hj.
    cbn [Proxy.step] in Hj. rewrite AddRedirect_redirects in Hj.
    apply lookup_insert_Some in Hj as [[<- _]|[_ Hj]]; [done|].
    vm_compute in Hj. discriminate.
  - intros H.
    apply (proj1 (proj2 (proj2 (Proxy_redirects_unique_per_identifier
      Proxy.Written 2%N (Proxy.mkRedirect "a.local" "http://127.0.0.1:2") a []))) Hu)
      in H.
    specialize (H 1%N first eq_refl eq_refl). discriminate.
Defined.

(** * The Docker runner: port pairing *)
Section DockerPorts.
Import Docker.
Implicit Types (instance i : Instance) (out : string).

Lemma pairing_test out e :
  String.eqb (Type_ e) "port" && String.eqb (Default e) out
  = bool_decide (pairs_with out e).
Proof.
  unfold pairs_with.
  destruct (String.eqb_spec (Type_ e) "port") as [Ht|Ht],
           (String.eqb_spec (Default e) out) as [Hd|Hd]; simpl;
    symmetry; first [ by apply bool_decide_eq_true | apply bool_decide_eq_false; tauto ].
Qed.

Lemma pair_port_first instance out defs : ∀ all,
  pair_port instance out defs all
  = all ++ match head (filter (pairs_with out) defs) with
           | Some e => [default "" (EnvVariables instance !! Name e) +:+ ":" +:+ out]
           | None => []
           end.
Proof.
  induction defs as [|e defs IH]; intros all; simpl.
  - by rewrite app_nil_r.
  - rewrite pairing_test. destruct (decide (pairs_with out e)) as [H|H].
    + rewrite bool_decide_eq_true_2, filter_cons_True by done. done.
    + rewrite bool_decide_eq_false_2, filter_cons_False by done. apply IH.
Qed.

Lemma pair_port_binding instance out all :
  pair_port instance out (EnvDefinitions instance) all
  = all ++ binding_of instance out.
Proof. apply pair_port_first. Qed.

Lemma port_specs_from instance ports : ∀ all,
  foldl (fun all out => pair_port instance out (EnvDefinitions instance) all)
        all ports
  = all ++ (ports ≫= binding_of instance).
Proof.
  induction ports as [|out ports IH]; intros all.
  - simpl. by rewrite app_nil_r.
  - rewrite bind_cons. cbn [foldl].
    rewrite IH, pair_port_binding. by rewrite <- app_assoc.
Qed.

Lemma port_specs_bindings instance ports :
  port_specs instance ports = ports ≫= binding_of instance.
Proof. unfold port_specs. by rewrite port_specs_from. Qed.

Lemma unpaired_no_binding instance out :
  ¬ paired instance out → binding_of instance out = [].
Proof.
  unfold paired, binding_of. destruct (port_definition instance out); [|done].
  intros []. eauto.
Qed.

Lemma bindings_of_paired instance ports :
  filter (paired instance) ports ≫= binding_of instance
  = ports ≫= binding_of instance.
Proof.
  induction ports as [|out ports IH]; [done|].
  destruct (decide (paired instance out)) as [H|H].
  - rewrite filter_cons_True by done. by rewrite !bind_cons, IH.
  - rewrite filter_cons_False by done.
    by rewrite bind_cons, IH, unpaired_no_binding.
Qed.

Lemma binding_of_with_ports i ports out :
  binding_of (with_ports i ports) out = binding_of i out.
Proof. reflexivity. Qed.

Lemma port_specs_with_ports i ports ports' :
  port_specs (with_ports i ports) ports' = port_specs i ports'.
Proof. by rewrite !port_specs_bindings. Qed.

(** [Start] looks at the advertised ports only through the specs it
    derives from them. *)
Lemma Start_ports cli sys i ports ports' :
  port_specs i ports = port_specs i ports' →
  Start cli sys (with_ports i ports) = Start cli sys (with_ports i ports').
Proof.
  intros H. unfold Start, create. simpl.
  rewrite !port_specs_with_ports, H. reflexivity.
Qed.

End DockerPorts.

(** A manifest whose defaults are written like the advertised entry, with
    a second, unpaired port: only the paired one is bound, to the value of
    the first matching definition. *)
Example Docker_sample_port_specs :
  Docker.port_specs Docker.sample_instance ["80/tcp"; "443/tcp"] = ["8080:80/tcp"]
  ∧ Docker.run (Docker.Start Docker.sample_client Docker.sample_sys Docker.sample_instance)
    = ([Docker.SetStatus "building"; Docker.DoImagePull "nginx:latest";
        Docker.Log "container doesn't exists, create it.";
        Docker.DoContainerCreate "nginx:latest"
          "VERTEX_CONTAINER_00000000-0000-0000-0000-000000000001"
          ["8080:80/tcp"] [("8080:80/tcp", "8080:80/tcp")] [];
        Docker.DoContainerStart "9a7e"; Docker.SetStatus "running"], inr tt).
Proof. split; vm_compute; reflexivity. Qed.

(** * The Docker runner: looking a container up, deleting it *)
Section DockerDelete.
Import Docker.
Implicit Types (instance : Instance) (c : Container).

Lemma find_container_other instance pre rest :
  Forall (other instance) pre →
  find_container (DockerContainerName instance) (pre ++ rest)
  = find_container (DockerContainerName instance) rest.
Proof.
  induction 1 as [|c pre [Hn Ho] _ IH]; [done|].
  simpl. unfold named in Ho. destruct (Names c) as [|n ns]; [done|].
  destruct (String.eqb_spec n ("/" +:+ DockerContainerName instance)) as [->|_];
    [by destruct Ho | exact IH].
Qed.

Lemma getID_absent cli instance containers :
  ContainerList cli = inr containers →
  Forall (other instance) containers →
  getID cli instance = inl ErrContainerNotFound.
Proof.
  intros HL Hall. unfold getID. rewrite HL.
  rewrite <- (app_nil_r containers), find_container_other by done. done.
Qed.

Lemma getID_present cli instance pre c post :
  ContainerList cli = inr (pre ++ c :: post) →
  Forall (other instance) pre → named instance c → ID c ≠ "" →
  getID cli instance = inr (ID c).
Proof.
  intros HL Hpre Hc Hid. unfold getID. rewrite HL.
  rewrite find_container_other by done. simpl.
  unfold named in Hc. destruct (Names c) as [|n ns]; [done|].
  injection Hc as ->. rewrite String.eqb_refl.
  by destruct (String.eqb_spec (ID c) "").
Qed.

End DockerDelete.

(** With no container of that name on the daemon, [Delete] answers the
    not-found error. *)
Lemma Docker_Delete_fails_when_absent :
  Docker.ContainerList Docker.sample_client = inr [Docker.registry_container]
  ∧ Docker.DockerContainerName Docker.sample_instance
    = "VERTEX_CONTAINER_00000000-0000-0000-0000-000000000001"
  ∧ Docker.run (Docker.Delete Docker.sample_client Docker.sample_instance)
    = ([], inl Docker.ErrContainerNotFound).
Proof. split_and!; vm_compute; reflexivity. Qed.

(** C6 (amended). When the daemon lists no container under the name
    VERTEX_CONTAINER_<uuid>, [Delete] returns the error "container not
    found" and asks the daemon for nothing else; when it lists one, [Delete]
    calls [ContainerRemove] on its id and returns what that call returns. *)
Theorem Docker_Delete_reports_missing_container
    (cli : Docker.Client) (instance : Docker.Instance)
    (pre post : list Docker.Container) (c : Docker.Container) :
  (Docker.ContainerList cli = inr pre →
   Forall (Docker.other instance) pre →
   Docker.run (Docker.Delete cli instance) = ([], inl Docker.ErrContainerNotFound))
  ∧ (Docker.ContainerList cli = inr (pre ++ c :: post) →
     Forall (Docker.other instance) pre →
     Docker.named instance c → Docker.ID c ≠ "" →
     Docker.run (Docker.Delete cli instance)
     = ([Docker.DoContainerRemove (Docker.ID c)],
        Docker.result_of (Docker.ContainerRemove cli (Docker.ID c)))).
Proof.
  split.
  - intros HL Hall. unfold Docker.run, Docker.Delete.
    unfold mbind, Docker.M_bind, Docker.lift.
    by rewrite (getID_absent _ _ _ HL Hall).
  - intros HL Hall Hc Hid. unfold Docker.run, Docker.Delete.
    unfold mbind, Docker.M_bind, Docker.lift.
    rewrite (getID_present _ _ _ _ _ HL Hall Hc Hid). simpl.
    by destruct (Docker.ContainerRemove cli (Docker.ID c)).
Qed.

Lemma Docker_Delete_reports_missing_container_witness :
  Docker.run (Docker.Delete Docker.sample_client Docker.sample_instance)
  = ([], inl Docker.ErrContainerNotFound)
  ∧ Docker.run (Docker.Delete
                  (Docker.listing [Docker.registry_container; Docker.sample_container])
                  Docker.sample_instance)
    = ([Docker.DoContainerRemove "9a7e"], inr tt).
Proof.
  assert (Forall (Docker.other Docker.sample_instance) [Docker.registry_container])
    as Hother.
  { repeat constructor; [discriminate | vm_compute; discriminate]. }
  split.
  - apply (proj1 (Docker_Delete_reports_missing_container
      Docker.sample_client Docker.sample_instance
      [Docker.registry_container] [] Docker.sample_container));
      [reflexivity | exact Hother].
  - apply (proj2 (Docker_Delete_reports_missing_container
      (Docker.listing [Docker.registry_container; Docker.sample_container])
      Docker.sample_instance
      [Docker.registry_container] [] Docker.sample_container));
      [reflexivity | exact Hother | reflexivity | discriminate].
Defined.

(** * The Docker runner: which statuses [Start] reports *)
Section DockerStatuses.
Import Docker.

Lemma statuses_snoc tr ev :
  statuses (tr ++ [ev])
  = statuses tr ++ match ev with SetStatus s => [s] | _ => [] end.
Proof. unfold statuses. rewrite omap_app. by destruct ev. Qed.

Lemma quiet_ret {A} (a : A) : quiet (mret a).
Proof. by intros tr. Qed.

Lemma quiet_fail {A} e : quiet (@fail A e).
Proof. by intros tr. Qed.

Lemma quiet_lift {A} (r : Error + A) : quiet (lift r).
Proof. by intros tr. Qed.

Lemma quiet_check r : quiet (check r).
Proof. destruct r; [apply quiet_fail | apply quiet_ret]. Qed.

Lemma quiet_emit ev : (∀ s, ev ≠ SetStatus s) → quiet (emit ev).
Proof.
  intros H tr. unfold emit. simpl. rewrite statuses_snoc.
  destruct ev; rewrite ?app_nil_r; try done. by destruct (H status).
Qed.

Lemma quiet_bind {A B} (m : M A) (f : A → M B) :
  quiet m → (∀ a, quiet (f a)) → quiet (m ≫= f).
Proof.
  intros Hm Hf tr. unfold mbind, M_bind. specialize (Hm tr).
  destruct (m tr) as [tr' [e|a]]; [done|]. by rewrite Hf.
Qed.

Lemma quiet_for_each {A} (f : A → M unit) l :
  (∀ a, quiet (f a)) → quiet (for_each f l).
Proof.
  intros Hf. induction l as [|a l IH]; [apply quiet_ret|].
  simpl. apply quiet_bind; [apply Hf | by intros _].
Qed.

Lemma quiet_on_error {A} (m : M A) h :
  quiet m → (∀ e, quiet (h e)) → quiet (on_error m h).
Proof.
  intros Hm Hh tr. unfold on_error. specialize (Hm tr).
  destruct (m tr) as [tr' [e|a]]; [|done]. simpl. by rewrite Hh.
Qed.

Ltac quiet_step :=
  first [ apply quiet_bind; [|intros ?]
        | apply quiet_for_each; intros ?
        | apply quiet_emit; intros ?; discriminate
        | apply quiet_ret | apply quiet_fail | apply quiet_lift | apply quiet_check ].

Lemma quiet_buildImageFromName cli image : quiet (buildImageFromName cli image).
Proof. unfold buildImageFromName. repeat quiet_step. Qed.

Lemma quiet_buildImageFromDockerfile cli sys path image :
  quiet (buildImageFromDockerfile cli sys path image).
Proof.
  unfold buildImageFromDockerfile. repeat quiet_step.
  destruct (Unmarshal_stream sys _); [|repeat quiet_step].
  destruct (String.eqb _ _); repeat quiet_step.
Qed.

Lemma quiet_createContainer cli image name exposed bindings binds :
  quiet (createContainer cli image name exposed bindings binds).
Proof.
  unfold createContainer. quiet_step; [repeat quiet_step|].
  destruct (ContainerCreate _ _ _ _ _ _) as [[id warnings] err].
  repeat quiet_step.
Qed.

Lemma quiet_create cli sys instance path : quiet (create cli sys instance path).
Proof.
  unfold create.
  apply quiet_bind; [repeat quiet_step | intros _].
  apply quiet_bind; [destruct (Ports _); repeat quiet_step | intros [exposed bindings]].
  apply quiet_bind; [destruct (Volumes _); repeat quiet_step | intros binds].
  destruct (Dockerfile _); [apply quiet_createContainer|].
  destruct (Image _); [apply quiet_createContainer|].
  destruct (Volumes _) as [[|]|]; repeat quiet_step.
Qed.

Lemma quiet_build_step cli sys instance : quiet (build_step cli sys instance).
Proof.
  apply quiet_on_error; [|intros e; repeat quiet_step].
  destruct (Dockerfile _); [apply quiet_buildImageFromDockerfile|].
  destruct (Image _); [apply quiet_buildImageFromName | apply quiet_fail].
Qed.

Lemma quiet_create_step cli sys instance : quiet (create_step cli sys instance).
Proof.
  unfold create_step. destruct (getID cli instance) as [[]|id];
    auto using quiet_create, quiet_fail, quiet_ret.
Qed.

Lemma Start_steps cli sys instance :
  Start cli sys instance
  = (emit (SetStatus InstanceStatusBuilding) ;;
     build_step cli sys instance ;;
     id ← create_step cli sys instance;
     emit (DoContainerStart id) ;;
     on_error (check (ContainerStart cli id))
              (fun _ => emit (SetStatus InstanceStatusError)) ;;
     emit (SetStatus InstanceStatusRunning)).
Proof. reflexivity. Qed.

Lemma Start_run cli sys instance :
  run (Start cli sys instance)
  = match build_step cli sys instance [SetStatus InstanceStatusBuilding] with
    | (tr1, inl e) => (tr1, inl e)
    | (tr1, inr _) =>
        match create_step cli sys instance tr1 with
        | (tr2, inl e) => (tr2, inl e)
        | (tr2, inr id) =>
            match ContainerStart cli id with
            | Some e =>
                (tr2 ++ [DoContainerStart id; SetStatus InstanceStatusError], inl e)
            | None =>
                (tr2 ++ [DoContainerStart id; SetStatus InstanceStatusRunning], inr tt)
            end
        end
    end.
Proof.
  rewrite Start_steps. unfold run, mbind, M_bind at 1 2 3. unfold emit at 1.
  cbn [app].
  destruct (build_step _ _ _ _) as [tr1 [e|[]]]; [done|].
  destruct (create_step _ _ _ _) as [tr2 [e|id]]; [done|].
  unfold mbind, M_bind, emit, on_error, check. simpl.
  destruct (ContainerStart cli id); simpl; by rewrite <- app_assoc.
Qed.

(** Every run of [Start] reports "building" first; it reports "running"
    exactly when it succeeds, and "error" exactly when the failing step
    is [ContainerStart]. *)
Lemma Start_statuses cli sys instance :
  match run (Start cli sys instance) with
  | (tr, inr _) => statuses tr = ["building"; "running"]
  | (tr, inl e) =>
      statuses tr = ["building"]
      ∨ (statuses tr = ["building"; "error"]
         ∧ ∃ id, ContainerStart cli id = Some e)
  end.
Proof.
  rewrite Start_steps. unfold run, mbind, M_bind at 1 2 3. unfold emit at 1.
  cbn [app].
  pose proof (quiet_build_step cli sys instance [SetStatus InstanceStatusBuilding]) as Hb.
  destruct (build_step _ _ _ _) as [tr1 [e|[]]]; simpl in Hb; [by left|].
  pose proof (quiet_create_step cli sys instance tr1) as Hc.
  destruct (create_step _ _ _ _) as [tr2 [e|id]]; simpl in Hc;
    [left; by rewrite Hc, Hb|].
  unfold mbind, M_bind, emit, on_error, check. simpl.
  destruct (ContainerStart cli id) as [e|] eqn:HS; simpl.
  - right. split; [|eauto]. rewrite !statuses_snoc, app_nil_r. simpl.
    rewrite Hc, Hb. done.
  - rewrite !statuses_snoc, app_nil_r. simpl. by rewrite Hc, Hb.
Qed.

End DockerStatuses.

(** C1 (the code at a failing input). With neither a Dockerfile nor an
    image in the manifest, [Start] sets the status building, passes the
    error to [onErr] and returns it; [setStatus] is not called again, so the
    last status reported is building and not error. *)
Theorem Docker_Start_build_failure_leaves_building
    (cli : Docker.Client) (sys : Docker.Sys) (u : UUID)
    (ports : option (list string)) (volumes : option (list (string * string)))
    (defs : list Docker.EnvDefinition) (env : gmap string string) :
  let instance :=
    Docker.mkInstance u (Docker.mkDocker None None ports volumes) defs env in
  Docker.run (Docker.Start cli sys instance)
  = ([Docker.SetStatus "building"; Docker.OnErr "no Docker methods found"],
     inl Docker.ErrNoDockerMethods)
  ∧ last (Docker.statuses (Docker.run (Docker.Start cli sys instance)).1)
    = Some "building".
Proof. split; reflexivity. Qed.

(** The same when the daemon refuses to pull the image. *)
Example Docker_Start_pull_failure_leaves_building :
  Docker.run (Docker.Start Docker.refusing_client Docker.sample_sys
                Docker.sample_instance)
  = ([Docker.SetStatus "building"; Docker.DoImagePull "nginx:latest";
      Docker.OnErr "pull access denied"],
     inl (Docker.ErrOther "pull access denied")).
Proof. reflexivity. Qed.

(** * The native runner *)

(** C7 (the code at a failing input). Once the executable is found and
    both pipes are open, [startManually] sets the status running before it
    spawns the process; when the spawn then fails it returns the error and
    leaves the status running.  The reaper, when the process has ended
    either way, sets the status off and leaves the handle in [i.cmd]. *)
Theorem Native_status_running_before_spawn
    (h : Native.Host) (i : Native.Instance) (command : string) (e : Native.Error)
    (st : Native.State) (c : Native.Cmd) :
  (Native.cmd i = None →
   Native.find_command h
     (Native.Join h [Native.PathInstances h; uuid_String (Native.InstanceUUID i)])
     (Native.ID i) = inr command →
   Native.StdoutPipe h (Native.command_of h i command) = None →
   Native.StderrPipe h (Native.command_of h i command) = None →
   Native.cmd_Start h (Native.command_of h i command) = Some e →
   Native.startManually h i
   = ((Native.mkInstance (Native.InstanceUUID i) (Native.ID i) (Native.Name i)
         "running" (Some (Native.command_of h i command)),
       [Native.GoScanner "stdout"; Native.GoScanner "stderr";
        Native.StatusChange "running"]),
      Some e))
  ∧ (Native.cmd st.1 = Some c →
     Native.Status (Native.reaper h st).1 = "off"
     ∧ Native.cmd (Native.reaper h st).1 = Some c
     ∧ last (Native.statuses (Native.reaper h st).2) = Some "off").
Proof.
  split.
  - intros Hcmd Hfind Hout Herr Hstart. unfold Native.startManually.
    rewrite Hcmd, Hfind. fold (Native.command_of h i command).
    by rewrite Hout, Herr, Hstart.
  - intros Hc. unfold Native.reaper. rewrite Hc.
    destruct (Native.cmd_Wait h c); simpl;
      (split_and!; [done | done |]);
      unfold Native.statuses; rewrite !omap_app; simpl;
      by rewrite last_snoc.
Qed.

Lemma Native_status_running_before_spawn_witness :
  Native.startManually Native.sample_host Native.sample_instance
  = ((Native.mkInstance 1 "hello" "Hello" "running"
        (Some (Native.mkCmd "./hello"
                 "live/instances/00000000-0000-0000-0000-000000000001" false)),
      [Native.GoScanner "stdout"; Native.GoScanner "stderr";
       Native.StatusChange "running"]),
     Some (Native.ErrOther "permission denied"))
  ∧ Native.Status
      (Native.reaper Native.sample_host
         (Native.startManually Native.sample_host Native.sample_instance).1).1
    = "off".
Proof.
  split.
  - apply (proj1 (Native_status_running_before_spawn
      Native.sample_host Native.sample_instance "./hello"
      (Native.ErrOther "permission denied")
      (Native.sample_instance, []) (Native.mkCmd "" "" false))); reflexivity.
  - apply (proj2 (Native_status_running_before_spawn
      Native.sample_host Native.sample_instance "./hello"
      (Native.ErrOther "permission denied")
      (Native.startManually Native.sample_host Native.sample_instance).1
      (Native.mkCmd "./hello"
         "live/instances/00000000-0000-0000-0000-000000000001" false))).
    reflexivity.
Defined.

(** * The manifest upgrade *)

(** C8. For a service document whose version is above
    [MaxSupportedVersion], [Update] returns no error, leaves the container
    (and so its service) as it was, never calls the adapter, and logs the
    one message "service version is not supported, skipping.". *)
Theorem Manifest_Update_skips_unsupported_version
    (MaxSupportedVersion : Z) (adapter : Manifest.ContainerServiceAdapter)
    (c : Manifest.Container) (s : Manifest.Service) :
  (MaxSupportedVersion < Manifest.Version s)%Z →
  Manifest.Update MaxSupportedVersion adapter c s
  = (c, [Manifest.LogInfo "service version is not supported, skipping."], None).
Proof.
  intros H. unfold Manifest.Update.
  destruct (Z.leb_spec (Manifest.Version s) MaxSupportedVersion); [lia | done].
Qed.

Lemma Manifest_Update_skips_unsupported_version_witness :
  Manifest.Update 2 Manifest.failing_adapter
    (Manifest.mkContainer 7 (Manifest.mkService "redis" "Redis" 1))
    (Manifest.mkService "redis" "Redis" 3)
  = (Manifest.mkContainer 7 (Manifest.mkService "redis" "Redis" 1),
     [Manifest.LogInfo "service version is not supported, skipping."], None).
Proof.
  apply (Manifest_Update_skips_unsupported_version 2 Manifest.failing_adapter
           (Manifest.mkContainer 7 (Manifest.mkService "redis" "Redis" 1))
           (Manifest.mkService "redis" "Redis" 3)).
  simpl. lia.
Defined.

(** * The settings service *)

(** C10. When the adapter answers with settings whose display name is
    empty, [Load] stores them on the instance with the display name
    replaced by the manifest's name, and returns no error; and whatever
    settings the adapter answers with, the display name stored is empty
    only if the manifest's name is. *)
Theorem Settings_Load_defaults_display_name
    (adapter : Settings.InstanceSettingsAdapterPort) (inst : Settings.Instance)
    (settings : Settings.InstanceSettings) :
  Settings.adapter_Load adapter (Settings.InstanceUUID inst) = inr settings →
  (Settings.DisplayName settings = "" →
   Settings.Load adapter inst
   = (Settings.mkInstance (Settings.InstanceUUID inst) (Settings.Service_Name inst)
        (Settings.mkSettings (Settings.Service_Name inst)
           (Settings.LaunchOnStartup settings) (Settings.Version settings)
           (Settings.Tags settings)),
      None))
  ∧ (Settings.Service_Name inst ≠ "" →
     Settings.DisplayName (Settings.InstanceSettings_ (Settings.Load adapter inst).1) ≠ "").
Proof.
  intros HL. unfold Settings.Load. rewrite HL. split.
  - by intros ->.
  - intros Hname.
    by destruct (String.eqb_spec (Settings.DisplayName settings) "").
Qed.

Lemma Settings_Load_defaults_display_name_witness :
  Settings.Load Settings.missing_file_adapter
    (Settings.mkInstance 3 "Postgres" (Settings.mkSettings "old" None None []))
  = (Settings.mkInstance 3 "Postgres" (Settings.mkSettings "Postgres" None None []), None).
Proof.
  apply (proj1 (Settings_Load_defaults_display_name Settings.missing_file_adapter
           (Settings.mkInstance 3 "Postgres" (Settings.mkSettings "old" None None []))
           Settings.default_settings eq_refl)); reflexivity.
Defined.

(** A display name that is set is kept as it is. *)
Lemma Settings_Load_keeps_display_name
    (adapter : Settings.InstanceSettingsAdapterPort) (inst : Settings.Instance)
    (settings : Settings.InstanceSettings) :
  Settings.adapter_Load adapter (Settings.InstanceUUID inst) = inr settings →
  Settings.DisplayName settings ≠ "" →
  Settings.Load adapter inst
  = (Settings.mkInstance (Settings.InstanceUUID inst) (Settings.Service_Name inst)
       settings, None).
Proof.
  intros HL Hname. unfold Settings.Load. rewrite HL.
  by destruct (String.eqb_spec (Settings.DisplayName settings) "").
Qed.

(** * More on the env store *)
Section EnvReading.
Import Env.

Lemma Split_field sep a b :
  has sep a = false → Split sep (a +:+ String sep b) = a :: Split sep b.
Proof.
  induction a as [|x a IH]; sapp; simpl.
  - by rewrite Ascii.eqb_refl.
  - destruct (Ascii.eqb x sep); [done|]. intros H. by rewrite IH.
Qed.

Lemma has_dropCR c s : has c s = false → has c (Scanner.dropCR s) = false.
Proof.
  induction s as [|x s IH]; [done|]. destruct s as [|y s].
  - intros H. cbn [Scanner.dropCR]. by destruct (Ascii.eqb x CR).
  - change (Scanner.dropCR (String x (String y s)))
      with (String x (Scanner.dropCR (String y s))).
    cbn [has]. destruct (Ascii.eqb x c); [done|]. exact IH.
Qed.

Lemma load_lines_keeps_keys tokens : ∀ e : gmap string string,
  dom e ⊆ dom (load_lines tokens e).1.
Proof.
  induction tokens as [|t ts IH]; intros e; [done|].
  cbn [load_lines]. destruct (Split EQS t) as [|k [|v rest]]; [done | done |].
  etrans; [|apply IH]. rewrite dom_insert. set_solver.
Qed.

Lemma written_app pre post : written (pre ++ post) = written pre +:+ written post.
Proof.
  induction pre as [|kv pre IH]; [done|].
  cbn [written app]. by rewrite IH, append_assoc_s.
Qed.

Lemma raw_lines_written_then pre tail :
  Forall well_formed pre →
  Scanner.raw_lines (written pre +:+ tail)
  = (line_text <$> pre) ++ Scanner.raw_lines tail.
Proof.
  induction 1 as [|kv rest Hkv _ IH]; [done|].
  cbn [written]. rewrite append_assoc_s, env_line_text.
  rewrite raw_lines_line by by apply line_text_no_LF.
  by rewrite IH.
Qed.

Lemma tokens_of_lines pre ls :
  Forall well_formed pre →
  Scanner.tokens_of ((line_text <$> pre) ++ ls)
  = (line_text <$> pre) ++ Scanner.tokens_of ls.
Proof.
  induction 1 as [|kv rest Hkv _ IH]; [done|].
  destruct (token_line_text kv Hkv) as [Hfit Hcr].
  rewrite fmap_cons. cbn [app Scanner.tokens_of]. by rewrite Hfit, Hcr, IH.
Qed.

Lemma load_lines_then pre ts (e : gmap string string) :
  Forall well_formed pre →
  load_lines ((line_text <$> pre) ++ ts) e = load_lines ts (assign e pre).
Proof.
  intros Hwf; revert e.
  induction Hwf as [|kv rest (Hk & Hv & _) _ IH]; intros e; [done|].
  apply plain_inv in Hk as [Hk _], Hv as [Hv _].
  rewrite fmap_cons. cbn [app load_lines]. unfold line_text at 1.
  rewrite Split_key_value by done. apply IH.
Qed.

(** One line and what follows it, as the scanner cuts them. *)
Lemma Scan_line l tail :
  has LF l = false → Scanner.fits l = true →
  Scanner.Scan (l +:+ String LF tail) = Scanner.dropCR l :: Scanner.Scan tail.
Proof.
  intros HLF Hfit. unfold Scanner.Scan. rewrite raw_lines_line by done.
  cbn [Scanner.tokens_of]. by rewrite Hfit.
Qed.

End EnvReading.

(** X1. [LoadEnv] only assigns: whatever the file holds and whether or
    not the load fails, every key the instance had before is still a key
    afterwards, and the instance keeps its identifier. *)
Theorem Env_LoadEnv_never_drops_keys (i : Env.Instance) (f : Env.File) :
  dom (Env.Entries i) ⊆ dom (Env.Entries (Env.LoadEnv i f).1)
  ∧ Env.InstanceUUID (Env.LoadEnv i f).1 = Env.InstanceUUID i.
Proof.
  destruct f as [| |c]; [done | done |]. unfold Env.LoadEnv.
  pose proof (load_lines_keeps_keys (Scanner.Scan c) (Env.Entries i)) as H.
  by destruct (Env.load_lines _ _) as [e err].
Qed.

(** X2. [LoadEnv] stops at the first line that has no ['=']: it returns the
    error "failed to read .env", the lines before it stay assigned, and
    nothing after it is read. *)
Theorem Env_LoadEnv_stops_at_malformed_line
    (i : Env.Instance) (pre : list (string * string)) (bad rest : string) :
  Forall Env.well_formed pre →
  has EQS bad = false → has LF bad = false → Scanner.fits bad = true →
  Env.LoadEnv i (Env.Data (Env.written pre +:+ bad +:+ String LF rest))
  = (Env.mkInstance (Env.InstanceUUID i) (Env.assign (Env.Entries i) pre),
     Some Env.ErrFailedToReadEnv).
Proof.
  intros Hpre Heq HLF Hfit. unfold Env.LoadEnv, Scanner.Scan.
  rewrite raw_lines_written_then, raw_lines_line by done.
  rewrite tokens_of_lines by done. cbn [Scanner.tokens_of]. rewrite Hfit.
  rewrite load_lines_then by done. cbn [Env.load_lines].
  by rewrite (Split_plain _ (has_dropCR _ _ Heq)).
Qed.

Lemma Env_LoadEnv_stops_at_malformed_line_witness :
  Env.LoadEnv (Env.mkInstance 0 ∅)
    (Env.Data (Env.written [("A", "1")] +:+ "NOEQUALSHERE" +:+ String LF
                 (Env.written [("B", "2")])))
  = (Env.mkInstance 0 {["A" := "1"]}, Some Env.ErrFailedToReadEnv).
Proof.
  apply (Env_LoadEnv_stops_at_malformed_line (Env.mkInstance 0 ∅)
           [("A", "1")] "NOEQUALSHERE" (Env.written [("B", "2")])).
  - repeat constructor.
  - reflexivity.
  - reflexivity.
  - reflexivity.
Defined.

(** X3. The missing truncation does no harm when the old content is not
    longer than the new: for a well-formed map, [SaveEnv] over such a file
    leaves exactly the new lines, and [LoadEnv] then yields the map. *)
Theorem Env_roundtrip_over_shorter_content
    (m : gmap string string) (order : list (string * string))
    (i : Env.Instance) (old : string) :
  order ≡ₚ map_to_list m →
  (∀ k v, m !! k = Some v → Env.well_formed (k, v)) →
  String.length old ≤ String.length (Env.written order) →
  Env.SaveEnv order i m (Env.Data old)
  = (Env.mkInstance (Env.InstanceUUID i) m, Env.Data (Env.written order), None)
  ∧ Env.LoadEnv (Env.mkInstance (Env.InstanceUUID i) ∅) (Env.Data (Env.written order))
    = (Env.mkInstance (Env.InstanceUUID i) m, None).
Proof.
  intros Hperm Hwf Hlen.
  assert (Forall Env.well_formed order) as Hall.
  { apply Forall_forall. intros [k v] Hkv. apply Hwf.
    rewrite Hperm in Hkv. by apply elem_of_map_to_list in Hkv. }
  split.
  - rewrite (SaveEnv_file order i m (Env.Data old) (Env.mkHandle "" old) eq_refl).
    simpl. by rewrite skip_beyond, append_empty_r.
  - unfold Env.LoadEnv. rewrite Scan_written, load_lines_written by done.
    simpl. rewrite (assign_all m); [done | done | apply map_empty_subseteq].
Qed.

Lemma Env_roundtrip_over_shorter_content_witness :
  Env.SaveEnv [("PORT", "8081")] (Env.mkInstance 7 ∅) {["PORT" := "8081"]}
    (Env.Data (Env.written [("PORT", "8080")]))
  = (Env.mkInstance 7 {["PORT" := "8081"]},
     Env.Data (Env.written [("PORT", "8081")]), None)
  ∧ Env.LoadEnv (Env.mkInstance 7 ∅) (Env.Data (Env.written [("PORT", "8081")]))
    = (Env.mkInstance 7 {["PORT" := "8081"]}, None).
Proof.
  apply (Env_roundtrip_over_shorter_content {["PORT" := "8081"]}
           [("PORT", "8081")] (Env.mkInstance 7 ∅) (Env.written [("PORT", "8080")])).
  - by rewrite map_to_list_singleton.
  - intros k v [<- <-]%lookup_singleton_Some. vm_compute. done.
  - vm_compute. lia.
Defined.

(** X4. Only the first two fields of a line count: a value that holds an
    ['='] itself is read back cut at that ['=']. *)
Theorem Env_value_cut_at_second_equals
    (i : Env.Instance) (k v1 v2 : string) :
  has EQS k = false → has EQS v1 = false →
  has LF (k +:+ String EQS (v1 +:+ String EQS v2)) = false →
  Scanner.fits (k +:+ String EQS (v1 +:+ String EQS v2)) = true →
  last_byte v2 ≠ Some CR →
  Env.LoadEnv i (Env.Data ((k +:+ String EQS (v1 +:+ String EQS v2)) +:+ String LF ""))
  = (Env.mkInstance (Env.InstanceUUID i) (<[k := v1]> (Env.Entries i)), None).
Proof.
  intros Hk Hv1 HLF Hfit Hcr. unfold Env.LoadEnv.
  rewrite Scan_line by done. rewrite dropCR_id.
  - change (Scanner.Scan "") with (@nil string). cbn [Env.load_lines].
    by rewrite !Split_field by done.
  - rewrite last_byte_append.
    rewrite last_byte_append. destruct (last_byte v2); [done|]. simpl. by intros [= ?].
Qed.

Lemma Env_value_cut_at_second_equals_witness :
  Env.LoadEnv (Env.mkInstance 0 ∅) (Env.Data ("URL=a=b" +:+ String LF ""))
  = (Env.mkInstance 0 {["URL" := "a"]}, None).
Proof.
  apply (Env_value_cut_at_second_equals (Env.mkInstance 0 ∅) "URL" "a" "b");
    try reflexivity. discriminate.
Defined.

(** * More on the registry *)
Section RegistryCatalog.
Import Registry Listeners.
Implicit Types (r : InstanceFSRepository).

Lemma notify_instances ev r : instances (notifyListeners ev r) = instances r.
Proof. done. Qed.

Lemma Set_adds u instance r r' :
  Set_ u instance r = (r', None) →
  instances r ⊆ instances r' ∧ listeners r' = listeners r ∧ observer r' = observer r.
Proof.
  intros HS. pose proof (Set_ok_inv _ _ _ _ HS) as Hu.
  destruct (Set_absent u instance r Hu) as (r'' & Hr'' & Hi & Hp & _).
  rewrite HS in Hr''. injection Hr'' as <-. split_and!.
  - rewrite Hi. by apply insert_subseteq.
  - done.
  - unfold Set_ in HS. destruct (Exists u r); [done|]. by injection HS as <-.
Qed.

Lemma Load_adds w u r :
  instances r ⊆ instances (Load w u r).1
  ∧ listeners (Load w u r).1 = listeners r
  ∧ observer (Load w u r).1 = observer r.
Proof.
  unfold Load.
  destruct (ReadService w u); [done|].
  destruct (NewInstance w u _); [|done].
  destruct (LoadMetadata w _) as [|i']; [done|].
  destruct (Set_ u i' r) as [r' [e|]] eqn:HS; simpl.
  - by rewrite (Set_fail_same _ _ _ _ _ HS).
  - by apply Set_adds in HS.
Qed.

Lemma scan_entry_adds w entry r :
  instances r ⊆ instances (final (scan_entry w entry r))
  ∧ listeners (final (scan_entry w entry r)) = listeners r
  ∧ observer (final (scan_entry w entry r)) = observer r.
Proof.
  unfold scan_entry. destruct (Info entry) as [symlink|]; [|done].
  destruct (isInstance entry symlink); [|done].
  destruct (uuid_Parse w _) as [id|]; [|done].
  pose proof (Load_adds w id r) as H.
  by destruct (Load w id r) as [r' [e|i]].
Qed.

Lemma scan_adds w entries : ∀ r,
  instances r ⊆ instances (final (scan w entries r))
  ∧ listeners (final (scan w entries r)) = listeners r
  ∧ observer (final (scan w entries r)) = observer r.
Proof.
  induction entries as [|entry rest IH]; intros r; [done|].
  cbn [scan]. pose proof (scan_entry_adds w entry r) as (H1 & H2 & H3).
  destruct (scan_entry w entry r) as [e r'|r']; simpl in *; [done|].
  destruct (IH r') as (I1 & I2 & I3). split_and!; [by etrans | congruence | congruence].
Qed.

Lemma registrations_perm (c : Chan) (l1 l2 : list (UUID * Chan)) :
  l1 ≡ₚ l2 →
  length (filter (fun x => x = c) l1.*2) = length (filter (fun x => x = c) l2.*2).
Proof. intros H. by rewrite H. Qed.

Lemma registrations_added id c c' r :
  listeners r !! id = None →
  registrations c' (AddListener id c r).1
  = (if decide (c = c') then 1 else 0) + registrations c' r.
Proof.
  intros Hid. unfold registrations, subscribers. simpl.
  rewrite (registrations_perm c' _ _ (map_to_list_insert _ _ _ Hid)).
  rewrite fmap_cons. simpl.
  destruct (decide (c = c')) as [->|Hne].
  - by rewrite filter_cons_True.
  - by rewrite filter_cons_False.
Qed.

Lemma registrations_removed id c c' r :
  listeners r !! id = Some c →
  (if decide (c = c') then 1 else 0) + registrations c' (RemoveListener id r)
  = registrations c' r.
Proof.
  intros Hid. unfold registrations, subscribers. simpl.
  rewrite <- (registrations_perm c' _ _ (map_to_list_delete _ _ _ Hid)).
  rewrite fmap_cons. simpl.
  destruct (decide (c = c')) as [->|Hne].
  - by rewrite filter_cons_True.
  - by rewrite filter_cons_False.
Qed.

Lemma notify_queue ev r c :
  queue c (queues (notifyListeners ev r))
  = queue c (queues r) ++ replicate (registrations c r) ev.
Proof. apply queue_send_all. Qed.

Lemma Set_queue u instance r r' c :
  Set_ u instance r = (r', None) →
  queue c (queues r')
  = queue c (queues r) ++ replicate (registrations c r) (mkEvent EventChange).
Proof.
  unfold Set_. destruct (Exists u r); [done|]. intros [= <-].
  cbn [queues set_instances notifyListeners set_queues].
  apply queue_send_all.
Qed.

End RegistryCatalog.

(** X5. Insert, look up, delete: for an identifier that is not in the
    catalog, [Set] succeeds, [Get] then returns the instance (with the
    repository's observer registered on it) and answers for every other
    identifier as before; a [Delete] whose directory removal succeeds then
    brings the catalog back to what it was, and each subscribed channel has
    received the change event twice per registration. *)
Theorem Registry_Set_Get_Delete
    (w : Registry.World) (u : UUID) (instance : Registry.Instance)
    (r : Registry.InstanceFSRepository) :
  Registry.instances r !! u = None →
  Registry.RemoveAll w u = true →
  ∃ r1 r2,
    Registry.Set_ u instance r = (r1, None)
    ∧ Registry.Get u r1 = Some (Registry.Register (Registry.observer r) instance)
    ∧ (∀ v, v ≠ u → Registry.Get v r1 = Registry.Get v r)
    ∧ Registry.Delete w u r1 = (r2, None)
    ∧ Listeners.GetAll r2 = Listeners.GetAll r
    ∧ Registry.Exists u r2 = false
    ∧ ∀ c, Registry.queue c (Registry.queues r2)
           = Registry.queue c (Registry.queues r)
             ++ replicate (2 * Registry.registrations c r)
                  (Registry.mkEvent Registry.EventChange).
Proof.
  intros Hu Hrm.
  destruct (Set_absent u instance r Hu) as (r1 & HS & Hi & Hl & _).
  exists r1. eexists. split_and!.
  - exact HS.
  - unfold Registry.Get. by rewrite Hi, lookup_insert_eq.
  - intros v Hv. unfold Registry.Get. by rewrite Hi, lookup_insert_ne.
  - unfold Registry.Delete. by rewrite Hrm.
  - unfold Listeners.GetAll. simpl. rewrite Hi, delete_insert_eq.
    by apply delete_id.
  - apply bool_decide_eq_false. simpl. rewrite lookup_delete_eq.
    by intros [? ?].
  - intros c. rewrite notify_queue.
    assert (Registry.registrations c
              (Registry.set_instances r1 (delete u (Registry.instances r1)))
            = Registry.registrations c r) as ->.
    { unfold Registry.registrations, Registry.subscribers. simpl. by rewrite Hl. }
    assert (Registry.queue c (Registry.queues r1)
            = Registry.queue c (Registry.queues r)
              ++ replicate (Registry.registrations c r)
                   (Registry.mkEvent Registry.EventChange)) as Hq.
    { by apply (Set_queue u instance). }
    simpl. rewrite Hq, <- app_assoc, <- replicate_add. do 2 f_equal. lia.
Qed.

Lemma Registry_Set_Get_Delete_witness :
  ∃ r1 r2,
    Registry.Set_ 2 (Registry.mkInstance 2 "svc" "" []) Registry.empty_repo = (r1, None)
    ∧ Registry.Get 2 r1 = Some (Registry.mkInstance 2 "svc" "" [0%N])
    ∧ Registry.Delete (Registry.sample_world []) 2 r1 = (r2, None)
    ∧ Listeners.GetAll r2 = ∅.
Proof.
  destruct (Registry_Set_Get_Delete (Registry.sample_world []) 2%N
              (Registry.mkInstance 2 "svc" "" []) Registry.empty_repo
              eq_refl eq_refl) as (r1 & r2 & H1 & H2 & _ & H4 & H5 & _).
  exists r1, r2. split_and!; [exact H1 | exact H2 | exact H4 | exact H5].
Defined.

(** X6. [Load] never replaces an entry: for an identifier that is already
    in the catalog it fails and leaves the repository as it is, whatever
    the files on disk hold; when it succeeds the identifier was absent
    before and holds the loaded instance afterwards. *)
Theorem Registry_Load_never_replaces
    (w : Registry.World) (u : UUID) (r : Registry.InstanceFSRepository) :
  (is_Some (Registry.instances r !! u) →
     ∃ e, Registry.Load w u r = (r, inl e))
  ∧ (∀ r' i, Registry.Load w u r = (r', inr i) →
       Registry.instances r !! u = None
       ∧ Registry.instances r' !! u
         = Some (Registry.Register (Registry.observer r) i)
       ∧ ∀ v, v ≠ u → Registry.instances r' !! v = Registry.instances r !! v).
Proof.
  split.
  - intros Hu. unfold Registry.Load.
    destruct (Registry.ReadService w u); [eauto|].
    destruct (Registry.NewInstance w u _); [|eauto].
    destruct (Registry.LoadMetadata w _) as [|i']; [eauto|].
    rewrite (Set_present u i' r Hu). eauto.
  - intros r' i. unfold Registry.Load.
    destruct (Registry.ReadService w u); [done|].
    destruct (Registry.NewInstance w u _); [|done].
    destruct (Registry.LoadMetadata w _) as [|i']; [done|].
    destruct (Registry.Set_ u i' r) as [r'' [e|]] eqn:HS; [done|].
    intros [= <- <-]. pose proof (Set_ok_inv _ _ _ _ HS) as Hu.
    destruct (Set_absent u i' r Hu) as (r3 & Hr3 & Hi & _).
    rewrite HS in Hr3. injection Hr3 as <-. split_and!; [done | |].
    + by rewrite Hi, lookup_insert_eq.
    + intros v Hv. by rewrite Hi, lookup_insert_ne.
Qed.

Lemma Registry_Load_never_replaces_witness :
  ∃ e, Registry.Load (Registry.sample_world []) 1
         (Registry.set_instances Registry.empty_repo
            {[ 1%N := Registry.mkInstance 1 "{}" "" [0%N] ]})
       = (Registry.set_instances Registry.empty_repo
            {[ 1%N := Registry.mkInstance 1 "{}" "" [0%N] ]}, inl e).
Proof.
  apply (proj1 (Registry_Load_never_replaces (Registry.sample_world []) 1%N
    (Registry.set_instances Registry.empty_repo
       {[ 1%N := Registry.mkInstance 1 "{}" "" [0%N] ]}))).
  vm_compute. eauto.
Defined.

(** X7. The startup scan only adds: whether it runs to its end or stops
    the process at some entry, every instance that was in the catalog
    before is still there unchanged, and the listeners and the observer are
    the same. *)
Theorem Registry_scan_only_adds
    (w : Registry.World) (r : Registry.InstanceFSRepository) :
  Registry.instances r ⊆ Registry.instances (Listeners.final (Registry.reload w r))
  ∧ Registry.listeners (Listeners.final (Registry.reload w r)) = Registry.listeners r
  ∧ Registry.observer (Listeners.final (Registry.reload w r)) = Registry.observer r.
Proof.
  unfold Registry.reload. destruct (Registry.ReadDir w) as [entries|]; [|done].
  apply scan_adds.
Qed.

(** X8. A channel added under a fresh identifier receives each later
    change event once more than before; a channel removed receives it once
    less, and nothing at all when that was its only registration; the
    other channels are not affected either way. *)
Theorem Registry_listener_lifecycle
    (id : UUID) (c : Registry.Chan) (r : Registry.InstanceFSRepository)
    (ev : Registry.InstanceEvent) :
  (Registry.listeners r !! id = None →
   Registry.queue c (Registry.queues
     (Registry.notifyListeners ev (Listeners.AddListener id c r).1))
   = Registry.queue c (Registry.queues (Registry.notifyListeners ev r)) ++ [ev]
   ∧ ∀ c', c' ≠ c →
       Registry.queue c' (Registry.queues
         (Registry.notifyListeners ev (Listeners.AddListener id c r).1))
       = Registry.queue c' (Registry.queues (Registry.notifyListeners ev r)))
  ∧ (Registry.listeners r !! id = Some c →
     Registry.queue c (Registry.queues
       (Registry.notifyListeners ev (Listeners.RemoveListener id r))) ++ [ev]
     = Registry.queue c (Registry.queues (Registry.notifyListeners ev r))
     ∧ ((∀ j, j ≠ id → Registry.listeners r !! j ≠ Some c) →
        Registry.queue c (Registry.queues
          (Registry.notifyListeners ev (Listeners.RemoveListener id r)))
        = Registry.queue c (Registry.queues r))
     ∧ ∀ c', c' ≠ c →
         Registry.queue c' (Registry.queues
           (Registry.notifyListeners ev (Listeners.RemoveListener id r)))
         = Registry.queue c' (Registry.queues (Registry.notifyListeners ev r))).
Proof.
  split.
  - intros Hid. split.
    + rewrite !notify_queue.
      rewrite (registrations_added id c c r Hid), decide_True by done.
      change (1 + ?n) with (S n). rewrite replicate_S_end. by rewrite app_assoc.
    + intros c' Hc'. rewrite !notify_queue.
      by rewrite (registrations_added id c c' r Hid), decide_False.
  - intros Hid.
    pose proof (registrations_removed id c c r Hid) as Hc.
    rewrite decide_True in Hc by done. split_and!.
    + rewrite !notify_queue. rewrite <- Hc.
      change (1 + ?n) with (S n). rewrite replicate_S_end. by rewrite app_assoc.
    + intros Honly. rewrite notify_queue.
      assert (Registry.registrations c (Listeners.RemoveListener id r) = 0) as ->;
        [|by rewrite app_nil_r].
      unfold Registry.registrations, Registry.subscribers.
      destruct (filter _ _) as [|x xs] eqn:E; [done|]. exfalso.
      assert (x ∈ x :: xs) as Hx by left. rewrite <- E in Hx.
      apply list_elem_of_filter in Hx as [-> Hx].
      apply list_elem_of_fmap in Hx as ([j c0] & Hc0 & Hin).
      simpl in Hc0. subst c0. apply elem_of_map_to_list in Hin.
      cbn [Registry.listeners Listeners.RemoveListener Listeners.set_listeners] in Hin.
      apply lookup_delete_Some in Hin as [Hne Hin]. by apply (Honly j).
    + intros c' Hc'. rewrite !notify_queue.
      pose proof (registrations_removed id c c' r Hid) as Hc''.
      rewrite decide_False in Hc'' by done. simpl in Hc''. by rewrite Hc''.
Qed.

Lemma Registry_listener_lifecycle_witness :
  let r := Registry.mkRepo ∅ {[ 5%N := 9%N ]} 0%N ∅ in
  let ev := Registry.mkEvent Registry.EventChange in
  Registry.queue 8%N (Registry.queues
    (Registry.notifyListeners ev (Listeners.AddListener 6 8%N r).1)) = [ev]
  ∧ Registry.queue 9%N (Registry.queues
      (Registry.notifyListeners ev (Listeners.RemoveListener 5 r))) = [].
Proof.
  cbv zeta.
  destruct (Registry_listener_lifecycle 6%N 8%N
              (Registry.mkRepo ∅ {[ 5%N := 9%N ]} 0%N ∅)
              (Registry.mkEvent Registry.EventChange)) as [HA _].
  destruct (Registry_listener_lifecycle 5%N 9%N
              (Registry.mkRepo ∅ {[ 5%N := 9%N ]} 0%N ∅)
              (Registry.mkEvent Registry.EventChange)) as [_ HR].
  split.
  - destruct HA as [HA _]; [vm_compute; reflexivity|].
    rewrite HA. vm_compute. reflexivity.
  - destruct HR as (_ & HR & _); [vm_compute; reflexivity|].
    rewrite HR; [vm_compute; reflexivity|].
    intros j Hj Hl. cbn [Registry.listeners] in Hl.
    apply lookup_singleton_Some in Hl as [Hl _]. congruence.
Defined.

(** * More on the redirect store *)
Section ProxyLookup.
Import Proxy ProxyDisk.
Implicit Types (a : ProxyFSAdapter) (m : gmap UUID ProxyRedirect)
  (order : list (UUID * ProxyRedirect)).

Lemma GetRedirectByHost_Some order host redirect :
  GetRedirectByHost order host = Some redirect →
  Source redirect = host ∧ ∃ id, (id, redirect) ∈ order.
Proof.
  induction order as [|[id r] order IH]; [done|]. cbn [GetRedirectByHost].
  destruct (String.eqb_spec (Source r) host) as [Hs|Hs].
  - intros [= <-]. split; [done|]. exists id. left.
  - intros H. destruct (IH H) as (? & id' & ?). split; [done|].
    exists id'. by right.
Qed.

Lemma GetRedirectByHost_None order host :
  GetRedirectByHost order host = None ↔
  ∀ id redirect, (id, redirect) ∈ order → Source redirect ≠ host.
Proof.
  induction order as [|[id r] order IH]; cbn [GetRedirectByHost].
  - split; [|done]. intros _ ?? H. by apply elem_of_nil in H.
  - destruct (String.eqb_spec (Source r) host) as [Hs|Hs].
    + split; [done|]. intros H. destruct (H id r); [left | done].
    + rewrite IH. split.
      * intros H id' r' [[= -> ->]|Hin]%elem_of_cons; eauto.
      * intros H id' r' Hin. apply (H id'). by right.
Qed.

Lemma step_snoc ops op a : run (ops ++ [op]) a = step (run ops a) op.
Proof. unfold run. by rewrite foldl_app. Qed.

Lemma step_disk a op :
  disk (step a op)
  = match outcome op with
    | Written => Holds (redirects (step a op))
    | NotOpened => disk a
    | Interrupted => Torn
    end.
Proof. by destruct op as [[] id r|[] id]. Qed.

End ProxyLookup.

(** X9. [GetRedirectByHost] is a sound and complete search whatever order
    the map is ranged over in: a redirect it returns is stored and has the
    host as its source, and it returns nothing exactly when no stored
    redirect has that source.  When the sources are pairwise distinct the
    answer does not depend on the order. *)
Theorem Proxy_GetRedirectByHost_finds_source
    (m : gmap UUID Proxy.ProxyRedirect) (order : list (UUID * Proxy.ProxyRedirect))
    (host : string) :
  order ≡ₚ map_to_list m →
  (∀ redirect, Proxy.GetRedirectByHost order host = Some redirect →
     Proxy.Source redirect = host ∧ ∃ id, m !! id = Some redirect)
  ∧ (Proxy.GetRedirectByHost order host = None ↔
     ∀ id redirect, m !! id = Some redirect → Proxy.Source redirect ≠ host)
  ∧ (Proxy.sources_unique m →
     ∀ id redirect, m !! id = Some redirect → Proxy.Source redirect = host →
       Proxy.GetRedirectByHost order host = Some redirect).
Proof.
  intros Hperm.
  assert (∀ id r, (id, r) ∈ order ↔ m !! id = Some r) as Hin.
  { intros id r. rewrite Hperm. apply elem_of_map_to_list. }
  split_and!.
  - intros r [Hs [id Hid]]%GetRedirectByHost_Some. split; [done|].
    exists id. by apply Hin.
  - rewrite GetRedirectByHost_None. split.
    + intros H id r Hid. apply (H id). by apply Hin.
    + intros H id r Hid. apply (H id). by apply Hin.
  - intros Hu id r Hid Hs.
    destruct (Proxy.GetRedirectByHost order host) as [r'|] eqn:E.
    + apply GetRedirectByHost_Some in E as [Hs' [id' Hid']].
      apply Hin in Hid'. assert (id' = id) as -> by (eapply Hu; eauto; congruence).
      congruence.
    + exfalso. rewrite GetRedirectByHost_None in E.
      by apply (E id r); [apply Hin|].
Qed.

Lemma Proxy_GetRedirectByHost_finds_source_witness :
  Proxy.GetRedirectByHost
    [(1%N, Proxy.mkRedirect "app.local" "http://127.0.0.1:8080")] "other.local"
  = None.
Proof.
  apply (proj1 (proj2 (Proxy_GetRedirectByHost_finds_source
    {[ 1%N := Proxy.mkRedirect "app.local" "http://127.0.0.1:8080" ]}
    [(1%N, Proxy.mkRedirect "app.local" "http://127.0.0.1:8080")] "other.local"
    ltac:(by rewrite map_to_list_singleton)))).
  intros id r [_ <-]%lookup_singleton_Some. discriminate.
Defined.

(** X10. Add, serve, remove: when no other identifier holds the source of
    a redirect, then after [AddRedirect] its host is found and answers with
    that redirect, and after [RemoveRedirect] of the identifier the host is
    no longer found; both hold whether or not the disk writes succeed. *)
Theorem Proxy_add_serve_remove
    (ok1 ok2 : Proxy.WriteResult) (id : UUID) (redirect : Proxy.ProxyRedirect)
    (a : Proxy.ProxyFSAdapter) (order1 order2 : list (UUID * Proxy.ProxyRedirect)) :
  Proxy.source_free (Proxy.redirects a) id redirect →
  order1 ≡ₚ map_to_list (Proxy.redirects (Proxy.AddRedirect ok1 id redirect a).1) →
  order2 ≡ₚ map_to_list
             (Proxy.redirects
                (Proxy.RemoveRedirect ok2 id (Proxy.AddRedirect ok1 id redirect a).1).1) →
  Proxy.GetRedirectByHost order1 (Proxy.Source redirect) = Some redirect
  ∧ Proxy.GetRedirectByHost order2 (Proxy.Source redirect) = None.
Proof.
  intros Hfree H1 H2.
  rewrite RemoveRedirect_redirects in H2. rewrite AddRedirect_redirects in H1, H2.
  split.
  - destruct (Proxy.GetRedirectByHost order1 (Proxy.Source redirect)) as [r'|] eqn:E.
    + apply GetRedirectByHost_Some in E as [Hs [id' Hid']].
      rewrite H1 in Hid'. apply elem_of_map_to_list in Hid'.
      apply lookup_insert_Some in Hid' as [[_ ->]|[Hne Hid']]; [done|].
      by destruct Hne; symmetry; eapply Hfree.
    + exfalso. rewrite GetRedirectByHost_None in E. apply (E id redirect); [|done].
      rewrite H1. apply elem_of_map_to_list, lookup_insert_eq.
  - apply GetRedirectByHost_None. intros id' r' Hin Hs.
    rewrite H2 in Hin. apply elem_of_map_to_list in Hin.
    rewrite delete_insert_eq in Hin. apply lookup_delete_Some in Hin as [Hne Hin].
    by destruct Hne; symmetry; eapply Hfree.
Qed.

Lemma Proxy_add_serve_remove_witness :
  Proxy.GetRedirectByHost
    [(1%N, Proxy.mkRedirect "app.local" "http://127.0.0.1:8080")] "app.local"
  = Some (Proxy.mkRedirect "app.local" "http://127.0.0.1:8080")
  ∧ Proxy.GetRedirectByHost [] "app.local" = None.
Proof.
  apply (Proxy_add_serve_remove Proxy.Written Proxy.Interrupted 1%N
           (Proxy.mkRedirect "app.local" "http://127.0.0.1:8080")
           Proxy.empty_adapter).
  - intros j rj Hj. vm_compute in Hj. discriminate.
  - rewrite AddRedirect_redirects. simpl.
    by rewrite insert_empty, map_to_list_singleton.
  - rewrite RemoveRedirect_redirects, AddRedirect_redirects. simpl.
    by rewrite delete_insert_eq, delete_empty, map_to_list_empty.
Defined.

(** X11. The file follows the memory as far as the writes go.  Every
    operation changes the map in memory.  One whose write succeeds leaves
    redirects.json equal to that map; one whose file could not be opened
    leaves the file as it was; one that fails once the file is open leaves
    it torn, since opening empties it.  So after any run the file is the
    one the run started with, or torn, or holds the map as it was in memory
    after some step of the run. *)
Theorem Proxy_file_holds_a_past_map
    (ops : list Proxy.Op) (op : Proxy.Op) (a : Proxy.ProxyFSAdapter) :
  Proxy.disk (Proxy.run (ops ++ [op]) a)
  = match ProxyDisk.outcome op with
    | Proxy.Written => Proxy.Holds (Proxy.redirects (Proxy.run (ops ++ [op]) a))
    | Proxy.NotOpened => Proxy.disk (Proxy.run ops a)
    | Proxy.Interrupted => Proxy.Torn
    end
  ∧ (Proxy.disk (Proxy.run ops a) = Proxy.disk a
     ∨ Proxy.disk (Proxy.run ops a) = Proxy.Torn
     ∨ ∃ k, k ≤ length ops
            ∧ Proxy.disk (Proxy.run ops a)
              = Proxy.Holds (Proxy.redirects (Proxy.run (take k ops) a))).
Proof.
  split.
  - rewrite step_snoc. apply step_disk.
  - clear op. induction ops as [|op ops IH] using rev_ind; [by left|].
    rewrite step_snoc, step_disk. destruct (ProxyDisk.outcome op).
    + right. right. exists (length (ops ++ [op])). split; [done|].
      by rewrite firstn_all, step_snoc.
    + destruct IH as [IH|[IH|(k & Hk & IH)]]; [by left | by right; left |].
      right. right. exists k. split; [rewrite length_app; lia|].
      by rewrite take_app_le.
    + right. by left.
Qed.

(** * More on the Docker runner *)
Section RunnerLog.
Import Docker Runner.

Lemma appends_ret {A} Q (a : A) : appends Q (mret a).
Proof. intros tr. exists []. by rewrite app_nil_r. Qed.

Lemma appends_fail {A} Q e : appends Q (@fail A e).
Proof. intros tr. exists []. by rewrite app_nil_r. Qed.

Lemma appends_lift {A} Q (r : Error + A) : appends Q (lift r).
Proof. intros tr. exists []. by rewrite app_nil_r. Qed.

Lemma appends_check Q r : appends Q (check r).
Proof. destruct r; [apply appends_fail | apply appends_ret]. Qed.

Lemma appends_emit (Q : Event → bool) ev : Q ev = true → appends Q (emit ev).
Proof. intros H tr. exists [ev]. split; [done|]. simpl. by rewrite H. Qed.

Lemma appends_bind {A B} Q (m : M A) (f : A → M B) :
  appends Q m → (∀ a, appends Q (f a)) → appends Q (m ≫= f).
Proof.
  intros Hm Hf tr. unfold mbind, M_bind.
  destruct (Hm tr) as (n1 & H1 & Q1).
  destruct (m tr) as [tr' [e|a]]; simpl in H1; subst tr'.
  - by exists n1.
  - destruct (Hf a (tr ++ n1)) as (n2 & H2 & Q2). exists (n1 ++ n2).
    rewrite H2, app_assoc. split; [done|]. rewrite forallb_app. by rewrite Q1, Q2.
Qed.

Lemma appends_for_each {A} Q (f : A → M unit) l :
  (∀ a, appends Q (f a)) → appends Q (for_each f l).
Proof.
  intros Hf. induction l as [|a l IH]; [apply appends_ret|].
  simpl. apply appends_bind; [apply Hf | by intros _].
Qed.

Lemma appends_on_error {A} Q (m : M A) h :
  appends Q m → (∀ e, appends Q (h e)) → appends Q (on_error m h).
Proof.
  intros Hm Hh tr. unfold on_error.
  destruct (Hm tr) as (n1 & H1 & Q1).
  destruct (m tr) as [tr' [e|a]]; simpl in H1; subst tr'.
  - destruct (Hh e (tr ++ n1)) as (n2 & H2 & Q2). exists (n1 ++ n2).
    simpl. rewrite H2, app_assoc. split; [done|]. rewrite forallb_app. by rewrite Q1, Q2.
  - by exists n1.
Qed.

Lemma appends_weaken {A} (Q Q' : Event → bool) (m : M A) :
  (∀ ev, Q ev = true → Q' ev = true) → appends Q m → appends Q' m.
Proof.
  intros HQ Hm tr. destruct (Hm tr) as (n & H & Hn). exists n. split; [done|].
  apply forallb_forall. intros ev Hev. apply HQ.
  by eapply forallb_forall in Hn.
Qed.

Ltac appends_step :=
  first [ apply appends_bind; [|intros ?]
        | apply appends_for_each; intros ?
        | apply appends_emit; reflexivity
        | apply appends_ret | apply appends_fail | apply appends_lift
        | apply appends_check ].

Lemma appends_build_of cli sys instance : appends is_output (build_of cli sys instance).
Proof.
  unfold build_of. destruct (Dockerfile _); [|destruct (Image _)].
  - unfold buildImageFromDockerfile. repeat appends_step.
    destruct (Unmarshal_stream sys _); [|repeat appends_step].
    destruct (String.eqb _ _); repeat appends_step.
  - unfold buildImageFromName. repeat appends_step.
  - apply appends_fail.
Qed.

Lemma appends_createContainer cli image name exposed bindings binds :
  appends is_create (createContainer cli image name exposed bindings binds).
Proof.
  unfold createContainer. apply appends_bind; [repeat appends_step | intros _].
  destruct (ContainerCreate _ _ _ _ _ _) as [[id warnings] err].
  repeat appends_step.
Qed.

Lemma appends_create_step cli sys instance :
  appends is_create (create_step cli sys instance).
Proof.
  unfold create_step. destruct (getID cli instance) as [[]|id];
    try apply appends_fail; [|apply appends_ret].
  unfold create.
  apply appends_bind; [repeat appends_step | intros _].
  apply appends_bind; [destruct (Ports _); repeat appends_step | intros [exposed bindings]].
  apply appends_bind; [destruct (Volumes _); repeat appends_step | intros binds].
  destruct (Dockerfile _); [apply appends_createContainer|].
  destruct (Image _); [apply appends_createContainer|].
  destruct (Volumes _) as [[|]|]; repeat appends_step.
Qed.

Lemma build_step_cases cli sys instance tr :
  ∃ out, forallb is_output out = true ∧
    ((build_step cli sys instance tr = (tr ++ out, inr tt))
     ∨ ∃ e, build_step cli sys instance tr
            = (tr ++ out ++ [OnErr (Error_msg e)], inl e)).
Proof.
  destruct (appends_build_of cli sys instance tr) as (out & Hout & Q).
  exists out. split; [done|].
  unfold build_step, on_error. fold (build_of cli sys instance).
  destruct (build_of cli sys instance tr) as [tr' [e|[]]]; simpl in Hout; subst tr'.
  - right. exists e. simpl. by rewrite app_assoc.
  - by left.
Qed.

Lemma create_step_cases cli sys instance tr :
  ∃ new r, forallb is_create new = true
    ∧ create_step cli sys instance tr = (tr ++ new, r).
Proof.
  destruct (appends_create_step cli sys instance tr) as (new & Hnew & Q).
  destruct (create_step cli sys instance tr) as [tr' r] eqn:E.
  simpl in Hnew. subst tr'. by exists new, r.
Qed.

(** [Start] as its five steps, on the empty log. *)
(** The layout of a run of [Start]. *)
Lemma Start_layout cli sys instance :
  ∃ out new, forallb is_output out = true ∧ forallb is_create new = true ∧
    ((∃ e, build_step cli sys instance [SetStatus InstanceStatusBuilding]
           = ([SetStatus InstanceStatusBuilding] ++ out ++ [OnErr (Error_msg e)], inl e)
           ∧ new = []
           ∧ run (Start cli sys instance)
             = ([SetStatus InstanceStatusBuilding] ++ out ++ [OnErr (Error_msg e)], inl e))
     ∨ (build_step cli sys instance [SetStatus InstanceStatusBuilding]
        = ([SetStatus InstanceStatusBuilding] ++ out, inr tt)
        ∧ ((∃ e, run (Start cli sys instance)
                 = ([SetStatus InstanceStatusBuilding] ++ out ++ new, inl e))
           ∨ (∃ id e, ContainerStart cli id = Some e
                ∧ run (Start cli sys instance)
                  = ([SetStatus InstanceStatusBuilding] ++ out ++ new
                     ++ [DoContainerStart id; SetStatus InstanceStatusError], inl e))
           ∨ (∃ id, ContainerStart cli id = None
                ∧ run (Start cli sys instance)
                  = ([SetStatus InstanceStatusBuilding] ++ out ++ new
                     ++ [DoContainerStart id; SetStatus InstanceStatusRunning], inr tt))))).
Proof.
  rewrite Start_run.
  destruct (build_step_cases cli sys instance [SetStatus InstanceStatusBuilding])
    as (out & Qout & [Hb|[e Hb]]).
  - destruct (create_step_cases cli sys instance ([SetStatus InstanceStatusBuilding] ++ out))
      as (new & r & Qnew & Hc).
    exists out, new. split; [done|]. split; [done|]. right. split; [done|].
    rewrite Hb, Hc. destruct r as [e|id].
    + left. exists e. by rewrite <- app_assoc.
    + destruct (ContainerStart cli id) as [e|] eqn:HS.
      * right; left. exists id, e. split; [done|]. by rewrite <- !app_assoc.
      * right; right. exists id. split; [done|]. by rewrite <- !app_assoc.
  - exists out, []. split; [done|]. split; [done|]. left. exists e.
    by rewrite Hb.
Qed.

End RunnerLog.

Section RunnerFacts.
Import Docker Runner.

Lemma forallb_weaken {A} (Q Q' : A → bool) l :
  (∀ x, Q x = true → Q' x = true) → forallb Q l = true → forallb Q' l = true.
Proof.
  intros HQ H. apply forallb_forall. intros x Hx. apply HQ.
  by eapply forallb_forall in H.
Qed.



Lemma output_not_OnErr ev : is_output ev = true → negb (is_OnErr ev) = true.
Proof. by destruct ev. Qed.

Lemma create_not_OnErr ev : is_create ev = true → negb (is_OnErr ev) = true.
Proof. by destruct ev. Qed.

Lemma output_not_create ev :
  is_output ev = true → negb (is_DoContainerCreate ev) = true.
Proof. by destruct ev. Qed.

Lemma find_container_result instance containers id :
  find_container (DockerContainerName instance) containers = inr id →
  (Forall (other instance) containers ∧ id = "")
  ∨ ∃ pre c post, containers = pre ++ c :: post ∧ Forall (other instance) pre
                  ∧ named instance c ∧ ID c = id.
Proof.
  induction containers as [|c cs IH]; simpl.
  - intros [= <-]. by left.
  - destruct (Names c) as [|n ns] eqn:Hn; [done|].
    destruct (String.eqb_spec n ("/" +:+ DockerContainerName instance)) as [->|Hne].
    + intros [= <-]. right. exists [], c, cs. split_and!; try done.
      unfold named. by rewrite Hn.
    + intros H. assert (other instance c) as Hc.
      { split; [by rewrite Hn|]. unfold named. rewrite Hn. by intros [= ?]. }
      destruct (IH H) as [[Hall ->]|(pre & c' & post & -> & Hpre & Hc' & Hid)].
      * left. by split; [constructor|].
      * right. exists (c :: pre), c', post. split_and!; try done. by constructor.
Qed.

Lemma for_each_emit {A} (g : A → list Event) (f : A → M unit) l tr :
  (∀ a tr, f a tr = (tr ++ g a, inr tt)) →
  for_each f l tr = (tr ++ (l ≫= g), inr tt).
Proof.
  intros Hf. revert tr. induction l as [|a l IH]; intros tr.
  - simpl. by rewrite app_nil_r.
  - cbn [for_each]. unfold mbind at 1, M_bind. rewrite Hf, IH.
    by rewrite bind_cons, app_assoc.
Qed.

Lemma volume_binds_app sys path volumes : ∀ binds,
  volume_binds sys path volumes binds
  = match volume_binds sys path volumes [] with
    | inl e => inl e
    | inr bs => inr (binds ++ bs)
    end.
Proof.
  induction volumes as [|[s t] volumes IH]; intros binds; simpl.
  - by rewrite app_nil_r.
  - destruct (Abs sys _) as [e|p]; [done|].
    rewrite (IH (binds ++ _)), (IH [_]).
    destruct (volume_binds sys path volumes []); [done|]. by rewrite <- app_assoc.
Qed.

End RunnerFacts.

(** X12. [getID] answers with an id exactly when the daemon's list has a
    container whose first name is "/VERTEX_CONTAINER_<uuid>", every
    container before it has a first name and another one, and the id of
    that first match is not empty; the answer is that id. *)
Theorem Docker_getID_first_match_by_first_name
    (cli : Docker.Client) (instance : Docker.Instance) (id : string) :
  Docker.getID cli instance = inr id ↔
  ∃ pre c post,
    Docker.ContainerList cli = inr (pre ++ c :: post)
    ∧ Forall (Docker.other instance) pre
    ∧ Docker.named instance c ∧ Docker.ID c = id ∧ id ≠ "".
Proof.
  split.
  - unfold Docker.getID. destruct (Docker.ContainerList cli) as [e|cs]; [done|].
    destruct (Docker.find_container _ cs) as [e|cid] eqn:Hf; [done|].
    destruct (String.eqb_spec cid "") as [->|Hne]; [done|]. intros [= <-].
    apply find_container_result in Hf
      as [[_ ->]|(pre & c & post & -> & Hpre & Hc & Hid)]; [done|].
    by exists pre, c, post.
  - intros (pre & c & post & HL & Hpre & Hc & <- & Hne).
    by apply (getID_present cli instance pre c post).
Qed.

(** X13. [Stop] fails with "container not found" when no container of
    the instance's name is listed; when one is listed it is the answer of
    [ContainerStop] on that container's id that [Stop] returns. *)
Theorem Docker_Stop_needs_the_container
    (cli : Docker.Client) (instance : Docker.Instance)
    (pre post : list Docker.Container) (c : Docker.Container) :
  (Docker.ContainerList cli = inr pre →
   Forall (Docker.other instance) pre →
   Runner.Stop cli instance = inl Docker.ErrContainerNotFound)
  ∧ (Docker.ContainerList cli = inr (pre ++ c :: post) →
     Forall (Docker.other instance) pre →
     Docker.named instance c → Docker.ID c ≠ "" →
     Runner.Stop cli instance
     = Docker.result_of (Docker.ContainerStop cli (Docker.ID c))).
Proof.
  unfold Runner.Stop. split.
  - intros HL Hall. by rewrite (getID_absent _ _ _ HL Hall).
  - intros HL Hall Hc Hid. by rewrite (getID_present _ _ _ _ _ HL Hall Hc Hid).
Qed.

Lemma Docker_Stop_needs_the_container_witness :
  Runner.Stop Docker.sample_client Docker.sample_instance
  = inl Docker.ErrContainerNotFound
  ∧ Runner.Stop (Docker.listing [Docker.registry_container; Docker.sample_container])
      Docker.sample_instance
    = inr tt.
Proof.
  assert (Forall (Docker.other Docker.sample_instance) [Docker.registry_container])
    as Hother.
  { repeat constructor; [discriminate | vm_compute; discriminate]. }
  split.
  - apply (proj1 (Docker_Stop_needs_the_container
      Docker.sample_client Docker.sample_instance
      [Docker.registry_container] [] Docker.sample_container));
      [reflexivity | exact Hother].
  - apply (proj2 (Docker_Stop_needs_the_container
      (Docker.listing [Docker.registry_container; Docker.sample_container])
      Docker.sample_instance
      [Docker.registry_container] [] Docker.sample_container));
      [reflexivity | exact Hother | reflexivity | discriminate].
Defined.


(** X15. [onErr] is for build failures only: when the build step fails,
    [Start] stops there, having called [onErr] exactly once, last, with the
    error's text, and without any request to create or start a container;
    when the build step succeeds, [onErr] is never called, whatever fails
    afterwards. *)
Theorem Docker_Start_onErr_only_for_build
    (cli : Docker.Client) (sys : Docker.Sys) (instance : Docker.Instance) :
  (∀ tr e,
     Docker.build_step cli sys instance [Docker.SetStatus "building"] = (tr, inl e) →
     ∃ out, forallb Runner.is_output out = true
       ∧ Docker.run (Docker.Start cli sys instance)
         = (Docker.SetStatus "building" :: out ++ [Docker.OnErr (Docker.Error_msg e)],
            inl e))
  ∧ (∀ tr,
       Docker.build_step cli sys instance [Docker.SetStatus "building"] = (tr, inr tt) →
       forallb (fun ev => negb (Runner.is_OnErr ev))
               (Docker.run (Docker.Start cli sys instance)).1 = true).
Proof.
  destruct (Start_layout cli sys instance)
    as (out & new & Qout & Qnew & [(e & Hb & _ & H)|[Hb H]]);
    unfold Docker.InstanceStatusBuilding, Docker.InstanceStatusError,
      Docker.InstanceStatusRunning in *.
  - split.
    + intros tr e'. rewrite Hb. intros [= <- <-]. by exists out.
    + intros tr. by rewrite Hb.
  - split.
    + intros tr e'. by rewrite Hb.
    + intros tr _.
      assert (forallb (fun ev => negb (Runner.is_OnErr ev)) out = true) as Q1
        by exact (forallb_weaken _ _ _ output_not_OnErr Qout).
      assert (forallb (fun ev => negb (Runner.is_OnErr ev)) new = true) as Q2
        by exact (forallb_weaken _ _ _ create_not_OnErr Qnew).
      destruct H as [(e & ->)|[(id & e & _ & ->)|(id & _ & ->)]];
        cbn [fst]; rewrite !forallb_app, ?Q1, ?Q2; done.
Qed.

Lemma Docker_Start_onErr_only_for_build_witness :
  (∃ out, forallb Runner.is_output out = true
     ∧ Docker.run (Docker.Start Docker.refusing_client Docker.sample_sys
                     Docker.sample_instance)
       = (Docker.SetStatus "building"
            :: out ++ [Docker.OnErr "pull access denied"],
          inl (Docker.ErrOther "pull access denied")))
  ∧ forallb (fun ev => negb (Runner.is_OnErr ev))
      (Docker.run (Docker.Start Docker.sample_client Docker.sample_sys
                     Docker.sample_instance)).1 = true.
Proof.
  split.
  - apply (proj1 (Docker_Start_onErr_only_for_build Docker.refusing_client
      Docker.sample_sys Docker.sample_instance)
      [Docker.SetStatus "building"; Docker.DoImagePull "nginx:latest";
       Docker.OnErr "pull access denied"]
      (Docker.ErrOther "pull access denied")).
    reflexivity.
  - apply (proj2 (Docker_Start_onErr_only_for_build Docker.sample_client
      Docker.sample_sys Docker.sample_instance)
      [Docker.SetStatus "building"; Docker.DoImagePull "nginx:latest"]).
    reflexivity.
Defined.

Section RunnerSteps.
Import Docker Runner.

Lemma create_step_existing cli sys instance id :
  getID cli instance = inr id → create_step cli sys instance = mret id.
Proof. intros H. unfold create_step. by rewrite H. Qed.

Lemma bind_const_singleton {A B} (x : B) (l : list A) :
  l ≫= (fun _ => [x]) = replicate (length l) x.
Proof. induction l as [|a l IH]; [done|]. by rewrite bind_cons, IH. Qed.

Lemma bind_singleton_fmap {A B} (f : A → B) (l : list A) :
  l ≫= (fun a => [f a]) = f <$> l.
Proof. induction l as [|a l IH]; [done|]. by rewrite bind_cons, IH. Qed.

Lemma volume_binds_cons sys path v volumes :
  volume_binds sys path (v :: volumes) []
  = match volume_bind sys path v with
    | inl e => inl e
    | inr b => match volume_binds sys path volumes [] with
               | inl e => inl e
               | inr bs => inr (b :: bs)
               end
    end.
Proof.
  destruct v as [s t]. cbn [volume_binds]. unfold volume_bind. simpl.
  destruct (Abs sys _) as [e|p]; [done|]. by rewrite volume_binds_app.
Qed.

Lemma createContainer_at cli image name exposed bindings binds tr :
  createContainer cli image name exposed bindings binds tr
  = (tr ++ DoContainerCreate image name exposed bindings binds
        :: replicate (length (ContainerCreate cli image name exposed bindings binds).1.2)
                     (Warn "warning while creating container"),
     match (ContainerCreate cli image name exposed bindings binds).2 with
     | Some e => inl e
     | None => inr (ContainerCreate cli image name exposed bindings binds).1.1
     end).
Proof.
  unfold createContainer.
  destruct (ContainerCreate cli image name exposed bindings binds)
    as [[id warnings] err].
  unfold mbind at 1, M_bind, emit.
  unfold mbind at 1, M_bind.
  rewrite (for_each_emit (fun _ => [Warn "warning while creating container"]))
    by done.
  rewrite bind_const_singleton, <-app_assoc. by destruct err.
Qed.

(** The create branch of [Start], once the ports are parsed and the
    binds are made. *)
Lemma create_at cli sys instance ports image exposed bindings binds tr :
  Ports (Methods_Docker instance) = Some ports →
  image_of instance = Some image →
  ParsePortSpecs sys (port_specs instance ports) = inr (exposed, bindings) →
  volumes_of sys instance = inr binds →
  create cli sys instance
    (Join sys [PathInstances sys; uuid_String (InstanceUUID instance)]) tr
  = createContainer cli image (DockerContainerName instance) exposed bindings binds
      (tr ++ [Log "container doesn't exists, create it."]).
Proof.
  unfold image_of, volumes_of, create. intros -> Himage Hparse Hvol.
  unfold mbind at 1, M_bind, emit.
  unfold mbind at 1, M_bind, lift. rewrite Hparse.
  unfold mbind at 1, M_bind.
  destruct (Volumes (Methods_Docker instance)) as [volumes|].
  - unfold lift. rewrite Hvol.
    destruct (Dockerfile (Methods_Docker instance)), (Image (Methods_Docker instance));
      by simplify_eq.
  - unfold mret, M_ret. injection Hvol as <-.
    destruct (Dockerfile (Methods_Docker instance)), (Image (Methods_Docker instance));
      by simplify_eq.
Qed.

Lemma ParsePortSpecs_failure cli sys instance ports e tr :
  Ports (Methods_Docker instance) = Some ports →
  ParsePortSpecs sys (port_specs instance ports) = inl e →
  create cli sys instance
    (Join sys [PathInstances sys; uuid_String (InstanceUUID instance)]) tr
  = (tr ++ [Log "container doesn't exists, create it."], inl e).
Proof.
  unfold create. intros -> Hparse.
  unfold mbind at 1, M_bind, emit.
  unfold mbind at 1, M_bind, lift. by rewrite Hparse.
Qed.

End RunnerSteps.

(** The manifest of scenario 2: the specification binds host port 8080 to
    the entry 80/tcp, pairing it with the definition whose default is 80.
    The code compares the default with the whole entry, finds no pairing,
    hands no spec to [nat.ParsePortSpecs], and creates and starts the
    container with no port exposed and none bound. *)
Lemma Docker_port_80_tcp_not_bound_for_default_80 :
  Docker.spec_binding_of Docker.scenario_instance "80/tcp" = ["8080:80/tcp"]
  ∧ Docker.port_specs Docker.scenario_instance ["80/tcp"] = []
  ∧ Docker.run (Docker.Start Docker.sample_client Docker.sample_sys
                  Docker.scenario_instance)
    = ([Docker.SetStatus "building"; Docker.DoImagePull "nginx:latest";
        Docker.Log "container doesn't exists, create it.";
        Docker.DoContainerCreate "nginx:latest"
          "VERTEX_CONTAINER_00000000-0000-0000-0000-000000000001" [] [] [];
        Docker.DoContainerStart "9a7e"; Docker.SetStatus "running"], inr tt).
Proof. split_and!; vm_compute; reflexivity. Qed.

(** C5 (amended). The specs handed to [nat.ParsePortSpecs] are, entry by
    entry in the advertised order, ["<value>:<entry>"] where [<value>] is
    the current env value of the first env-definition of type "port" whose
    default is the advertised entry as a whole string; an entry without
    such a definition adds nothing (in particular an entry P/proto when the
    defaults are written without the protocol), and [Start] runs exactly
    as if that entry were not advertised.  When [Start] creates the
    container, the request to the daemon carries the exposed ports and the
    bindings [nat.ParsePortSpecs] answers for those specs; when it answers
    an error, [Start] returns it and asks for no container. *)
Theorem Docker_ports_bound_from_paired_env
    (cli : Docker.Client) (sys : Docker.Sys) (i : Docker.Instance)
    (ports : list string) (image : string) (tr : list Docker.Event) :
  Docker.port_specs i ports = ports ≫= Docker.binding_of i
  ∧ (∀ out, (∀ e, e ∈ Docker.EnvDefinitions i → Docker.Type_ e = "port" →
               Docker.Default e ≠ out) →
       Docker.binding_of i out = [])
  ∧ Docker.Start cli sys (Docker.with_ports i ports)
    = Docker.Start cli sys (Docker.with_ports i (filter (Docker.paired i) ports))
  ∧ (Docker.Ports (Docker.Methods_Docker i) = Some ports →
     Docker.image_of i = Some image →
     Docker.build_step cli sys i [Docker.SetStatus "building"] = (tr, inr tt) →
     Docker.getID cli i = inl Docker.ErrContainerNotFound →
     (∀ exposed bindings binds,
        Docker.ParsePortSpecs sys (ports ≫= Docker.binding_of i)
        = inr (exposed, bindings) →
        Docker.volumes_of sys i = inr binds →
        ∃ rest,
          (Docker.run (Docker.Start cli sys i)).1
          = tr ++ [Docker.Log "container doesn't exists, create it.";
                   Docker.DoContainerCreate image (Docker.DockerContainerName i)
                     exposed bindings binds] ++ rest)
     ∧ (∀ e, Docker.ParsePortSpecs sys (ports ≫= Docker.binding_of i) = inl e →
          Docker.run (Docker.Start cli sys i)
          = (tr ++ [Docker.Log "container doesn't exists, create it."], inl e))).
Proof.
  split_and!.
  - apply port_specs_bindings.
  - intros out Hno. unfold Docker.binding_of, Docker.port_definition.
    destruct (head _) as [e|] eqn:E; [|done].
    apply head_Some_elem_of, list_elem_of_filter in E as [[Ht Hd] Hin].
    by destruct (Hno e Hin Ht).
  - apply Start_ports. by rewrite !port_specs_bindings, bindings_of_paired.
  - intros Hports Himage Hbuild Hid. rewrite <-port_specs_bindings. split.
    + intros exposed bindings binds Hparse Hvol.
      rewrite Start_run.
      change (Docker.SetStatus "building")
        with (Docker.SetStatus Docker.InstanceStatusBuilding) in Hbuild.
      rewrite Hbuild. unfold Docker.create_step. rewrite Hid.
      rewrite (create_at _ _ _ _ _ _ _ _ _ Hports Himage Hparse Hvol).
      rewrite createContainer_at.
      destruct (Docker.ContainerCreate cli _ _ _ _ _) as [[id ws] [e|]]; cbn [fst snd].
      * eexists. by rewrite <-!app_assoc.
      * destruct (Docker.ContainerStart cli id); cbn [fst]; eexists;
          rewrite <-!app_assoc; cbn [app]; reflexivity.
    + intros e Hparse. rewrite Start_run.
      change (Docker.SetStatus "building")
        with (Docker.SetStatus Docker.InstanceStatusBuilding) in Hbuild.
      rewrite Hbuild. unfold Docker.create_step. rewrite Hid.
      by rewrite (ParsePortSpecs_failure _ _ _ _ _ _ Hports Hparse).
Qed.

Lemma Docker_ports_bound_from_paired_env_witness :
  ∃ rest,
    (Docker.run (Docker.Start Docker.sample_client Docker.sample_sys
                   Docker.sample_instance)).1
    = [Docker.SetStatus "building"; Docker.DoImagePull "nginx:latest"]
      ++ [Docker.Log "container doesn't exists, create it.";
          Docker.DoContainerCreate "nginx:latest"
            "VERTEX_CONTAINER_00000000-0000-0000-0000-000000000001"
            ["8080:80/tcp"] [("8080:80/tcp", "8080:80/tcp")] []] ++ rest.
Proof.
  apply (proj1 (proj2 (proj2 (proj2 (Docker_ports_bound_from_paired_env
           Docker.sample_client Docker.sample_sys Docker.sample_instance
           ["80/tcp"; "443/tcp"] "nginx:latest"
           [Docker.SetStatus "building"; Docker.DoImagePull "nginx:latest"])))
           eq_refl eq_refl eq_refl eq_refl)
           ["8080:80/tcp"] [("8080:80/tcp", "8080:80/tcp")] []);
    vm_compute; reflexivity.
Defined.

(** X16. A container that exists is used as it is: when [getID] finds a
    container of the instance's name, [Start] never asks the daemon to
    create one, and the ports and volumes of the manifest play no part in
    the run (changing them changes nothing). *)
Theorem Docker_Start_reuses_existing_container
    (cli : Docker.Client) (sys : Docker.Sys) (instance : Docker.Instance)
    (id : string) :
  Docker.getID cli instance = inr id →
  (∀ ports volumes,
     Docker.Start cli sys (Runner.with_bindings instance ports volumes)
     = Docker.Start cli sys instance)
  ∧ forallb (fun ev => negb (Runner.is_DoContainerCreate ev))
            (Docker.run (Docker.Start cli sys instance)).1 = true.
Proof.
  intros Hid. split.
  - intros ports volumes. rewrite !Start_steps.
    rewrite (create_step_existing cli sys instance id Hid).
    rewrite (create_step_existing cli sys (Runner.with_bindings instance ports volumes) id Hid).
    reflexivity.
  - rewrite Start_run, (create_step_existing cli sys instance id Hid).
    destruct (build_step_cases cli sys instance
                [Docker.SetStatus Docker.InstanceStatusBuilding])
      as (out & Qout & [Hb|[e Hb]]); rewrite Hb.
    + assert (forallb (fun ev => negb (Runner.is_DoContainerCreate ev)) out = true)
        as Q by exact (forallb_weaken _ _ _ output_not_create Qout).
      unfold mret, Docker.M_ret.
      destruct (Docker.ContainerStart cli id); cbn [fst];
        rewrite !forallb_app, Q; done.
    + assert (forallb (fun ev => negb (Runner.is_DoContainerCreate ev)) out = true)
        as Q by exact (forallb_weaken _ _ _ output_not_create Qout).
      cbn [fst]. rewrite !forallb_app, Q. done.
Qed.

Lemma Docker_Start_reuses_existing_container_witness :
  Docker.Start (Docker.listing [Docker.sample_container]) Docker.sample_sys
    (Runner.with_bindings Docker.sample_instance (Some ["9000/tcp"]) (Some [("data", "/data")]))
  = Docker.Start (Docker.listing [Docker.sample_container]) Docker.sample_sys
      Docker.sample_instance.
Proof.
  apply (proj1 (Docker_Start_reuses_existing_container
    (Docker.listing [Docker.sample_container]) Docker.sample_sys
    Docker.sample_instance "9a7e" eq_refl)).
Defined.

(** X17. The warnings of [ContainerCreate] are logged and nothing more:
    [createContainer] logs one warning per entry and then returns the
    daemon's error if there is one and the new id otherwise. *)
Theorem Docker_createContainer_logs_warnings
    (cli : Docker.Client) (image name : string) (exposed : Docker.PortSet)
    (bindings : Docker.PortMap) (binds : list string) :
  Docker.run (Docker.createContainer cli image name exposed bindings binds)
  = (Docker.DoContainerCreate image name exposed bindings binds
       :: replicate
            (length (Docker.ContainerCreate cli image name exposed bindings binds).1.2)
            (Docker.Warn "warning while creating container"),
     match (Docker.ContainerCreate cli image name exposed bindings binds).2 with
     | Some e => inl e
     | None => inr (Docker.ContainerCreate cli image name exposed bindings binds).1.1
     end).
Proof.
  unfold Docker.run, Docker.createContainer.
  destruct (Docker.ContainerCreate cli image name exposed bindings binds)
    as [[id warnings] err].
  unfold mbind at 1, Docker.M_bind, Docker.emit. cbn [app].
  unfold mbind at 1, Docker.M_bind.
  rewrite (for_each_emit (fun _ => [Docker.Warn "warning while creating container"]))
    by done.
  rewrite bind_const_singleton. by destruct err.
Qed.

(** X18. Once the daemon has accepted the request, a build fails only on
    a read error that the scanner meets with input pending.  Building from
    the Dockerfile passes on every non-empty "stream" field and logs a
    warning for each line that does not decode; pulling an image passes on
    every line as it is.  When the body ends, the build succeeds; when it
    breaks off, the lines before the break have been passed on and the
    error of the scanner is returned, without the line that reports
    success. *)
Theorem Docker_build_passes_on_the_stream
    (cli : Docker.Client) (sys : Docker.Sys) (path image : string)
    (body : Docker.Body) :
  (Docker.TarWithOptions sys path = None →
   Docker.ImageBuild cli path image = inr body →
   Docker.run (Docker.buildImageFromDockerfile cli sys path image)
   = (Docker.DoImageBuild image
        :: (Scanner.Scan (Docker.data body) ≫= Runner.stream_events sys)
        ++ match Docker.broken body with
           | None => [Docker.Log "Docker build: success."]
           | Some _ => []
           end,
      match Docker.broken body with
      | None => inr tt
      | Some e => inl e
      end))
  ∧ (Docker.ImagePull cli image = inr body →
     Docker.run (Docker.buildImageFromName cli image)
     = (Docker.DoImagePull image :: (Docker.OnLog <$> Scanner.Scan (Docker.data body)),
        match Docker.broken body with
        | None => inr tt
        | Some e => inl e
        end)).
Proof.
  split.
  - intros Htar Hbuild. unfold Docker.run, Docker.buildImageFromDockerfile.
    rewrite Htar, Hbuild.
    unfold mbind at 1, Docker.M_bind, Docker.check at 1, mret, Docker.M_ret.
    unfold mbind at 1, Docker.M_bind, Docker.emit at 1. cbn [app].
    unfold mbind at 1, Docker.M_bind, Docker.lift.
    unfold mbind at 1, Docker.M_bind.
    rewrite (for_each_emit (Runner.stream_events sys)).
    + destruct (Docker.broken body) as [e|].
      * unfold mbind, Docker.M_bind, Docker.check, Docker.fail.
        by rewrite app_nil_r.
      * unfold mbind, Docker.M_bind, Docker.check, mret, Docker.M_ret, Docker.emit.
        by rewrite <-app_assoc.
    + intros line tr. unfold Runner.stream_events.
      destruct (Docker.Unmarshal_stream sys line) as [stream|]; [|done].
      destruct (String.eqb stream ""); [|done].
      unfold mret, Docker.M_ret. by rewrite app_nil_r.
  - intros Hpull. unfold Docker.run, Docker.buildImageFromName. rewrite Hpull.
    unfold mbind at 1, Docker.M_bind, Docker.emit. cbn [app].
    unfold mbind at 1, Docker.M_bind, Docker.lift.
    unfold mbind at 1, Docker.M_bind.
    rewrite (for_each_emit (fun line => [Docker.OnLog line])) by done.
    rewrite bind_singleton_fmap.
    by destruct (Docker.broken body).
Qed.

Lemma Docker_build_passes_on_the_stream_witness :
  Docker.run (Docker.buildImageFromDockerfile Docker.sample_client Docker.sample_sys
                "live/instances/x" "vertex_image_x")
  = ([Docker.DoImageBuild "vertex_image_x"; Docker.Log "Docker build: success."],
     inr tt)
  ∧ Docker.run (Docker.buildImageFromDockerfile Runner.cut_client Docker.sample_sys
                  "live/instances/x" "vertex_image_x")
    = ([Docker.DoImageBuild "vertex_image_x"; Docker.OnLog "Step 1/2"],
       inl (Docker.ErrOther "unexpected EOF"))
  ∧ Docker.run (Docker.buildImageFromName Runner.cut_client "nginx:latest")
    = ([Docker.DoImagePull "nginx:latest"; Docker.OnLog "Step 1/2"],
       inl (Docker.ErrOther "unexpected EOF")).
Proof.
  split_and!.
  - apply (proj1 (Docker_build_passes_on_the_stream Docker.sample_client
      Docker.sample_sys "live/instances/x" "vertex_image_x" (Docker.mkBody "" None)));
      reflexivity.
  - apply (proj1 (Docker_build_passes_on_the_stream Runner.cut_client
      Docker.sample_sys "live/instances/x" "vertex_image_x" Runner.cut_body));
      reflexivity.
  - apply (proj2 (Docker_build_passes_on_the_stream Runner.cut_client
      Docker.sample_sys "" "nginx:latest" Runner.cut_body)); reflexivity.
Defined.

(** X19. The volume binds are "<absolute source>:<target>", one per
    volume in the order the volumes are ranged over, where the source is made absolute
    from <instance path>/volumes/<source>; the first volume whose path
    cannot be made absolute decides the error, and no bind is returned. *)
Theorem Docker_volume_binds_in_order
    (sys : Docker.Sys) (path : string)
    (pre post : list (string * string)) (binds : list string)
    (v : string * string) (e : Docker.Error) :
  (Forall2 (fun volume b => Runner.volume_bind sys path volume = inr b) pre binds →
   Docker.volume_binds sys path pre [] = inr binds)
  ∧ (Forall2 (fun volume b => Runner.volume_bind sys path volume = inr b) pre binds →
     Runner.volume_bind sys path v = inl e →
     Docker.volume_binds sys path (pre ++ v :: post) [] = inl e).
Proof.
  split.
  - induction 1 as [|volume b pre' binds' Hb _ IH]; [done|].
    by rewrite volume_binds_cons, Hb, IH.
  - intros Hpre Hv. induction Hpre as [|volume b pre' binds' Hb _ IH].
    + simpl app. by rewrite volume_binds_cons, Hv.
    + simpl app. by rewrite volume_binds_cons, Hb, IH.
Qed.

Lemma Docker_volume_binds_in_order_witness :
  Docker.volume_binds Docker.sample_sys "live/instances/x"
    [("data", "/var/lib/data"); ("conf", "/etc/app")] []
  = inr ["/live/instances/x/volumes/data:/var/lib/data";
         "/live/instances/x/volumes/conf:/etc/app"].
Proof.
  apply (proj1 (Docker_volume_binds_in_order Docker.sample_sys "live/instances/x"
    [("data", "/var/lib/data"); ("conf", "/etc/app")] []
    ["/live/instances/x/volumes/data:/var/lib/data";
     "/live/instances/x/volumes/conf:/etc/app"]
    ("", "") Docker.PanicIndex)).
  repeat constructor.
Defined.

(** * The instance life cycle of services/instance *)
Section ServiceFacts.
Import Service.

Lemma statuses_app tr tr' : statuses (tr ++ tr') = statuses tr ++ statuses tr'.
Proof. unfold statuses. apply omap_app. Qed.

Lemma statuses_log ev st :
  (∀ s, ev ≠ Run (Native.StatusChange s)) →
  statuses (log ev st).2 = statuses st.2.
Proof.
  intros H. unfold log. cbn [snd]. rewrite statuses_app.
  destruct ev as [[]| | | | | | | |]; simpl; rewrite ?app_nil_r; try done.
  by destruct (H status).
Qed.

Lemma statuses_setStatus s st : statuses (setStatus s st).2 = statuses st.2 ++ [s].
Proof. unfold setStatus. cbn [snd]. by rewrite statuses_app. Qed.



Lemma Status_log ev st : Native.Status (native (log ev st).1) = Native.Status (native st.1).
Proof. done. Qed.

Lemma removed_app tr tr' :
  existsb is_DoRemoveAll (tr ++ tr') = existsb is_DoRemoveAll tr || existsb is_DoRemoveAll tr'.
Proof. apply existsb_app. Qed.

(** [Stop] adds no request to remove the directory. *)
Lemma Stop_no_removal w st st' err :
  Stop w st = Return (st', err) →
  existsb is_DoRemoveAll st'.2 = existsb is_DoRemoveAll st.2.
Proof.
  unfold Stop. destruct (UseDocker st.1).
  - unfold stopWithDocker. destruct (NewClient w) as [cli|].
    + destruct (dockerContainerID cli st.1) as [|[e|id]]; [done|..]; intros [= <- <-];
        cbn [snd setStatus log]; rewrite ?removed_app; simpl; by rewrite ?orb_false_r.
    + intros [= <- <-]. cbn [snd setStatus]. rewrite removed_app. simpl.
      by rewrite orb_false_r.
  - unfold stopManually. destruct (Native.cmd _) as [c|]; [|done].
    destruct (Native.Process c); [|done].
    destruct (Signal w c) as [?|]; intros [= <- <-];
      cbn [snd fst setStatus log]; rewrite ?removed_app; simpl; by rewrite ?orb_false_r.
Qed.

(** A start that fails leaves no handle, the handle it found, or a handle
    without a process. *)
Lemma startManually_failed_handle h i st e :
  Native.startManually h i = (st, Some e) →
  Native.cmd st.1 = Native.cmd i
  ∨ ∃ c, Native.cmd st.1 = Some c ∧ Native.Process c = false.
Proof.
  unfold Native.startManually.
  set (st0 := match Native.cmd i with Some _ => _ | None => _ end).
  assert (Native.cmd st0.1 = Native.cmd i) as H0.
  { subst st0. destruct (Native.cmd i) eqn:E; exact E. }
  destruct (Native.find_command h _ _) as [e0|command];
    [intros [= Hst _]; left; by rewrite <-Hst|].
  destruct (Native.StdoutPipe h _) as [e1|];
    [intros [= Hst _]; right; rewrite <-Hst; by eexists|].
  destruct (Native.StderrPipe h _) as [e2|];
    [intros [= Hst _]; right; rewrite <-Hst; by eexists|].
  destruct (Native.cmd_Start h _) as [e3|];
    [intros [= Hst _]; right; rewrite <-Hst; by eexists|].
  done.
Qed.

End ServiceFacts.

(** X20. [Stop] reports the status off whatever happens: on every return,
    with or without an error, the status is off and the last event is its
    publication.  For a native instance whose handle has a process, the
    handle is dropped only when the interrupt could be sent; when it could
    not, the error is returned and the handle is kept.  Without a handle,
    or with a handle that has no process, the call panics: that is how
    [Stop] ends after a native start that failed on an instance which held
    no handle. *)
Theorem Service_Stop_reports_off_whatever_happens
    (w : Service.World) (st : Service.State) :
  (∀ st' err, Service.Stop w st = Service.Return (st', err) →
     Native.Status (Service.native st'.1) = "off"
     ∧ last st'.2 = Some (Service.Run (Native.StatusChange "off"))
     ∧ Service.statuses st'.2 = Service.statuses st.2 ++ ["off"])
  ∧ (Service.UseDocker st.1 = false →
     (Native.cmd (Service.native st.1) = None → Service.Stop w st = Service.Panic)
     ∧ (∀ c, Native.cmd (Service.native st.1) = Some c → Native.Process c = false →
          Service.Stop w st = Service.Panic)
     ∧ (∀ c, Native.cmd (Service.native st.1) = Some c → Native.Process c = true →
          ∃ st', Service.Stop w st
                 = Service.Return (st', Service.FromNative <$> Service.Signal w c)
            ∧ Native.cmd (Service.native st'.1)
              = match Service.Signal w c with Some _ => Some c | None => None end)
     ∧ (Native.cmd (Service.native st.1) = None →
        ∀ st1 e, Service.startNative w st = (st1, Some e) →
          Service.Stop w st1 = Service.Panic)).
Proof.
  split.
  - intros st' err. unfold Service.Stop.
    destruct (if Service.UseDocker st.1 then _ else _) as [|[st1 err1]] eqn:E; [done|].
    intros [= <- <-]. split; [done|]. split.
    + unfold Service.setStatus. cbn [snd]. by rewrite last_snoc.
    + rewrite statuses_setStatus. f_equal.
      destruct (Service.UseDocker st.1).
      * unfold Service.stopWithDocker in E.
        destruct (Service.NewClient w) as [cli|]; [|by injection E as <- _].
        destruct (Service.dockerContainerID cli st.1) as [|[e|id]]; [done|..];
          injection E as <- _; [done|].
        by apply statuses_log.
      * unfold Service.stopManually in E.
        destruct (Native.cmd _) as [c|]; [|done].
        destruct (Native.Process c); [|done].
        destruct (Service.Signal w c) as [?|]; injection E as <- _;
          cbn [snd fst]; by apply statuses_log.
  - intros Hd. split_and!.
    + unfold Service.Stop, Service.stopManually. rewrite Hd. by intros ->.
    + unfold Service.Stop, Service.stopManually. rewrite Hd. by intros c -> ->.
    + unfold Service.Stop, Service.stopManually. rewrite Hd.
      intros c Hc Hp. rewrite Hc, Hp.
      destruct (Service.Signal w c) as [e|]; eexists; (split; [reflexivity|]); [|done].
      exact Hc.
    + intros Hnone st1 e. unfold Service.startNative.
      destruct (Native.startManually _ _) as [[n tr] err] eqn:E.
      intros [= <- He]. destruct err as [e'|]; [|done].
      apply startManually_failed_handle in E. cbn [fst] in E.
      unfold Service.Stop, Service.stopManually. cbn [fst Service.with_native
        Service.native Service.UseDocker]. rewrite Hd.
      destruct E as [E|(c & -> & ->)]; [|done].
      by rewrite E, Hnone.
Qed.

Lemma Service_Stop_reports_off_whatever_happens_witness :
  (∃ st', Service.Stop Service.sample_world (Service.running_instance, [])
          = Service.Return
              (st', Some (Service.FromNative (Native.ErrOther "os: process already finished")))
     ∧ Native.Status (Service.native st'.1) = "off"
     ∧ Native.cmd (Service.native st'.1)
       = Some (Native.mkCmd "./hello" "live/instances/x" true))
  ∧ (Service.startNative Service.sample_world (Service.stopped_instance, [])).2
    = Some (Service.FromNative (Native.ErrOther "permission denied"))
  ∧ Service.Stop Service.sample_world
      (Service.startNative Service.sample_world (Service.stopped_instance, [])).1
    = Service.Panic.
Proof.
  destruct (Service_Stop_reports_off_whatever_happens Service.sample_world
              (Service.running_instance, [])) as [H1 H2].
  destruct (proj1 (proj2 (proj2 (H2 eq_refl)))
              (Native.mkCmd "./hello" "live/instances/x" true) eq_refl eq_refl)
    as (st' & HS & Hc).
  split; [|split; [reflexivity|]].
  - exists st'. split; [exact HS|]. split; [|exact Hc].
    exact (proj1 (H1 st' _ HS)).
  - refine (proj2 (proj2 (proj2 (proj2 (Service_Stop_reports_off_whatever_happens
      Service.sample_world (Service.stopped_instance, [])) eq_refl))) eq_refl _ _ _).
    reflexivity.
Defined.

(** X21. [Delete] removes the directory last: a Docker instance whose
    container is not found is not deleted at all (the error is returned
    and nothing else is done), and whenever [Delete] returns after asking
    for the directory to be removed, either it succeeded or the error is
    the one of that removal; so a failed stop leaves the directory alone. *)
Theorem Service_Delete_removes_directory_last
    (w w' : Service.World) (i : Service.Instance) :
  (Service.UseDocker i = true →
   ∀ cli e, Service.NewClient w = Some cli →
     Service.dockerContainerID cli i = Service.Return (inl e) →
     Service.Delete w w' (i, []) = Service.Return ((i, []), Some (Service.FromDocker e)))
  ∧ (∀ st' err, Service.Delete w w' (i, []) = Service.Return (st', err) →
       existsb Service.is_DoRemoveAll st'.2 = true →
       err = None
       ∨ err = Some (Service.ErrDeleteDir (Native.InstanceUUID (Service.native st'.1)))).
Proof.
  split.
  - intros Hd cli e Hcli Hid. unfold Service.Delete. cbn [fst]. rewrite Hd, Hcli.
    unfold Service.dockerDeleteContainer. cbn [fst]. by rewrite Hid.
  - intros st' err. unfold Service.Delete.
    destruct (if Service.UseDocker (i, []).1 then _ else _) as [|[st1 err1]] eqn:E1; [done|].
    assert (existsb Service.is_DoRemoveAll st1.2 = false) as H1.
    { cbn [fst] in E1. destruct (Service.UseDocker i); [|by injection E1 as <- _].
      destruct (Service.NewClient w) as [cli|]; [|by injection E1 as <- _].
      unfold Service.dockerDeleteContainer in E1. cbn [fst] in E1.
      destruct (Service.dockerContainerID cli i) as [|[e|id]]; [done|..];
        by injection E1 as <- _. }
    destruct err1 as [e1|]; [intros [= <- <-]; congruence|].
    destruct (if Service.IsRunning st1.1 then _ else _) as [|[st2 [e2|]]] eqn:E2; [done | |].
    + intros [= <- <-].
      destruct (Service.IsRunning st1.1); [|by injection E2 as <- ?].
      apply Stop_no_removal in E2. congruence.
    + destruct (Service.RemoveAll w' _); intros [= <- <-] _; [by left | by right].
Qed.

Lemma Service_Delete_removes_directory_last_witness :
  let w := Service.mkWorld Native.sample_host None (fun _ => None) (fun _ => None)
             (fun _ => false) in
  let c := Native.mkCmd "./hello" "live/instances/x" true in
  let st' :=
    (Service.mkInstance (Native.mkInstance 1%N "hello" "Hello" "off" None) false false,
     [Service.DoSignal c; Service.Run (Native.StatusChange "off");
      Service.DoRemoveAll "live/instances/00000000-0000-0000-0000-000000000001"]) in
  Service.Delete w w (Service.running_instance, [])
  = Service.Return (st', Some (Service.ErrDeleteDir 1%N))
  ∧ (Some (Service.ErrDeleteDir 1%N) = None
     ∨ Some (Service.ErrDeleteDir 1%N)
       = Some (Service.ErrDeleteDir (Native.InstanceUUID (Service.native st'.1)))).
Proof.
  intros w c st'. split; [reflexivity|].
  apply (proj2 (Service_Delete_removes_directory_last w w Service.running_instance)
           st' (Some (Service.ErrDeleteDir 1%N)) eq_refl eq_refl).
Defined.

Section ServiceStart.
Import Service.




End ServiceStart.



(** X23. A native instance that started and whose process ended keeps its
    handle: the statuses published are [running; off], and the next
    [startManually] logs the error that the runner of that name is already
    started, and spawns the process again all the same. *)
Theorem Native_restart_after_exit_complains
    (h : Native.Host) (i : Native.Instance) (command : string) :
  Native.cmd i = None →
  Native.find_command h
    (Native.Join h [Native.PathInstances h; uuid_String (Native.InstanceUUID i)])
    (Native.ID i) = inr command →
  Native.StdoutPipe h (Native.command_of h i command) = None →
  Native.StderrPipe h (Native.command_of h i command) = None →
  Native.cmd_Start h (Native.command_of h i command) = None →
  let c := Native.command_of h i command in
  let running :=
    Native.mkInstance (Native.InstanceUUID i) (Native.ID i) (Native.Name i)
      "running" (Some (Native.started c)) in
  let ended := Native.reaper h (Native.startManually h i).1 in
  Native.startManually h i
  = ((running,
      [Native.GoScanner "stdout"; Native.GoScanner "stderr";
       Native.StatusChange "running"; Native.Spawned c; Native.GoReaper]), None)
  ∧ Native.statuses ended.2 = ["running"; "off"]
  ∧ Native.Status ended.1 = "off"
  ∧ Native.cmd ended.1 = Some (Native.started c)
  ∧ Native.startManually h ended.1
    = ((running,
        [Native.LogError ("runner " +:+ Native.Name i +:+ " already started");
         Native.GoScanner "stdout"; Native.GoScanner "stderr";
         Native.StatusChange "running"; Native.Spawned c; Native.GoReaper]), None).
Proof.
  intros Hcmd Hfind Hout Herr Hstart c running ended.
  assert (Native.startManually h i
          = ((running,
              [Native.GoScanner "stdout"; Native.GoScanner "stderr";
               Native.StatusChange "running"; Native.Spawned c; Native.GoReaper]), None))
    as H1.
  { unfold Native.startManually. rewrite Hcmd, Hfind.
    fold (Native.command_of h i command). by rewrite Hout, Herr, Hstart. }
  split; [exact H1|]. subst ended. rewrite H1. cbn [fst].
  unfold Native.reaper. cbn [fst Native.cmd running].
  assert (∀ st : Native.State,
            Native.statuses (Native.setStatus Native.StatusOff st).2
            = Native.statuses st.2 ++ ["off"]) as Hoff.
  { intros st. unfold Native.setStatus, Native.statuses. cbn [snd]. by rewrite omap_app. }
  rewrite Hoff.
  destruct (Native.cmd_Wait h (Native.started c));
    cbn [Native.log Native.setStatus fst snd];
    (split; [unfold Native.statuses; rewrite ?omap_app; done|]);
    (split; [done|]); (split; [done|]);
    unfold Native.startManually; subst running;
    cbn [Native.cmd Native.set_status Native.set_cmd Native.InstanceUUID Native.ID
         Native.Name Native.Status Native.log Native.setStatus fst snd];
    rewrite Hfind; fold (Native.command_of h i command);
    by rewrite Hout, Herr, Hstart.
Qed.

Lemma Native_restart_after_exit_complains_witness :
  head (Native.startManually Service.working_host
          (Native.reaper Service.working_host
             (Native.startManually Service.working_host Native.sample_instance).1).1).1.2
  = Some (Native.LogError "runner Hello already started").
Proof.
  pose proof (Native_restart_after_exit_complains Service.working_host
                Native.sample_instance "./hello" eq_refl eq_refl eq_refl eq_refl eq_refl)
    as (_ & _ & _ & _ & H).
  cbv zeta in H. rewrite H. reflexivity.
Defined.

(** X24. Whatever the host answers, [startManually] returns no error
    exactly when it spawned a process; then the status is running, a handle
    is held and the reaper was started last.  It never changes the
    identity of the instance, and when it published no status the status
    is the one it found. *)
Theorem Native_start_spawns_iff_no_error (h : Native.Host) (i : Native.Instance) :
  let r := Native.startManually h i in
  (r.2 = None ↔ ∃ c, Native.Spawned c ∈ r.1.2)
  ∧ (r.2 = None →
     Native.Status r.1.1 = "running" ∧ is_Some (Native.cmd r.1.1)
     ∧ last r.1.2 = Some Native.GoReaper)
  ∧ (Native.statuses r.1.2 = [] → Native.Status r.1.1 = Native.Status i)
  ∧ Native.InstanceUUID r.1.1 = Native.InstanceUUID i
  ∧ Native.ID r.1.1 = Native.ID i
  ∧ Native.Name r.1.1 = Native.Name i.
Proof.
  cbv zeta. unfold Native.startManually.
  set (st0 := match Native.cmd i with Some _ => _ | None => _ end).
  assert (st0.1 = i ∧ (∀ c, Native.Spawned c ∉ st0.2) ∧ Native.statuses st0.2 = [])
    as (H0 & Hs0 & Hst0).
  { subst st0. destruct (Native.cmd i); (split; [done|]); (split; [|done]);
      intros c0 Hin; cbn in Hin; inversion Hin as [|? ? ? Hin']; inversion Hin'. }
  destruct (Native.find_command h _ _) as [e|command]; cbn [fst snd].
  { rewrite H0. split_and!; try done. split; [done|]. intros [c' Hc']; by apply Hs0 in Hc'. }
  set (c := Native.mkCmd _ _ false).
  destruct (Native.StdoutPipe h c) as [e|]; cbn [fst snd].
  { rewrite H0. split_and!; try done. split; [done|]. intros [c' Hc']; by apply Hs0 in Hc'. }
  destruct (Native.StderrPipe h c) as [e|]; cbn [fst snd].
  { rewrite H0. split_and!; try done. split; [done|]. intros [c' Hc']; by apply Hs0 in Hc'. }
  destruct (Native.cmd_Start h c) as [e|]; cbn [fst snd Native.log Native.setStatus
    Native.set_status Native.set_cmd Native.InstanceUUID Native.ID Native.Name
    Native.Status Native.cmd].
  - rewrite H0. split_and!; try done.
    + split; [done|]. intros [c' Hin].
      rewrite !elem_of_app in Hin. destruct Hin as [[[Hin|Hin]|Hin]|Hin]; [by apply Hs0 in Hin|..];
        apply list_elem_of_singleton in Hin; done.
    + unfold Native.statuses in *. rewrite !omap_app, Hst0. done.
  - rewrite H0. split_and!; try done.
    + split; [|done]. intros _. exists c. set_solver.
    + intros _. split; [done|]. split; [by eexists|]. by rewrite last_snoc.
    + unfold Native.statuses in *. rewrite !omap_app, Hst0. done.
Qed.

(** * Installing a service *)
Section InstallerFacts.
Import Installer.

Lemma Split_none sep s : has sep s = false → Split sep s = [s].
Proof.
  induction s as [|x s IH]; simpl; [done|].
  destruct (Ascii.eqb x sep); [done|]. intros H. by rewrite IH.
Qed.

Lemma SplitN2_git x : SplitN2 COLON ("git:https://" +:+ x) = ["git"; "https://" +:+ x].
Proof. reflexivity. Qed.

Lemma downloadFromGit_https w dest x :
  downloadFromGit w dest ("git:https://" +:+ x)
  = Service.Return ([DoClone dest ("https://" +:+ x)], PlainClone w dest ("https://" +:+ x)).
Proof. unfold downloadFromGit. by rewrite SplitN2_git. Qed.

(** The fields of [scheme:host/owner/name]. *)
Lemma Split_colon_repo scheme path :
  has COLON scheme = false → has COLON path = false →
  Split COLON (scheme +:+ ":" +:+ path) = [scheme; path].
Proof.
  intros Hs Hp. change (":" +:+ path) with (String COLON path).
  rewrite Split_field by done. by rewrite Split_none.
Qed.

Lemma Split_slash_repo scheme host owner name :
  has SLASH scheme = false → has SLASH host = false →
  has SLASH owner = false → has SLASH name = false →
  Split SLASH (scheme +:+ ":" +:+ host +:+ "/" +:+ owner +:+ "/" +:+ name)
  = [scheme +:+ ":" +:+ host; owner; name].
Proof.
  intros Hs Hh Ho Hn.
  change ("/" +:+ owner +:+ "/" +:+ name) with (String SLASH (owner +:+ String SLASH name)).
  change (":" +:+ host +:+ String SLASH (owner +:+ String SLASH name))
    with (String COLON (host +:+ String SLASH (owner +:+ String SLASH name))).
  replace (scheme +:+ String COLON (host +:+ String SLASH (owner +:+ String SLASH name)))
    with ((scheme +:+ String COLON host) +:+ String SLASH (owner +:+ String SLASH name)).
  2:{ rewrite append_assoc_s. by sapp. }
  rewrite Split_field.
  2:{ rewrite has_append, Hs. simpl. by rewrite Hh. }
  rewrite Split_field by done. by rewrite Split_none.
Qed.

Lemma prefix_localstorage_not_git repo :
  String.prefix "localstorage:" repo = true → String.prefix "git:" repo = false.
Proof.
  destruct repo as [|a repo]; [done|]. cbn [String.prefix].
  destruct (ascii_dec "l" a) as [<-|]; [|done]. intros _.
  by destruct (ascii_dec "g" "l").
Qed.

Lemma download_forced w dest repo x :
  Split COLON repo !! 1%nat = Some x →
  download w dest repo true
  = Service.Return ([Log "force-clone enabled."; DoClone dest ("https://" +:+ x)],
                    PlainClone w dest ("https://" +:+ x)).
Proof.
  intros H. unfold download. cbn [orb]. by rewrite H, downloadFromGit_https.
Qed.

(** A forced download never asks for a release. *)
Lemma download_forced_no_release w dest repo tr err :
  download w dest repo true = Service.Return (tr, err) →
  existsb is_DoRelease tr = false.
Proof.
  unfold download. cbn [orb]. destruct (Split COLON repo !! 1%nat) as [x|]; [|done].
  rewrite downloadFromGit_https. by intros [= <- _].
Qed.

Lemma symlink_no_release w dest repo tr err :
  symlink w dest repo = Service.Return (tr, err) →
  existsb is_DoRelease tr = false.
Proof.
  unfold symlink. destruct (Split COLON repo !! 1%nat) as [p|]; [|done].
  destruct (ReadFromDisk w p); by intros [= <- _].
Qed.

Lemma Instantiate_no_release w all u all' tr res :
  Instantiate w all u = (all', tr, res) → existsb is_DoRelease tr = false.
Proof.
  unfold Instantiate. destruct (Exists all u); [by intros [= _ <- _]|].
  destruct (CreateFromDisk w u); by intros [= _ <- _].
Qed.

Lemma Instantiate_cases w all u :
  (∃ e, Instantiate w all u = (all, [], inl e))
  ∨ (∃ i, all !! u = None ∧ CreateFromDisk w u = inr i
          ∧ Instantiate w all u = (<[u := i]> all, [Notify], inr i)).
Proof.
  unfold Instantiate, Exists. case_bool_decide as Hex.
  - left. by eexists.
  - destruct (CreateFromDisk w u) as [e|i]; [left; by eexists|].
    right. exists i. split; [|done]. by apply eq_None_not_Some.
Qed.

End InstallerFacts.

(** X25. For a repository written scheme:host/owner/name, a forced
    download clones https://host/owner/name at once; otherwise [download]
    first asks for the latest release of owner/name and clones only when
    the answer is that no release is published: any other answer, success
    included, is returned as it is. *)
Theorem Installer_download_tries_releases_before_clone
    (w : Installer.World) (dest scheme host owner name : string) :
  has Installer.COLON scheme = false → has Installer.SLASH scheme = false →
  has Installer.COLON host = false → has Installer.SLASH host = false →
  has Installer.COLON owner = false → has Installer.SLASH owner = false →
  has Installer.COLON name = false → has Installer.SLASH name = false →
  let repo := scheme +:+ ":" +:+ host +:+ "/" +:+ owner +:+ "/" +:+ name in
  let url := "https://" +:+ host +:+ "/" +:+ owner +:+ "/" +:+ name in
  let asked :=
    [Installer.Log "force-clone disabled. try to download the releases first";
     Installer.DoRelease owner name dest] in
  Installer.download w dest repo true
  = Service.Return ([Installer.Log "force-clone enabled."; Installer.DoClone dest url],
                    Installer.PlainClone w dest url)
  ∧ Installer.download w dest repo false
    = match Installer.DownloadLatestGithubRelease w owner name dest with
      | Some Installer.ErrNoReleasesPublished =>
          Service.Return (asked ++ [Installer.DoClone dest url],
                          Installer.PlainClone w dest url)
      | answer => Service.Return (asked, answer)
      end.
Proof.
  intros Hs1 Hs2 Hh1 Hh2 Ho1 Ho2 Hn1 Hn2 repo url asked.
  assert (Split Installer.COLON repo = [scheme; host +:+ "/" +:+ owner +:+ "/" +:+ name])
    as Hc.
  { apply Split_colon_repo; [done|].
    rewrite !has_append, Hh1, Ho1, Hn1. done. }
  assert (Split Installer.SLASH repo = [scheme +:+ ":" +:+ host; owner; name]) as Hsl
    by by apply Split_slash_repo.
  split.
  - apply download_forced. by rewrite Hc.
  - unfold Installer.download, Installer.downloadFromReleases. rewrite Hsl. cbn [lookup list_lookup].
    destruct (Installer.DownloadLatestGithubRelease w owner name dest) as [[]|];
      cbn [orb Installer.is_no_releases]; try done.
    rewrite Hc. cbn [lookup list_lookup]. by rewrite downloadFromGit_https.
Qed.

Lemma Installer_download_tries_releases_before_clone_witness :
  Installer.download Installer.sample_world "live/instances/x"
    "marketplace:github.com/vertex-center/vertex-redis" false
  = Service.Return
      ([Installer.Log "force-clone disabled. try to download the releases first";
        Installer.DoRelease "vertex-center" "vertex-redis" "live/instances/x";
        Installer.DoClone "live/instances/x"
          "https://github.com/vertex-center/vertex-redis"], None).
Proof.
  apply (proj2 (Installer_download_tries_releases_before_clone Installer.sample_world
                  "live/instances/x" "marketplace" "github.com" "vertex-center"
                  "vertex-redis" eq_refl eq_refl eq_refl eq_refl eq_refl eq_refl
                  eq_refl eq_refl)).
Defined.

(** X26. The address that [download] clones is https:// followed by what
    stands between the first and the second colon of the repository: of
    scheme:mid:rest only mid is used, so a repository given as
    git:https://host/owner/name is cloned from https://https. *)
Theorem Installer_clone_address_stops_at_second_colon
    (w : Installer.World) (dest scheme mid rest : string) :
  has Installer.COLON scheme = false → has Installer.COLON mid = false →
  Installer.download w dest (scheme +:+ ":" +:+ mid +:+ ":" +:+ rest) true
  = Service.Return ([Installer.Log "force-clone enabled.";
                     Installer.DoClone dest ("https://" +:+ mid)],
                    Installer.PlainClone w dest ("https://" +:+ mid)).
Proof.
  intros Hs Hm. apply download_forced.
  change (":" +:+ mid +:+ ":" +:+ rest) with (String Installer.COLON (mid +:+ String Installer.COLON rest)).
  rewrite !Split_field by done. done.
Qed.

Lemma Installer_clone_address_stops_at_second_colon_witness :
  Installer.download Installer.sample_world "live/instances/x"
    "git:https://github.com/vertex-center/vertex-redis" true
  = Service.Return ([Installer.Log "force-clone enabled.";
                     Installer.DoClone "live/instances/x" "https://https"], None).
Proof.
  apply (Installer_clone_address_stops_at_second_colon Installer.sample_world
           "live/instances/x" "git" "https" "//github.com/vertex-center/vertex-redis"
           eq_refl eq_refl).
Defined.

(** X27. [Install] does nothing for a repository that starts with none of
    marketplace:, localstorage: and git: (the protocol error, the catalog
    as it was).  When Docker is asked for, or releases are not asked for,
    it never asks for a release; and when releases are asked for without
    Docker, a marketplace or git repository with fewer than two slashes
    makes it panic. *)
Theorem Installer_Install_protocol_and_force_clone
    (w : Installer.World) (all : Installer.Catalog) (u : UUID) (repo : string)
    (useDocker useReleases : option bool) :
  (String.prefix "marketplace:" repo = false →
   String.prefix "localstorage:" repo = false →
   String.prefix "git:" repo = false →
   Installer.Install w all u repo useDocker useReleases
   = Service.Return (all, [], inl Installer.ErrProtocol))
  ∧ (Installer.forceClone useDocker useReleases = true →
     ∀ all' tr res,
       Installer.Install w all u repo useDocker useReleases
       = Service.Return (all', tr, res) →
       existsb Installer.is_DoRelease tr = false)
  ∧ (Installer.forceClone useDocker useReleases = false →
     String.prefix "marketplace:" repo || String.prefix "git:" repo = true →
     Split Installer.SLASH repo !! 2%nat = None →
     Installer.Install w all u repo useDocker useReleases = Service.Panic).
Proof.
  split_and!.
  - intros H1 H2 H3. unfold Installer.Install. by rewrite H1, H2, H3.
  - intros Hf all' tr res. unfold Installer.Install. rewrite Hf.
    set (base := Installer.Join w _).
    assert (∀ (o : Installer.Out (option Installer.Error)),
      (∀ tr0 err, o = Service.Return (tr0, err) → existsb Installer.is_DoRelease tr0 = false) →
      match o with
      | Service.Panic => Service.Panic
      | Service.Return (tr0, Some e) => Service.Return (all, tr0, inl e)
      | Service.Return (tr0, None) =>
          match Installer.Instantiate w all u with
          | (all1, tr1, inl e) => Service.Return (all1, tr0 ++ tr1, inl e)
          | (all1, tr1, inr i) =>
              Service.Return
                (<[u := Service.mkInstance (Service.native i)
                          (default (Service.UseDocker i) useDocker)
                          (default (Service.UseReleases i) useReleases)]> all1,
                 tr0 ++ tr1 ++ [Installer.DoWriteMetadata
                     (Service.mkInstance (Service.native i)
                          (default (Service.UseDocker i) useDocker)
                          (default (Service.UseReleases i) useReleases))],
                 match Installer.WriteMetadata w
                     (Service.mkInstance (Service.native i)
                          (default (Service.UseDocker i) useDocker)
                          (default (Service.UseReleases i) useReleases)) with
                 | Some e => inl e
                 | None => inr (Service.mkInstance (Service.native i)
                          (default (Service.UseDocker i) useDocker)
                          (default (Service.UseReleases i) useReleases))
                 end)
          end
      end = Service.Return (all', tr, res) →
      existsb Installer.is_DoRelease tr = false) as Hgen.
    { intros [|[tr0 [e|]]] Ho; [done | |].
      - intros [= _ <- _]. by eapply Ho.
      - destruct (Installer.Instantiate w all u) as [[all1 tr1] [e|i]] eqn:EI;
          intros [= _ <- _]; rewrite !existsb_app;
          rewrite (Ho tr0 None eq_refl), (Instantiate_no_release _ _ _ _ _ _ EI); reflexivity. }
    destruct (String.prefix "marketplace:" repo).
    { apply Hgen. intros ??. apply download_forced_no_release. }
    destruct (String.prefix "localstorage:" repo).
    { apply Hgen. intros ??. apply symlink_no_release. }
    destruct (String.prefix "git:" repo); [|by intros [= _ <- _]].
    apply Hgen. intros ??. apply download_forced_no_release.
  - intros Hf Hp Hsl. unfold Installer.Install. rewrite Hf.
    assert (∀ dest, Installer.download w dest repo false = Service.Panic) as Hpanic.
    { intros dest. unfold Installer.download, Installer.downloadFromReleases.
      rewrite Hsl. by destruct (Split Installer.SLASH repo !! 1%nat). }
    destruct (String.prefix "marketplace:" repo) eqn:E1; [by rewrite Hpanic|].
    cbn [orb] in Hp.
    destruct (String.prefix "localstorage:" repo) eqn:E2.
    { by rewrite (prefix_localstorage_not_git _ E2) in Hp. }
    by rewrite Hp, Hpanic.
Qed.

Lemma Installer_Install_protocol_and_force_clone_witness :
  Installer.Install Installer.sample_world ∅ 7%N "https://github.com/vertex-center/vertex-redis"
    None None
  = Service.Return (∅, [], inl Installer.ErrProtocol)
  ∧ Installer.Install Installer.sample_world ∅ 7%N "git:vertex-redis" None (Some true)
    = Service.Panic.
Proof.
  split.
  - apply (proj1 (Installer_Install_protocol_and_force_clone Installer.sample_world ∅ 7%N
                    "https://github.com/vertex-center/vertex-redis" None None));
      reflexivity.
  - apply (proj2 (proj2 (Installer_Install_protocol_and_force_clone Installer.sample_world
                    ∅ 7%N "git:vertex-redis" None (Some true))));
      reflexivity.
Defined.

(** X28. What [Install] leaves in the catalog.  When it returns an
    instance, the catalog had none under the identifier and now holds
    that instance, whose flags are the requested ones (those read from the
    disk where none was requested), and the metadata was written.  When it
    returns an error, the catalog is as it was, except when the error is
    that of writing the metadata: then the instance stays in the catalog. *)
Theorem Installer_Install_catalog
    (w : Installer.World) (all all' : Installer.Catalog) (u : UUID) (repo : string)
    (useDocker useReleases : option bool) (tr : list Installer.Event)
    (res : Installer.Error + Service.Instance) :
  Installer.Install w all u repo useDocker useReleases = Service.Return (all', tr, res) →
  match res with
  | inr i =>
      all !! u = None ∧ all' = <[u := i]> all
      ∧ Installer.WriteMetadata w i = None
      ∧ last tr = Some (Installer.DoWriteMetadata i)
      ∧ ∃ i0, Installer.CreateFromDisk w u = inr i0
              ∧ Service.native i = Service.native i0
              ∧ Service.UseDocker i = default (Service.UseDocker i0) useDocker
              ∧ Service.UseReleases i = default (Service.UseReleases i0) useReleases
  | inl e =>
      all' = all
      ∨ ∃ i, all !! u = None ∧ all' = <[u := i]> all
             ∧ Installer.WriteMetadata w i = Some e
             ∧ last tr = Some (Installer.DoWriteMetadata i)
  end.
Proof.
  unfold Installer.Install.
  destruct (if String.prefix "marketplace:" repo then _ else _) as [[|[tr0 [e|]]]|];
    [done | | | ].
  - intros [= <- <- <-]. by left.
  - destruct (Instantiate_cases w all u) as [[e ->]|(i0 & Hnone & Hdisk & ->)].
    + intros [= <- <- <-]. by left.
    + intros [= <- <- <-].
      assert (∀ i1 i2 : Service.Instance,
                <[u := i1]> (<[u := i2]> all) = <[u := i1]> all) as Hii
        by (intros; apply insert_insert_eq).
      rewrite Hii.
      destruct (Installer.WriteMetadata w _) as [e|] eqn:EW.
      * right. eexists. split; [done|]. split; [done|]. split; [exact EW|].
        by rewrite last_app.
      * split; [done|]. split; [done|]. split; [exact EW|].
        split; [by rewrite last_app|]. by exists i0.
  - intros [= <- <- <-]. by left.
Qed.

Lemma Installer_Install_catalog_witness :
  let i :=
    Service.mkInstance (Native.mkInstance 7%N "redis" "Redis" Native.StatusOff None)
      true false in
  let tr :=
    [Installer.Log "force-clone enabled.";
     Installer.DoClone "live/instances/00000000-0000-0000-0000-000000000007"
       "https://github.com/vertex-center/vertex-redis";
     Installer.Notify; Installer.DoWriteMetadata i] in
  ({[ 7%N := i ]} : Installer.Catalog) = ∅
  ∨ ∃ i', (∅ : Installer.Catalog) !! 7%N = None
          ∧ ({[ 7%N := i ]} : Installer.Catalog) = <[ 7%N := i' ]> ∅
          ∧ Installer.WriteMetadata Installer.sample_world i'
            = Some (Installer.ErrOther "read-only file system")
          ∧ last tr = Some (Installer.DoWriteMetadata i').
Proof.
  intros i tr.
  apply (Installer_Install_catalog Installer.sample_world ∅ {[ 7%N := i ]} 7%N
           "marketplace:github.com/vertex-center/vertex-redis" (Some true) None tr
           (inl (Installer.ErrOther "read-only file system"))).
  vm_compute. reflexivity.
Defined.

(** * Updates of the manifest and of the settings *)

(** X29. After [Update] with a supported version, [CheckForUpdate] against
    the same document reports nothing to update, whether or not the
    adapter could save it (the container is changed before the adapter is
    called); after [Update] with an unsupported version, [CheckForUpdate]
    answers what it answered before. *)
Theorem Manifest_Update_then_CheckForUpdate
    (MaxSupportedVersion : Z) (adapter : Manifest.ContainerServiceAdapter)
    (inst : Manifest.Container) (latest : Manifest.Service) :
  let inst' := (Manifest.Update MaxSupportedVersion adapter inst latest).1.1 in
  let tr := (Manifest.Update MaxSupportedVersion adapter inst latest).1.2 in
  let err := (Manifest.Update MaxSupportedVersion adapter inst latest).2 in
  ((Manifest.Version latest ≤ MaxSupportedVersion)%Z →
   ManifestCheck.CheckForUpdate inst' latest = false
   ∧ Manifest.Saved (Manifest.ContainerUUID inst) latest ∈ tr
   ∧ err = Manifest.adapter_Save adapter (Manifest.ContainerUUID inst) latest)
  ∧ ((MaxSupportedVersion < Manifest.Version latest)%Z →
     ManifestCheck.CheckForUpdate inst' latest = ManifestCheck.CheckForUpdate inst latest
     ∧ (∀ u s, Manifest.Saved u s ∉ tr)).
Proof.
  cbv zeta. unfold Manifest.Update, Manifest.Save, ManifestCheck.CheckForUpdate.
  destruct (Z.leb_spec (Manifest.Version latest) MaxSupportedVersion); cbn [fst snd].
  - split; [|lia]. intros _. split_and!; [|apply list_elem_of_further, list_elem_of_here|done].
    cbn [Manifest.Service_]. by rewrite bool_decide_eq_true_2.
  - split; [lia|]. intros _. split; [done|]. intros u s Hin.
    inversion Hin as [|? ? ? Hin']; inversion Hin'.
Qed.

Lemma Manifest_Update_then_CheckForUpdate_witness :
  ManifestCheck.CheckForUpdate
    (Manifest.Update 2 Manifest.failing_adapter
       (Manifest.mkContainer 7 (Manifest.mkService "redis" "Redis" 1))
       (Manifest.mkService "redis" "Redis" 2)).1.1
    (Manifest.mkService "redis" "Redis" 2) = false
  ∧ (Manifest.Update 2 Manifest.failing_adapter
       (Manifest.mkContainer 7 (Manifest.mkService "redis" "Redis" 1))
       (Manifest.mkService "redis" "Redis" 2)).2
    = Some (Manifest.ErrAdapter "no space left on device").
Proof.
  destruct (proj1 (Manifest_Update_then_CheckForUpdate 2 Manifest.failing_adapter
              (Manifest.mkContainer 7 (Manifest.mkService "redis" "Redis" 1))
              (Manifest.mkService "redis" "Redis" 2))) as (H1 & _ & H3).
  - vm_compute. discriminate.
  - split; [exact H1 | exact H3].
Defined.


